(** * delimitpy: the model generator ([generate_models.py])

    A shallow embedding of [ModelBuilder], [ModelWriter] and [ModelReader]
    and the properties of the specification that were checked against it.

    Conventions of the embedding.
    - A Python [dict] keyed by names is a [gmap string _]; none of the
      loops modelled here observes the insertion order of a dict in a way
      that changes its result.
    - A dendropy node is the subtree rooted at it.  Node labels are
      population names and are pairwise distinct in a well-formed species
      tree, so identity of nodes ([in], [not in] on lists of nodes) is
      equality of subtrees.
    - Python floats are rationals ([Q]): every number computed below is an
      integer or half an integer.
    - A raised exception is the left injection of a sum; the random
      generator is threaded as explicit state. *)

From Stdlib Require Import Ascii String List ZArith QArith Qround Qminmax Lia Lqa Bool
  Sorted.
From stdpp Require Import base decidable option list gmap strings pretty.
Import ListNotations.

Local Open Scope Z_scope.
Local Open Scope string_scope.
Local Open Scope list_scope.

(** ** Python: exceptions and loops *)

Module Py.

Inductive exn : Type :=
| UnboundLocalError (var : string)
| KeyError (key : string)
| ValueError (msg : string)
| AttributeError (attr : string)
| IndexError (msg : string).

(** [inl e]: the exception [e] was raised; [inr v]: normal completion. *)
Definition result (A : Type) : Type := (exn + A)%type.

Definition ret {A} (a : A) : result A := inr a.
Definition raise {A} (e : exn) : result A := inl e.
Definition bind {A B} (c : result A) (k : A -> result B) : result B :=
  match c with
  | inl e => inl e
  | inr a => k a
  end.

(** [for x in l: acc = body acc x], stopping at the first exception. *)
Fixpoint for_ {A S} (l : list A) (body : S -> A -> result S) (s : S)
  : result S :=
  match l with
  | [] => inr s
  | x :: l' => bind (body s x) (for_ l' body)
  end.

(** [itertools.combinations(l, r)], in the order itertools yields. *)
Fixpoint combinations {A} (l : list A) (r : nat) : list (list A) :=
  match r, l with
  | O, _ => [[]]
  | S _, [] => []
  | S r', x :: xs => map (cons x) (combinations xs r') ++ combinations xs r
  end.

(** Order of Python tuples of two strings. *)
Definition pair_compare (a b : string * string) : comparison :=
  match String.compare (fst a) (fst b) with
  | Eq => String.compare (snd a) (snd b)
  | c => c
  end.

Fixpoint insert_pair (a : string * string) (l : list (string * string))
  : list (string * string) :=
  match l with
  | [] => [a]
  | b :: l' =>
      match pair_compare a b with
      | Lt => a :: b :: l'
      | Eq => b :: l'
      | Gt => b :: insert_pair a l'
      end
  end.

(** [sorted(set(l))] *)
Definition sorted_set (l : list (string * string)) : list (string * string) :=
  foldr insert_pair [] l.

(** [tuple(sorted(pair))] *)
Definition sorted_pair (a : string * string) : string * string :=
  if String.leb (fst a) (snd a) then a else (snd a, fst a).

(** [x in pair] *)
Definition in_pair (x : string) (p : string * string) : bool :=
  String.eqb x (fst p) || String.eqb x (snd p).

(** [[f(x) for x in l]] *)
Fixpoint map_ {A B} (f : A -> result B) (l : list A) : result (list B) :=
  match l with
  | [] => inr []
  | x :: l' =>
      bind (f x) (fun y => bind (map_ f l') (fun ys => inr (y :: ys)))
  end.

(** [l[i]] *)
Definition index {A} (l : list A) (i : nat) : result A :=
  match l !! i with
  | Some v => inr v
  | None => inl (IndexError "index out of range")
  end.

(** [s.split(sep)] for a separator of one character. *)
Fixpoint split (sep : Ascii.ascii) (s : string) : list string :=
  match s with
  | EmptyString => [EmptyString]
  | String c s' =>
      if Ascii.eqb c sep then EmptyString :: split sep s'
      else match split sep s' with
           | [] => [String c EmptyString]
           | piece :: pieces => String c piece :: pieces
           end
  end.

(** [dict[key]] for the dicts keyed by a pair of population indices. *)
Definition getitem2 {V} (d : gmap (nat * nat) V) (key : nat * nat) : result V :=
  match d !! key with
  | Some v => inr v
  | None => inl (KeyError "%s_%s")
  end.

(** [dict[key]] *)
Definition getitem {V} (d : gmap string V) (key : string) : result V :=
  match d !! key with
  | Some v => inr v
  | None => inl (KeyError key)
  end.

End Py.

Notation "x <- c ;; k" := (Py.bind c (fun x => k))
  (at level 100, c at next level, right associativity).

(** ** dendropy: the species tree *)

Module Dendropy.

(** A rooted bifurcating tree.  [ne] and [div] are the already parsed
    [min-max] annotations of the node. *)
Inductive tree : Type :=
| Leaf (taxon : string) (ne : Z * Z)
| Node (label : string) (ne div : Z * Z) (child1 child2 : tree).

#[global] Instance tree_eq_dec : EqDecision tree.
Proof. solve_decision. Defined.

(** [x.label if x.label is not None else x.taxon.label] *)
Definition label_of (t : tree) : string :=
  match t with
  | Leaf taxon _ => taxon
  | Node label _ _ _ _ => label
  end.

(** [tree.internal_nodes()] lists the internal nodes in preorder. *)
Fixpoint internal_nodes (t : tree) : list tree :=
  match t with
  | Leaf _ _ => []
  | Node _ _ _ c1 c2 => t :: internal_nodes c1 ++ internal_nodes c2
  end.

(** [node.postorder_internal_node_iter()]: the internal nodes of the
    subtree of [node], itself included, children first. *)
Fixpoint postorder_internal_node_iter (t : tree) : list tree :=
  match t with
  | Leaf _ _ => []
  | Node _ _ _ c1 c2 =>
      postorder_internal_node_iter c1 ++ postorder_internal_node_iter c2 ++ [t]
  end.

(** [tree.postorder_node_iter()] *)
Fixpoint postorder_node_iter (t : tree) : list tree :=
  match t with
  | Leaf _ _ => [t]
  | Node _ _ _ c1 c2 => postorder_node_iter c1 ++ postorder_node_iter c2 ++ [t]
  end.

End Dendropy.
Import Dendropy.

(** ** msprime: demographies

    [Demography] is used as a container: populations in the order they
    were added, the list of events, and the migration matrix indexed by
    the positions of the populations. *)

Module Float.

(** An event time: a finite number or [np.inf]. *)
Inductive t : Type :=
| Fin (q : Q)
| Inf.

Definition leb (a b : t) : bool :=
  match a, b with
  | Fin x, Fin y => Qle_bool x y
  | _, Inf => true
  | Inf, Fin _ => false
  end.

Definition ltb (a b : t) : bool := negb (leb b a).

(** [a != 0] *)
Definition nonzero (a : t) : bool :=
  match a with
  | Fin q => negb (Qeq_bool q 0)
  | Inf => true
  end.

(** Equality of the numbers denoted. *)
Definition eqb (a b : t) : bool :=
  match a, b with
  | Fin x, Fin y => Qeq_bool x y
  | Inf, Inf => true
  | _, _ => false
  end.

End Float.

Module Msprime.

Record Population : Type :=
  { name : string;
    initial_size : Q }.

(** The three classes of event the builder creates.  [hasattr] is a
    match on the constructor: only a split has [ancestral] and
    [derived], both rate changes have [rate], only the symmetric one has
    [populations], only the asymmetric one has [source] and [dest]. *)
Inductive Event : Type :=
| PopulationSplit (time : Float.t) (derived : string * string)
    (ancestral : string)
| MigrationRateChange (time : Float.t) (source dest : string) (rate : Q)
| SymmetricMigrationRateChange (time : Float.t)
    (populations : string * string) (rate : Q).

Definition time (e : Event) : Float.t :=
  match e with
  | PopulationSplit t _ _ => t
  | MigrationRateChange t _ _ _ => t
  | SymmetricMigrationRateChange t _ _ => t
  end.

(** [event.time = t] *)
Definition set_time (t : Float.t) (e : Event) : Event :=
  match e with
  | PopulationSplit _ d a => PopulationSplit t d a
  | MigrationRateChange _ s d r => MigrationRateChange t s d r
  | SymmetricMigrationRateChange _ p r => SymmetricMigrationRateChange t p r
  end.

(** [event.rate = r] *)
Definition set_rate (r : Q) (e : Event) : Event :=
  match e with
  | PopulationSplit t d a => PopulationSplit t d a
  | MigrationRateChange t s d _ => MigrationRateChange t s d r
  | SymmetricMigrationRateChange t p _ => SymmetricMigrationRateChange t p r
  end.

Definition has_ancestral (e : Event) : bool :=
  match e with PopulationSplit _ _ _ => true | _ => false end.

Definition has_rate (e : Event) : bool :=
  match e with PopulationSplit _ _ _ => false | _ => true end.

Definition has_populations (e : Event) : bool :=
  match e with SymmetricMigrationRateChange _ _ _ => true | _ => false end.

Definition get_derived (e : Event) : Py.result (string * string) :=
  match e with
  | PopulationSplit _ d _ => Py.ret d
  | _ => Py.raise (Py.AttributeError "derived")
  end.

Definition get_ancestral (e : Event) : Py.result string :=
  match e with
  | PopulationSplit _ _ a => Py.ret a
  | _ => Py.raise (Py.AttributeError "ancestral")
  end.

Definition get_populations (e : Event) : Py.result (string * string) :=
  match e with
  | SymmetricMigrationRateChange _ p _ => Py.ret p
  | _ => Py.raise (Py.AttributeError "populations")
  end.

Definition get_source (e : Event) : Py.result string :=
  match e with
  | MigrationRateChange _ s _ _ => Py.ret s
  | _ => Py.raise (Py.AttributeError "source")
  end.

Definition get_dest (e : Event) : Py.result string :=
  match e with
  | MigrationRateChange _ _ d _ => Py.ret d
  | _ => Py.raise (Py.AttributeError "dest")
  end.

Record Demography : Type :=
  { populations : list Population;
    events : list Event;
    migration_matrix : gmap (nat * nat) Q }.

(** [msprime.Demography()] *)
Definition new : Demography :=
  {| populations := []; events := []; migration_matrix := ∅ |}.

Definition add_population (nm : string) (size : Q) (d : Demography)
  : Demography :=
  {| populations := populations d ++ [{| name := nm; initial_size := size |}];
     events := events d;
     migration_matrix := migration_matrix d |}.

Definition add_event (e : Event) (d : Demography) : Demography :=
  {| populations := populations d;
     events := events d ++ [e];
     migration_matrix := migration_matrix d |}.

Definition with_events (evs : list Event) (d : Demography) : Demography :=
  {| populations := populations d;
     events := evs;
     migration_matrix := migration_matrix d |}.

Definition with_populations (ps : list Population) (d : Demography)
  : Demography :=
  {| populations := ps;
     events := events d;
     migration_matrix := migration_matrix d |}.

(** The position of the population called [nm]. *)
Fixpoint index_from (i : nat) (ps : list Population) (nm : string)
  : Py.result nat :=
  match ps with
  | [] => Py.raise (Py.KeyError nm)
  | p :: ps' =>
      if String.eqb (name p) nm then Py.ret i else index_from (S i) ps' nm
  end.

Definition population_id (d : Demography) (nm : string) : Py.result nat :=
  index_from 0 (populations d) nm.

(** [migration_matrix[i, j] = rate] *)
Definition set_matrix (i j : nat) (rate : Q) (d : Demography) : Demography :=
  {| populations := populations d;
     events := events d;
     migration_matrix := <[(i, j) := rate]> (migration_matrix d) |}.

Definition set_migration_rate (source dest : string) (rate : Q)
    (d : Demography) : Py.result Demography :=
  i <- population_id d source ;;
  j <- population_id d dest ;;
  Py.ret (set_matrix i j rate d).

Definition set_symmetric_migration_rate (pops : string * string) (rate : Q)
    (d : Demography) : Py.result Demography :=
  i <- population_id d (fst pops) ;;
  j <- population_id d (snd pops) ;;
  Py.ret (set_matrix j i rate (set_matrix i j rate d)).

(** [list.sort(key=lambda e: e.time)] is stable: an event is inserted
    before the first event of the already sorted tail that is not
    earlier than it. *)
Fixpoint insert_event (e : Event) (l : list Event) : list Event :=
  match l with
  | [] => [e]
  | x :: l' =>
      if Float.leb (time e) (time x) then e :: x :: l'
      else x :: insert_event e l'
  end.

Definition sort_events (d : Demography) : Demography :=
  with_events (foldr insert_event [] (events d)) d.

(** Event times in non-decreasing order. *)
Fixpoint chronological (l : list Event) : bool :=
  match l with
  | [] => true
  | e :: l' =>
      match l' with
      | [] => true
      | x :: _ => Float.leb (time e) (time x) && chronological l'
      end
  end.

End Msprime.
Import Msprime.

(** ** ModelBuilder: enumeration of the collapsed topologies *)

Module Enumerate.

(** The state of the loop of [_remove_conflicting]: the kept combos and
    the function-local [child_nodes], unbound until the inner loop has
    run once. *)
Record rc_state : Type :=
  { keep_combos : list (list tree);
    child_nodes : option (list tree) }.

(** The inner [for node in combo]: each iteration overwrites
    [child_nodes]. *)
Definition rc_inner (combo : list tree) (cn : option (list tree))
  : option (list tree) :=
  fold_left
    (fun _ node =>
       Some (filter (fun child => child ∉ combo)
                    (postorder_internal_node_iter node)))
    combo cn.

(** One iteration of [for combo in all_combos]; the test on
    [child_nodes] stands after the inner loop. *)
Definition rc_step (st : rc_state) (combo : list tree) : Py.result rc_state :=
  match rc_inner combo (child_nodes st) with
  | None => Py.raise (Py.UnboundLocalError "child_nodes")
  | Some cn =>
      Py.ret {| keep_combos :=
                  if Nat.eqb (length cn) 0
                  then keep_combos st ++ [combo]
                  else keep_combos st;
                child_nodes := Some cn |}
  end.

Definition _remove_conflicting (all_combos : list (list tree))
  : Py.result (list (list tree)) :=
  st <- Py.for_ all_combos rc_step
          {| keep_combos := []; child_nodes := None |} ;;
  Py.ret (keep_combos st).

(** The first lines of [_create_divergence_demographies]: the value of
    [all_combos] over which the demographies are then built. *)
Definition collapse_combos (species_tree : tree) : Py.result (list (list tree)) :=
  let collapsable_nodes := internal_nodes species_tree in
  let all_combos :=
    concat (map (fun r => Py.combinations collapsable_nodes r)
                (seq 1 (length collapsable_nodes))) in
  all_combos <- _remove_conflicting all_combos ;;
  Py.ret (all_combos ++ [[]]).

(** The part of the configuration the builder reads. *)
Record Config : Type :=
  { species_tree : tree;
    migration_df : list (string * list (string * string));
    symmetric : bool;
    secondary_contact : bool;
    divergence_with_gene_flow : bool;
    max_migration_events : Z;
    replicates : nat;
    migration_rate : Q * Q }.

Definition pop_size_holder : Q := 1000.
Definition div_time_holder : Q := 1000.
Definition migtimeholder : Q := 100.
Definition migrateholder : Q := 1 # 1000.

Definition _get_derived_populations (internal_node : tree)
  : Py.result (string * string) :=
  match internal_node with
  | Node _ _ _ c1 c2 => Py.ret (label_of c1, label_of c2)
  | Leaf _ _ => Py.raise (Py.ValueError "not enough values to unpack")
  end.

(** The demography built for one combo. *)
Definition divergence_demography (species_tree : tree) (combo : list tree)
  : Py.result Demography :=
  demography <-
    Py.for_ (postorder_internal_node_iter species_tree)
      (fun demography internal_node =>
         if bool_decide (internal_node ∉ combo) then
           d <- _get_derived_populations internal_node ;;
           Py.ret (add_population (snd d) pop_size_holder
                     (add_population (fst d) pop_size_holder demography))
         else Py.ret demography)
      Msprime.new ;;
  let demography :=
    add_population (label_of species_tree) pop_size_holder demography in
  Py.for_ (postorder_internal_node_iter species_tree)
    (fun demography internal_node =>
       if bool_decide (internal_node ∉ combo) then
         d <- _get_derived_populations internal_node ;;
         Py.ret (add_event
                   (PopulationSplit (Float.Fin div_time_holder) d
                      (label_of internal_node))
                   demography)
       else Py.ret demography)
    demography.

Definition _create_divergence_demographies (config : Config)
  : Py.result (list Demography) :=
  all_combos <- collapse_combos (species_tree config) ;;
  Py.for_ all_combos
    (fun demographies combo =>
       demography <- divergence_demography (species_tree config) combo ;;
       Py.ret (demographies ++ [demography]))
    [].

(** *** Migration candidates *)

(** The two loops over [item.events] for one population of the pair. *)
Definition sc_population (item : Demography) (include : bool)
    (population : string) : Py.result bool :=
  include <-
    Py.for_ (events item)
      (fun include event =>
         derived <- get_derived event ;;
         Py.ret (if Py.in_pair population derived
                    && Float.nonzero (time event)
                 then true else include))
      include ;;
  Py.for_ (events item)
    (fun include event =>
       ancestral <- get_ancestral event ;;
       Py.ret (if String.eqb population ancestral
                  && Float.nonzero (time event)
               then false else include))
    include.

Definition _find_sc_to_include (config : Config) (item : Demography)
  : Py.result (list (string * string)) :=
  Py.for_ (migration_df config)
    (fun to_include index_row =>
       let index := fst index_row in
       Py.for_ (snd index_row)
         (fun to_include cell =>
            let colname := fst cell in
            let value := snd cell in
            include <-
              (if negb (String.eqb index colname) && String.eqb value "T"
               then
                 i0 <- sc_population item false index ;;
                 i1 <- sc_population item false colname ;;
                 Py.ret (i0, i1)
               else Py.ret (false, false)) ;;
            Py.ret (if fst include && snd include
                    then to_include ++ [(index, colname)]
                    else to_include))
         to_include)
    [].

Definition _find_dwg_to_include (config : Config) (item : Demography)
  : Py.result (list (string * string)) :=
  Py.for_ (migration_df config)
    (fun to_include index_row =>
       let index := fst index_row in
       Py.for_ (snd index_row)
         (fun to_include cell =>
            let colname := fst cell in
            let value := snd cell in
            include <-
              (if negb (String.eqb index colname) && String.eqb value "T"
               then
                 Py.for_ (events item)
                   (fun include event =>
                      derived <- get_derived event ;;
                      Py.ret (if Py.in_pair index derived
                                 && Py.in_pair colname derived
                                 && Float.nonzero (time event)
                              then true else include))
                   false
               else Py.ret false) ;;
            Py.ret (if include : bool
                    then to_include ++ [(index, colname)]
                    else to_include))
         to_include)
    [].

(** The state of the loop over the divergence demographies:
    [to_include] is a local of the function and is assigned only under
    [if self.config['symmetric']]. *)
Record mig_state : Type :=
  { migration_demographies : list Demography;
    to_include : option (list (string * string)) }.

(** [chain.from_iterable(combinations(to_include, r) for r in
    range(1, min(max_events, len(to_include)) + 1))] *)
Definition combos_of_migration (config : Config)
    (to_include : list (string * string)) : list (list (string * string)) :=
  concat (map (fun r => Py.combinations to_include r)
            (seq 1 (Z.to_nat
                      (Z.min (max_migration_events config)
                         (Z.of_nat (length to_include)))))).

(** The body of [for populationpair in combo] of the secondary contact
    builder. *)
Definition sc_add_pair (config : Config) (d : Demography)
    (populationpair : string * string) : Py.result Demography :=
  if symmetric config then
    d <- set_symmetric_migration_rate populationpair migrateholder d ;;
    Py.ret (add_event
              (SymmetricMigrationRateChange (Float.Fin migtimeholder)
                 populationpair 0) d)
  else
    d <- set_migration_rate (fst populationpair) (snd populationpair)
           migrateholder d ;;
    Py.ret (add_event
              (MigrationRateChange (Float.Fin migtimeholder)
                 (fst populationpair) (snd populationpair) 0) d).

(** The same for divergence with gene flow. *)
Definition dwg_add_pair (config : Config) (d : Demography)
    (populationpair : string * string) : Py.result Demography :=
  if symmetric config then
    Py.ret (add_event
              (SymmetricMigrationRateChange (Float.Fin migtimeholder)
                 populationpair migrateholder) d)
  else
    Py.ret (add_event
              (MigrationRateChange (Float.Fin migtimeholder)
                 (fst populationpair) (snd populationpair) migrateholder) d).

(** Shared shape of [_create_sc_demographies] and
    [_create_dwg_demographies], which differ in the candidate search
    and in the events added per pair. *)
Definition create_migration_demographies (config : Config)
    (find : Config -> Demography -> Py.result (list (string * string)))
    (add_pair : Config -> Demography -> string * string -> Py.result Demography)
    (divergence_demographies : list Demography)
  : Py.result (list Demography) :=
  st <-
    Py.for_ divergence_demographies
      (fun st item =>
         found <- find config item ;;
         let to_include_base := Py.sorted_set found in
         let to_include :=
           if symmetric config
           then Some (Py.sorted_set (map Py.sorted_pair to_include_base))
           else to_include st in
         match to_include with
         | None => Py.raise (Py.UnboundLocalError "to_include")
         | Some pairs =>
             demographies <-
               Py.for_ (combos_of_migration config pairs)
                 (fun demographies combo =>
                    migration_demography <-
                      Py.for_ combo (add_pair config) item ;;
                    Py.ret (demographies
                              ++ [sort_events migration_demography]))
                 (migration_demographies st) ;;
             Py.ret {| migration_demographies := demographies;
                       to_include := to_include |}
         end)
      {| migration_demographies := []; to_include := None |} ;;
  Py.ret (migration_demographies st).

Definition _create_sc_demographies (config : Config)
  : list Demography -> Py.result (list Demography) :=
  create_migration_demographies config _find_sc_to_include sc_add_pair.

Definition _create_dwg_demographies (config : Config)
  : list Demography -> Py.result (list Demography) :=
  create_migration_demographies config _find_dwg_to_include dwg_add_pair.

(** The three lists [build_models] stores on the builder. *)
Record Models : Type :=
  { divergence_demographies : list Demography;
    sc_demographies : list Demography;
    dwg_demographies : list Demography }.

Definition build_models (config : Config) : Py.result Models :=
  divs <- _create_divergence_demographies config ;;
  sc <- (if secondary_contact config
         then _create_sc_demographies config divs else Py.ret []) ;;
  dwg <- (if divergence_with_gene_flow config
          then _create_dwg_demographies config divs else Py.ret []) ;;
  Py.ret {| divergence_demographies := divs;
            sc_demographies := sc;
            dwg_demographies := dwg |}.

End Enumerate.

(** ** Priors read from the species tree *)

Module Priors.

(** [_get_priors]: population sizes for every node, divergence times
    for the internal ones.  The annotations are taken as parsed. *)
Definition _get_priors (species_tree : tree)
  : gmap string (Z * Z) * gmap string (Z * Z) :=
  fold_left
    (fun acc node =>
       match node with
       | Leaf taxon ne => (<[taxon := ne]> (fst acc), snd acc)
       | Node label ne div _ _ =>
           (<[label := ne]> (fst acc), <[label := div]> (snd acc))
       end)
    (postorder_node_iter species_tree)
    (∅, ∅).

End Priors.

(** ** numpy: rounding *)

Module Numpy.

(** [np.round(q, 0)] as an integer: to the nearest, ties to even. *)
Definition round_half_even (q : Q) : Z :=
  let f := Qfloor q in
  match (q - inject_Z f ?= 1 # 2)%Q with
  | Lt => f
  | Gt => f + 1
  | Eq => if Z.even f then f else f + 1
  end.

(** [np.round(q, decimals)] *)
Definition round (decimals : nat) (q : Q) : Q :=
  let s := inject_Z (10 ^ Z.of_nat decimals) in
  (inject_Z (round_half_even (q * s)) / s)%Q.

(** [np.ceil(q)] *)
Definition ceil (q : Q) : Q := inject_Z (Qceiling q).

End Numpy.

(** ** ModelBuilder: drawing the parameters *)

Module Sampler.

Import Enumerate.

Section WithGenerator.

(** The generator [np.random.default_rng(seed)]: its state, and the
    value [rng.uniform(low, high)] returns for [low <= high] together
    with the state it leaves. *)
Variable rng : Type.
Variable random_uniform : Q -> Q -> rng -> Q * rng.

(** A computation that draws from the generator and may raise. *)
Definition M (A : Type) : Type := rng -> Py.result (A * rng).

Definition mret {A} (a : A) : M A := fun g => inr (a, g).
Definition mbind {A B} (c : M A) (k : A -> M B) : M B :=
  fun g =>
    match c g with
    | inl e => inl e
    | inr (a, g') => k a g'
    end.
Definition lift {A} (r : Py.result A) : M A :=
  fun g =>
    match r with
    | inl e => inl e
    | inr a => inr (a, g)
    end.

Local Notation "x <~ c ;; k" := (mbind c (fun x => k))
  (at level 100, c at next level, right associativity).

Fixpoint mfor {A S} (l : list A) (body : S -> A -> M S) (s : S) : M S :=
  match l with
  | [] => mret s
  | x :: l' => s' <~ body s x ;; mfor l' body s'
  end.

Fixpoint mmap {A B} (f : A -> M B) (l : list A) : M (list B) :=
  match l with
  | [] => mret []
  | x :: l' => y <~ f x ;; ys <~ mmap f l' ;; mret (y :: ys)
  end.

(** [rng.uniform(low=low, high=high)]: the generator rejects
    [high < low]. *)
Definition uniform (low high : Q) : M Q :=
  fun g =>
    if Qle_bool low high then inr (random_uniform low high g)
    else inl (Py.ValueError "high - low < 0").

(** [rng.uniform(low=low, high=high, size=size)] *)
Definition uniform_size (low high : Q) (size : nat) : M (list Q) :=
  fun g =>
    if Qle_bool low high
    then mmap (fun _ => uniform low high) (seq 0 size) g
    else inl (Py.ValueError "high - low < 0").

Definition _draw_population_sizes (config : Config) (model : Demography)
    (population_sizes : gmap string (Z * Z))
  : M (gmap string (list Q) * gmap string nat) :=
  mfor (imap (fun index population => (index, population))
          (populations model))
    (fun st ip =>
       let population := snd ip in
       prior <~ lift (Py.getitem population_sizes (name population)) ;;
       draws <~ uniform_size (inject_Z (fst prior)) (inject_Z (snd prior))
                  (replicates config) ;;
       mret (<[name population := map (Numpy.round 0) draws]> (fst st),
             <[name population := fst ip]> (snd st)))
    (∅, ∅).

(** [np.repeat(0, replicates)] *)
Definition zeros (config : Config) : list Q := repeat 0%Q (replicates config).

(** The names [x.ancestral] of the events that have one. *)
Definition ancestral_names (evs : list Event) : list string :=
  omap (fun e => match e with
                 | PopulationSplit _ _ a => Some a
                 | _ => None
                 end) evs.

(** [[max(x) for x in zip(d1, d2, np.repeat(low, replicates))]] *)
Definition min_values (config : Config) (d1 d2 : list Q) (low : Q)
  : list Q :=
  map (fun x => Qmax (Qmax (fst (fst x)) (snd (fst x))) (snd x))
    (zip (zip d1 d2) (repeat low (replicates config))).

(** One iteration of [for event in model.events] of
    [_draw_divergence_times]. *)
Definition draw_divergence_event (config : Config)
    (divergence_times : gmap string (Z * Z))
    (divergence_time_draws : gmap string (list Q)) (event : Event)
  : M (gmap string (list Q)) :=
  match event with
  | PopulationSplit t derived ancestral =>
      if Float.nonzero t then
        d1 <~ lift (Py.getitem divergence_time_draws (fst derived)) ;;
        d2 <~ lift (Py.getitem divergence_time_draws (snd derived)) ;;
        prior <~ lift (Py.getitem divergence_times ancestral) ;;
        draws <~ mmap (fun x => u <~ uniform x (inject_Z (snd prior)) ;;
                                mret (Numpy.round 0 u))
                   (min_values config d1 d2 (inject_Z (fst prior))) ;;
        mret (<[ancestral := draws]> divergence_time_draws)
      else
        mret (<[ancestral := zeros config]> divergence_time_draws)
  | _ => mret divergence_time_draws
  end.

Definition _draw_divergence_times (config : Config)
    (population_size_draws : gmap string (list Q)) (model : Demography)
    (divergence_times : gmap string (Z * Z))
  : M (gmap string (list Q)) :=
  let ancestral := ancestral_names (events model) in
  (* zero for the populations that are never ancestors *)
  let non_ancestral : gmap string (list Q) :=
    (fun _ => zeros config)
      <$> filter (fun kv => fst kv ∉ ancestral) population_size_draws in
  mfor (events model) (draw_divergence_event config divergence_times)
    non_ancestral.

(** The two populations of a rate change: [event.populations] under
    symmetric migration, [event.source, event.dest] otherwise. *)
Definition migration_pair (config : Config) (event : Event)
  : Py.result (string * string) :=
  if symmetric config then get_populations event
  else (s <- get_source event ;; d <- get_dest event ;; Py.ret (s, d)).

(** The key ["%s_%s" % (keys[p], keys[q])], kept as the pair of
    indices it is made of and split back into. *)
Definition migration_key (population_size_keys : gmap string nat)
    (pq : string * string) : Py.result (nat * nat) :=
  i <- Py.getitem population_size_keys (fst pq) ;;
  j <- Py.getitem population_size_keys (snd pq) ;;
  Py.ret (i, j).

Definition _draw_migration_rates (config : Config)
    (population_size_keys : gmap string nat) (model : Demography)
  : M (gmap (nat * nat) (list Q)) :=
  mfor (events model)
    (fun migration_rate_draws event =>
       if has_rate event then
         draws <~ uniform_size (fst (migration_rate config))
                    (snd (migration_rate config)) (replicates config) ;;
         pq <~ lift (migration_pair config event) ;;
         key <~ lift (migration_key population_size_keys pq) ;;
         mret (<[key := map (Numpy.round 10) draws]> migration_rate_draws)
       else mret migration_rate_draws)
    ∅.

(** The inner loop of [_get_migration_stops] for one replicate: the
    least positive entry, [np.inf] when there is none. *)
Definition minimum_divergence (divergence_time_draws : gmap string (list Q))
    (rep : nat) : Py.result Float.t :=
  Py.for_ (map_to_list divergence_time_draws)
    (fun min kv =>
       v <- Py.index (snd kv) rep ;;
       Py.ret (if Float.ltb (Float.Fin 0) (Float.Fin v)
                  && Float.ltb (Float.Fin v) min
               then Float.Fin v else min))
    Float.Inf.

(** [np.ceil(x / 2)] *)
Definition half_ceil (x : Float.t) : Float.t :=
  match x with
  | Float.Fin q => Float.Fin (Numpy.ceil (q / 2))
  | Float.Inf => Float.Inf
  end.

Definition _get_migration_stops (config : Config)
    (divergence_time_draws : gmap string (list Q))
  : Py.result (list Float.t) :=
  minimum_divergence <-
    Py.map_ (minimum_divergence divergence_time_draws)
      (seq 0 (replicates config)) ;;
  Py.ret (map half_ceil minimum_divergence).

(** The state of the loops of [_get_migration_starts]: the dict being
    filled and the local [ancestor], which keeps its last value. *)
Record starts_state : Type :=
  { migration_start : gmap (nat * nat) (list Q);
    ancestor : option string }.

(** [for divevent in model.events]: the last split that has both
    daughters among its derived populations sets [ancestor]. *)
Definition find_ancestor (model : Demography) (daughter1 daughter2 : string)
    (ancestor : option string) : option string :=
  fold_left
    (fun ancestor divevent =>
       match divevent with
       | PopulationSplit _ derived anc =>
           if Py.in_pair daughter1 derived && Py.in_pair daughter2 derived
           then Some anc else ancestor
       | _ => ancestor
       end)
    (events model) ancestor.

Definition startime (tdiv_ancestor tdiv_daughter1 tdiv_daughter2 : Q) : Q :=
  ((tdiv_ancestor - Qmax tdiv_daughter1 tdiv_daughter2) / 2
   + Qmax tdiv_daughter1 tdiv_daughter2)%Q.

(** [divergence_time_draws[name][rep]] *)
Definition draw_at (draws : gmap string (list Q)) (nm : string) (rep : nat)
  : Py.result Q :=
  l <- Py.getitem draws nm ;;
  Py.index l rep.

Definition migration_start_event (config : Config) (model : Demography)
    (divergence_time_draws : gmap string (list Q))
    (population_size_keys : gmap string nat) (rep : nat)
    (st : starts_state) (event : Event) : Py.result starts_state :=
  if has_rate event then
    pq <- migration_pair config event ;;
    match find_ancestor model (fst pq) (snd pq) (ancestor st) with
    | None => Py.raise (Py.UnboundLocalError "ancestor")
    | Some anc =>
        tdiv_ancestor <- draw_at divergence_time_draws anc rep ;;
        tdiv_daughter1 <- draw_at divergence_time_draws (fst pq) rep ;;
        tdiv_daughter2 <- draw_at divergence_time_draws (snd pq) rep ;;
        key <- migration_key population_size_keys pq ;;
        Py.ret
          {| migration_start :=
               <[key := default [] (migration_start st !! key)
                        ++ [startime tdiv_ancestor tdiv_daughter1
                              tdiv_daughter2]]>
                 (migration_start st);
             ancestor := Some anc |}
    end
  else Py.ret st.

Definition _get_migration_starts (config : Config) (model : Demography)
    (divergence_time_draws : gmap string (list Q))
    (population_size_keys : gmap string nat)
  : Py.result (gmap (nat * nat) (list Q)) :=
  st <-
    Py.for_ (seq 0 (replicates config))
      (fun st rep =>
         Py.for_ (events model)
           (migration_start_event config model divergence_time_draws
              population_size_keys rep)
           st)
      {| migration_start := ∅; ancestor := None |} ;;
  Py.ret (migration_start st).

(** [for population in model.populations:
       population.initial_size = population_size_draws[population.name][rep]] *)
Definition assign_sizes (population_size_draws : gmap string (list Q))
    (rep : nat) (model : Demography) : Py.result Demography :=
  pops <-
    Py.map_
      (fun population =>
         v <- draw_at population_size_draws (name population) rep ;;
         Py.ret {| name := name population; initial_size := v |})
      (populations model) ;;
  Py.ret (with_populations pops model).

(** The loop over [model.events] of [_draw_parameters_divergence]. *)
Definition assign_event_divergence (divergence_time_draws : gmap string (list Q))
    (rep : nat) (event : Event) : Py.result Event :=
  match event with
  | PopulationSplit _ _ ancestral =>
      v <- draw_at divergence_time_draws ancestral rep ;;
      Py.ret (set_time (Float.Fin v) event)
  | _ => Py.ret event
  end.

(** The loop over [model.events] of [_draw_parameters_sc]. *)
Definition assign_event_sc (divergence_time_draws : gmap string (list Q))
    (migration_stop : list Float.t) (rep : nat) (event : Event)
  : Py.result Event :=
  match event with
  | PopulationSplit _ _ ancestral =>
      v <- draw_at divergence_time_draws ancestral rep ;;
      Py.ret (set_time (Float.Fin v) event)
  | _ =>
      stop <- Py.index migration_stop rep ;;
      Py.ret (set_time stop event)
  end.

(** The loop over [model.events] of [_draw_parameters_dwg]. *)
Definition assign_event_dwg (config : Config)
    (divergence_time_draws : gmap string (list Q))
    (population_size_keys : gmap string nat)
    (migration_start migration_rate_draws : gmap (nat * nat) (list Q))
    (rep : nat) (event : Event) : Py.result Event :=
  match event with
  | PopulationSplit _ _ ancestral =>
      v <- draw_at divergence_time_draws ancestral rep ;;
      Py.ret (set_time (Float.Fin v) event)
  | _ =>
      pq <- migration_pair config event ;;
      key <- migration_key population_size_keys pq ;;
      starts <- Py.getitem2 migration_start key ;;
      start <- Py.index starts rep ;;
      rates <- Py.getitem2 migration_rate_draws key ;;
      rate <- Py.index rates rep ;;
      Py.ret (set_rate rate (set_time (Float.Fin start) event))
  end.

(** [for key in migration_rate_draws.keys()] of [_draw_parameters_sc]. *)
Definition assign_matrix (config : Config)
    (migration_rate_draws : gmap (nat * nat) (list Q)) (rep : nat)
    (model : Demography) : Py.result Demography :=
  Py.for_ (map_to_list migration_rate_draws)
    (fun model kv =>
       rate <- Py.index (snd kv) rep ;;
       let model := set_matrix (fst (fst kv)) (snd (fst kv)) rate model in
       Py.ret (if symmetric config
               then set_matrix (snd (fst kv)) (fst (fst kv)) rate model
               else model))
    model.

(** The body of [for original_model in self.divergence_demographies]. *)
Definition parameterize_divergence (config : Config)
    (population_sizes divergence_times : gmap string (Z * Z))
    (original_model : Demography) : M (list Demography) :=
  sk <~ _draw_population_sizes config original_model population_sizes ;;
  divergence_time_draws <~
    _draw_divergence_times config (fst sk) original_model divergence_times ;;
  lift
    (Py.map_
       (fun rep =>
          model <- assign_sizes (fst sk) rep original_model ;;
          evs <- Py.map_ (assign_event_divergence divergence_time_draws rep)
                   (events model) ;;
          Py.ret (with_events evs model))
       (seq 0 (replicates config))).

(** The body of [for original_model in self.sc_demographies]. *)
Definition parameterize_sc (config : Config)
    (population_sizes divergence_times : gmap string (Z * Z))
    (original_model : Demography) : M (list Demography) :=
  sk <~ _draw_population_sizes config original_model population_sizes ;;
  divergence_time_draws <~
    _draw_divergence_times config (fst sk) original_model divergence_times ;;
  migration_rate_draws <~
    _draw_migration_rates config (snd sk) original_model ;;
  migration_stop <~ lift (_get_migration_stops config divergence_time_draws) ;;
  lift
    (Py.map_
       (fun rep =>
          model <- assign_sizes (fst sk) rep original_model ;;
          evs <- Py.map_
                   (assign_event_sc divergence_time_draws migration_stop rep)
                   (events model) ;;
          assign_matrix config migration_rate_draws rep (with_events evs model))
       (seq 0 (replicates config))).

(** The body of [for original_model in self.dwg_demographies]. *)
Definition parameterize_dwg (config : Config)
    (population_sizes divergence_times : gmap string (Z * Z))
    (original_model : Demography) : M (list Demography) :=
  sk <~ _draw_population_sizes config original_model population_sizes ;;
  divergence_time_draws <~
    _draw_divergence_times config (fst sk) original_model divergence_times ;;
  migration_rate_draws <~
    _draw_migration_rates config (snd sk) original_model ;;
  migration_start <~
    lift (_get_migration_starts config original_model divergence_time_draws
            (snd sk)) ;;
  lift
    (Py.map_
       (fun rep =>
          model <- assign_sizes (fst sk) rep original_model ;;
          evs <- Py.map_
                   (assign_event_dwg config divergence_time_draws (snd sk)
                      migration_start migration_rate_draws rep)
                   (events model) ;;
          Py.ret (sort_events (with_events evs model)))
       (seq 0 (replicates config))).

Definition _draw_parameters_divergence (config : Config)
    (divergence_times population_sizes : gmap string (Z * Z))
    (models : Models) : M (list (list Demography)) :=
  mmap (parameterize_divergence config population_sizes divergence_times)
    (divergence_demographies models).

Definition _draw_parameters_sc (config : Config)
    (divergence_times population_sizes : gmap string (Z * Z))
    (models : Models) : M (list (list Demography)) :=
  mmap (parameterize_sc config population_sizes divergence_times)
    (sc_demographies models).

Definition _draw_parameters_dwg (config : Config)
    (divergence_times population_sizes : gmap string (Z * Z))
    (models : Models) : M (list (list Demography)) :=
  mmap (parameterize_dwg config population_sizes divergence_times)
    (dwg_demographies models).

(** [draw_parameters]: the flattened list of parameterized models and
    the label of each replicate. *)
Definition draw_parameters (config : Config) (models : Models)
  : M (list (list Demography) * list (list nat)) :=
  let priors := Priors._get_priors (species_tree config) in
  let population_sizes := fst priors in
  let divergence_times := snd priors in
  div <~ _draw_parameters_divergence config divergence_times population_sizes
           models ;;
  sc <~ _draw_parameters_sc config divergence_times population_sizes models ;;
  dwg <~ _draw_parameters_dwg config divergence_times population_sizes models ;;
  let full_model_list := div ++ sc ++ dwg in
  mret (full_model_list,
        imap (fun val sublist => repeat val (length sublist)) full_model_list).

End WithGenerator.

Arguments mret {rng A} a g.
Arguments mbind {rng A B} c k g.
Arguments lift {rng A} r g.
Arguments mfor {rng A S} l body s g.
Arguments mmap {rng A B} f l g.

(** A generator for worked examples: a script of values, each handed
    out clamped into the requested interval; [low] once the script is
    used up. *)
Definition scripted (low high : Q) (g : list Q) : Q * list Q :=
  match g with
  | [] => (low, [])
  | v :: g' => (Qmax low (Qmin high v), g')
  end.

End Sampler.

Notation "x <~ c ;; k" := (Sampler.mbind c (fun x => k))
  (at level 100, c at next level, right associativity).

(** ** The persisted schema *)

Module Yaml.

Record population : Type :=
  { name : string;
    size : string }.

Record divergence : Type :=
  { derived : string * string;
    ancestral : string;
    time : string }.

#[global] Instance divergence_eq_dec : EqDecision divergence.
Proof. solve_decision. Defined.

(** A YAML scalar that is a number or a string. *)
Inductive scalar : Type :=
| Int (z : Z)
| Str (s : string).

(** [end_time] is a key only the secondary contact writer sets. *)
Record migration : Type :=
  { type : string;
    source : string;
    dest : string;
    rate : string;
    start_time : scalar;
    end_time : option string }.

(** [yaml_dict]; [migration] and [relations] are keys only the
    migration writers set. *)
Record dict : Type :=
  { description : string;
    populations : list population;
    priors : gmap string (Q * Q);
    divergences : list divergence;
    migrations : option (list migration);
    relations : option (gmap string string) }.

Definition empty : dict :=
  {| description := EmptyString; populations := []; priors := ∅;
     divergences := [];
     migrations := None; relations := None |}.

End Yaml.

(** ** ModelWriter *)

Module Writer.

Import Enumerate.

Local Infix "+++" := String.append (at level 60, right associativity).

(** [enumerate(self.<category>_demographies)] yields [(index, replicates)];
    the writer reads [model[1][0]]. *)
Definition first_replicate (model : nat * list Demography)
  : Py.result Demography :=
  Py.index (snd model) 0.

Definition range_of (prior : Z * Z) : Q * Q :=
  (inject_Z (fst prior), inject_Z (snd prior)).

Definition _get_description (model : nat * list Demography)
    (yaml_dict : Yaml.dict) (type : string) (start : nat)
  : Py.result Yaml.dict :=
  m <- first_replicate model ;;
  let npops_present := ((length (Msprime.populations m) + 1) / 2)%nat in
  Py.ret
    {| Yaml.description :=
         "Model " +++ pretty (fst model + start)%nat +++ ": " +++ type
         +++ " with " +++ pretty npops_present +++ " populations.";
       Yaml.populations := Yaml.populations yaml_dict;
       Yaml.priors := Yaml.priors yaml_dict;
       Yaml.divergences := Yaml.divergences yaml_dict;
       Yaml.migrations := Yaml.migrations yaml_dict;
       Yaml.relations := Yaml.relations yaml_dict |}.

Definition _get_popinfo (model : nat * list Demography)
    (yaml_dict : Yaml.dict) (population_sizes : gmap string (Z * Z))
  : Py.result Yaml.dict :=
  m <- first_replicate model ;;
  acc <-
    Py.for_ (Msprime.populations m)
      (fun acc population =>
         prior <- Py.getitem population_sizes (Msprime.name population) ;;
         Py.ret
           (fst acc
              ++ [{| Yaml.name := Msprime.name population;
                     Yaml.size := "Ne_" +++ Msprime.name population |}],
            <["Ne_" +++ Msprime.name population := range_of prior]> (snd acc)))
      ([], ∅) ;;
  Py.ret
    {| Yaml.description := Yaml.description yaml_dict;
       Yaml.populations := fst acc;
       Yaml.priors := snd acc;
       Yaml.divergences := Yaml.divergences yaml_dict;
       Yaml.migrations := Yaml.migrations yaml_dict;
       Yaml.relations := Yaml.relations yaml_dict |}.

Definition _get_divinfo (model : nat * list Demography)
    (yaml_dict : Yaml.dict) (divergence_times : gmap string (Z * Z))
  : Py.result Yaml.dict :=
  m <- first_replicate model ;;
  acc <-
    Py.for_ (Msprime.events m)
      (fun acc event =>
         match event with
         | PopulationSplit _ derived ancestral =>
             prior <- Py.getitem divergence_times ancestral ;;
             Py.ret
               (fst acc
                  ++ [{| Yaml.derived := derived;
                         Yaml.ancestral := ancestral;
                         Yaml.time := "Tdiv_" +++ ancestral |}],
                <["Tdiv_" +++ ancestral := range_of prior]> (snd acc))
         | _ => Py.ret acc
         end)
      ([], Yaml.priors yaml_dict) ;;
  Py.ret
    {| Yaml.description := Yaml.description yaml_dict;
       Yaml.populations := Yaml.populations yaml_dict;
       Yaml.priors := snd acc;
       Yaml.divergences := fst acc;
       Yaml.migrations := Yaml.migrations yaml_dict;
       Yaml.relations := Yaml.relations yaml_dict |}.

(** The type written for a rate change and its two populations. *)
Definition typed_pair (event : Event) : string * (string * string) :=
  match event with
  | SymmetricMigrationRateChange _ pops _ => ("symmetric", pops)
  | MigrationRateChange _ src dst _ => ("asymmetric", (src, dst))
  | PopulationSplit _ _ _ => (EmptyString, (EmptyString, EmptyString))
  end.

(** What the migration loops accumulate. *)
Record mig_acc : Type :=
  { migration : list Yaml.migration;
    relations : gmap string string;
    priors : gmap string (Q * Q);
    ancestraldiv : option string }.

Definition with_migration (yaml_dict : Yaml.dict) (acc : mig_acc) : Yaml.dict :=
  {| Yaml.description := Yaml.description yaml_dict;
     Yaml.populations := Yaml.populations yaml_dict;
     Yaml.priors := priors acc;
     Yaml.divergences := Yaml.divergences yaml_dict;
     Yaml.migrations := Some (migration acc);
     Yaml.relations := Some (relations acc) |}.

(** ['min(' + ','.join(time_values) + ')/2'] over the [time] entries of
    the divergences written so far. *)
Definition sc_relation (yaml_dict : Yaml.dict) : string :=
  "min(" +++ String.concat "," (map Yaml.time (Yaml.divergences yaml_dict))
  +++ ")/2".

(** One iteration of the loop of [_get_scinfo] over the events. *)
Definition scinfo_step (config : Config) (yaml_dict : Yaml.dict)
    (acc : mig_acc) (event : Event) : mig_acc :=
  if has_rate event then
    let pop0 := fst (snd (typed_pair event)) in
    let pop1 := snd (snd (typed_pair event)) in
    {| migration :=
         migration acc
         ++ [{| Yaml.type := fst (typed_pair event);
                Yaml.source := pop0;
                Yaml.dest := pop1;
                Yaml.rate := "Mig_" +++ pop0 +++ "_" +++ pop1;
                Yaml.start_time := Yaml.Int 0;
                Yaml.end_time :=
                  Some ("Tmigend_" +++ pop0 +++ "_" +++ pop1) |}];
       relations :=
         <["Tmigend_" +++ pop0 +++ "_" +++ pop1
           := sc_relation yaml_dict]> (relations acc);
       priors :=
         <["Mig_" +++ pop0 +++ "_" +++ pop1 := migration_rate config]>
           (priors acc);
       ancestraldiv := ancestraldiv acc |}
  else acc.

Definition _get_scinfo (config : Config) (model : nat * list Demography)
    (yaml_dict : Yaml.dict) : Py.result Yaml.dict :=
  m <- first_replicate model ;;
  Py.ret
    (with_migration yaml_dict
       (fold_left (scinfo_step config yaml_dict) (Msprime.events m)
          {| migration := []; relations := ∅;
             priors := Yaml.priors yaml_dict; ancestraldiv := None |})).

(** The inner loop of [_get_dwginfo]: [ancestraldiv], [pop0div] and
    [pop1div] after it.  The two latter start at [0] (here [None]). *)
Definition dwg_divs (m : Demography) (pop0 pop1 : string)
    (ancestraldiv : option string)
  : option string * (option string * option string) :=
  fold_left
    (fun st event =>
       match event with
       | PopulationSplit _ derived ancestral =>
           (if Py.in_pair pop0 derived && Py.in_pair pop1 derived
            then Some ancestral else fst st,
            (if String.eqb ancestral pop0
             then Some ancestral else fst (snd st),
             if String.eqb ancestral pop1
             then Some ancestral else snd (snd st)))
       | _ => st
       end)
    (Msprime.events m) (ancestraldiv, (None, None)).

(** The expression written for the start of gene flow. *)
Definition dwg_relation (ancestraldiv : string)
    (pop0div pop1div : option string) : string :=
  match pop0div, pop1div with
  | Some p0, Some p1 =>
      "(Tdiv_" +++ ancestraldiv +++ " - min(Tdiv_" +++ p0 +++ ", Tdiv_" +++ p1
      +++ "))/2 + min(Tdiv_" +++ p0 +++ ", Tdiv_" +++ p1 +++ ")"
  | Some p0, None =>
      "(Tdiv_" +++ ancestraldiv +++ " - Tdiv_" +++ p0 +++ ")/2 + Tdiv_" +++ p0
  | None, Some p1 =>
      "(Tdiv_" +++ ancestraldiv +++ " - Tdiv_" +++ p1 +++ ")/2 + Tdiv_" +++ p1
  | None, None => "Tdiv_" +++ ancestraldiv +++ "/2"
  end.

Definition _get_dwginfo (config : Config) (model : nat * list Demography)
    (yaml_dict : Yaml.dict) : Py.result Yaml.dict :=
  m <- first_replicate model ;;
  acc <-
    Py.for_ (Msprime.events m)
      (fun acc event =>
         if has_rate event then
           let pop0 := fst (snd (typed_pair event)) in
           let pop1 := snd (snd (typed_pair event)) in
           let divs := dwg_divs m pop0 pop1 (ancestraldiv acc) in
           match fst divs with
           | None => Py.raise (Py.UnboundLocalError "ancestraldiv")
           | Some anc =>
               Py.ret
                 {| migration :=
                      migration acc
                      ++ [{| Yaml.type := fst (typed_pair event);
                             Yaml.source := pop0;
                             Yaml.dest := pop1;
                             Yaml.rate := "Mig_" +++ pop0 +++ "_" +++ pop1;
                             Yaml.start_time :=
                               Yaml.Str ("Tmigstart_" +++ pop0 +++ "_" +++ pop1);
                             Yaml.end_time := None |}];
                    relations :=
                      <["Tmigstart_" +++ pop0 +++ "_" +++ pop1
                        := dwg_relation anc (fst (snd divs)) (snd (snd divs))]>
                        (relations acc);
                    priors :=
                      <["Mig_" +++ pop0 +++ "_" +++ pop1 := migration_rate config]>
                        (priors acc);
                    ancestraldiv := Some anc |}
           end
         else Py.ret acc)
      {| migration := []; relations := ∅;
         priors := Yaml.priors yaml_dict; ancestraldiv := None |} ;;
  Py.ret (with_migration yaml_dict acc).

(** The dict dumped by [_divergence_to_yaml] for one model. *)
Definition divergence_yaml (config : Config) (model : nat * list Demography)
  : Py.result Yaml.dict :=
  let priors := Priors._get_priors (species_tree config) in
  y <- _get_description model Yaml.empty "Divergence" 0 ;;
  y <- _get_popinfo model y (fst priors) ;;
  _get_divinfo model y (snd priors).

(** The dict dumped by [_sc_to_yaml] for one model. *)
Definition sc_yaml (config : Config) (start : nat)
    (model : nat * list Demography) : Py.result Yaml.dict :=
  let priors := Priors._get_priors (species_tree config) in
  y <- _get_description model Yaml.empty "Secondary Contact" start ;;
  y <- _get_popinfo model y (fst priors) ;;
  y <- _get_divinfo model y (snd priors) ;;
  _get_scinfo config model y.

(** The dict dumped by [_dwg_to_yaml] for one model. *)
Definition dwg_yaml (config : Config) (start : nat)
    (model : nat * list Demography) : Py.result Yaml.dict :=
  let priors := Priors._get_priors (species_tree config) in
  y <- _get_description model Yaml.empty "Divergence with gene flow" start ;;
  y <- _get_popinfo model y (fst priors) ;;
  y <- _get_divinfo model y (snd priors) ;;
  _get_dwginfo config model y.

Definition enumerate {A} (l : list A) : list (nat * A) :=
  imap (fun i x => (i, x)) l.

(** [write_to_yaml]: the dict written to [Model_<i>.yaml], for every
    [i], in the order the files are written. *)
Definition write_to_yaml (config : Config)
    (divergence_demographies sc_demographies dwg_demographies
       : list (list Demography))
  : Py.result (list (nat * Yaml.dict)) :=
  d <- Py.map_ (fun model => y <- divergence_yaml config model ;;
                             Py.ret (fst model, y))
         (enumerate divergence_demographies) ;;
  let start := length divergence_demographies in
  s <- Py.map_ (fun model => y <- sc_yaml config start model ;;
                             Py.ret ((fst model + start)%nat, y))
         (enumerate sc_demographies) ;;
  let start := (length divergence_demographies + length sc_demographies)%nat in
  g <- Py.map_ (fun model => y <- dwg_yaml config start model ;;
                             Py.ret ((fst model + start)%nat, y))
         (enumerate dwg_demographies) ;;
  Py.ret (d ++ s ++ g).

End Writer.

(** ** ModelReader *)

Module Reader.

Import Sampler.

Local Infix "+++" := String.append (at level 60, right associativity).

Section WithGenerator.

Variable rng : Type.
Variable random_uniform : Q -> Q -> rng -> Q * rng.

(** [self.replicates] *)
Variable replicates : nat.

(** The locals of [read_yaml] at the end of the body of its loop over
    the files.  [min_values] and [mintimes] are unbound until first
    assigned. *)
Record locals : Type :=
  { population_size_draws : gmap string (list Q);
    divergence_dependencies : gmap string (option string);
    divergence_list_ordered : list Yaml.divergence;
    divergence_time_draws : gmap string (list Q);
    min_values : option (list Q);
    migration_rates : gmap string (list Q);
    migration_times : gmap string (list Q);
    mintimes : option (list string) }.

Definition draw_sizes (yaml_info : Yaml.dict) : M rng (gmap string (list Q)) :=
  mfor (Yaml.populations yaml_info)
    (fun population_size_draws population =>
       sizeprior <~ lift (Py.getitem (Yaml.priors yaml_info)
                            (Yaml.size population)) ;;
       draws <~ uniform_size rng random_uniform (fst sizeprior)
                  (snd sizeprior) replicates ;;
       mret (<[Yaml.name population := map (Numpy.round 0) draws]>
               population_size_draws))
    ∅.

(** "find dependencies between divergence times": the inner loop
    overwrites the entry, so the last divergence of the list whose
    ancestral population is one of the derived ones is the one kept. *)
Definition find_dependencies (divergences : list Yaml.divergence)
  : gmap string (option string) :=
  fold_left
    (fun deps divergence =>
       fold_left
         (fun deps divergence2 =>
            if Py.in_pair (Yaml.ancestral divergence2)
                 (Yaml.derived divergence)
            then <[Yaml.ancestral divergence
                   := Some (Yaml.ancestral divergence2)]> deps
            else deps)
         divergences
         (<[Yaml.ancestral divergence := None]> deps))
    divergences ∅.

(** One run of the [for] inside the [while] that orders the
    divergences; the state is [(divergence_list_ordered, added)]. *)
Definition order_pass (deps : gmap string (option string))
    (divergences : list Yaml.divergence)
    (st : list Yaml.divergence * list string)
  : Py.result (list Yaml.divergence * list string) :=
  Py.for_ divergences
    (fun st divergence =>
       let anc := Yaml.ancestral divergence in
       dep <- Py.getitem deps anc ;;
       let ready :=
         match dep with
         | None => true
         | Some d => bool_decide (d ∈ snd st)
         end in
       Py.ret (if ready && bool_decide (anc ∉ snd st)
               then (fst st ++ [divergence], snd st ++ [anc])
               else st))
    st.

(** [while len(divergence_list_ordered) < len(divergences)]; [None]
    when the loop is still running after [fuel] passes. *)
Fixpoint order_loop (fuel : nat) (deps : gmap string (option string))
    (divergences : list Yaml.divergence)
    (st : list Yaml.divergence * list string)
  : option (Py.result (list Yaml.divergence * list string)) :=
  if (length (fst st) <? length divergences)%nat then
    match fuel with
    | O => None
    | S fuel' =>
        match order_pass deps divergences st with
        | inl e => Some (inl e)
        | inr st' => order_loop fuel' deps divergences st'
        end
    end
  else Some (inr st).

(** The order in which the reader samples the divergence times. *)
Definition order_divergences (fuel : nat) (divergences : list Yaml.divergence)
  : option (Py.result (list Yaml.divergence)) :=
  match order_loop fuel (find_dependencies divergences) divergences ([], []) with
  | None => None
  | Some (inl e) => Some (inl e)
  | Some (inr st) => Some (inr (fst st))
  end.

(** [[max(x) for x in zip(d, np.repeat(low, replicates))]] *)
Definition min_values2 (d : list Q) (low : Q) : list Q :=
  map (fun x => Qmax (fst x) (snd x)) (zip d (repeat low replicates)).

Definition min_values3 (d1 d2 : list Q) (low : Q) : list Q :=
  map (fun x => Qmax (Qmax (fst (fst x)) (snd (fst x))) (snd x))
    (zip (zip d1 d2) (repeat low replicates)).

(** One iteration of "draw divergence times from priors"; the state is
    [(divergence_time_draws, min_values)]. *)
Definition draw_divergence (yaml_info : Yaml.dict)
    (deps : gmap string (option string))
    (st : gmap string (list Q) * option (list Q))
    (divergence : Yaml.divergence)
  : M rng (gmap string (list Q) * option (list Q)) :=
  let anc := Yaml.ancestral divergence in
  divprior <~ lift (Py.getitem (Yaml.priors yaml_info) ("Tdiv_" +++ anc)) ;;
  dep <~ lift (Py.getitem deps anc) ;;
  match dep with
  | None =>
      draws <~ uniform_size rng random_uniform (fst divprior) (snd divprior)
                 replicates ;;
      mret (<[anc := map (Numpy.round 0) draws]> (fst st), snd st)
  | Some _ =>
      let min_values :=
        match fst st !! fst (Yaml.derived divergence),
              fst st !! snd (Yaml.derived divergence) with
        | Some d0, Some d1 => Some (min_values3 d0 d1 (fst divprior))
        | Some d0, None => Some (min_values2 d0 (fst divprior))
        | None, Some d1 => Some (min_values2 d1 (fst divprior))
        | None, None => snd st
        end in
      match min_values with
      | None => lift (Py.raise (Py.UnboundLocalError "min_values"))
      | Some mv =>
          draws <~ mmap (fun x =>
                           u <~ uniform rng random_uniform x (snd divprior) ;;
                           mret (Numpy.round 0 u))
                     mv ;;
          mret (<[anc := draws]> (fst st), Some mv)
      end
  end.

(** One iteration of [for migration in yaml_info['migration']]; the
    state is [(migration_rates, mintimes)].  Nothing is stored in
    [migration_times]. *)
Definition read_migration (yaml_info : Yaml.dict)
    (st : gmap string (list Q) * option (list string))
    (migration : Yaml.migration)
  : M rng (gmap string (list Q) * option (list string)) :=
  migprior <~ lift (Py.getitem (Yaml.priors yaml_info) (Yaml.rate migration)) ;;
  draws <~ uniform_size rng random_uniform (fst migprior) (snd migprior)
             replicates ;;
  let migration_rates :=
    <[Yaml.rate migration := map (Numpy.round 10) draws]> (fst st) in
  match Yaml.end_time migration with
  | Some _ =>
      lift
        (relations <- match Yaml.relations yaml_info with
                      | Some r => Py.ret r
                      | None => Py.raise (Py.KeyError "relations")
                      end ;;
         endtime <- Py.getitem relations
                      ("Tmigend_" +++ Yaml.source migration +++ "_"
                       +++ Yaml.dest migration) ;;
         piece <- Py.index (Py.split "("%char endtime) 1 ;;
         piece <- Py.index (Py.split ")"%char piece) 0 ;;
         Py.ret (migration_rates, Some (Py.split ","%char piece)))
  | None => mret (migration_rates, snd st)
  end.

(** The body of [for i in enumerate(yaml_files)] for one parsed file.
    [carried] holds the values [min_values] and [mintimes] have when the
    body starts. *)
Definition read_yaml_file (fuel : nat) (yaml_info : Yaml.dict)
    (carried : option (list Q) * option (list string))
  : rng -> option (Py.result (locals * rng)) :=
  fun g =>
    match draw_sizes yaml_info g with
    | inl e => Some (inl e)
    | inr (sizes, g) =>
        let deps := find_dependencies (Yaml.divergences yaml_info) in
        match order_divergences fuel (Yaml.divergences yaml_info) with
        | None => None
        | Some (inl e) => Some (inl e)
        | Some (inr ordered) =>
            Some
              ((dt <~ mfor ordered (draw_divergence yaml_info deps)
                        (∅, fst carried) ;;
                mg <~ match Yaml.migrations yaml_info with
                      | Some migrations =>
                          mfor migrations (read_migration yaml_info)
                            (∅, snd carried)
                      | None => mret (∅, snd carried)
                      end ;;
                mret {| population_size_draws := sizes;
                        divergence_dependencies := deps;
                        divergence_list_ordered := ordered;
                        divergence_time_draws := fst dt;
                        min_values := snd dt;
                        migration_rates := fst mg;
                        migration_times := ∅;
                        mintimes := snd mg |}) g)
        end
    end.

(** [read_yaml] over the parsed files of the directory.  The method has
    no [return]: its value is [None], here [tt]. *)
Fixpoint read_yaml_from (fuel : nat) (yaml_files : list Yaml.dict)
    (carried : option (list Q) * option (list string))
  : rng -> option (Py.result (unit * rng)) :=
  fun g =>
    match yaml_files with
    | [] => Some (inr (tt, g))
    | yaml_info :: rest =>
        match read_yaml_file fuel yaml_info carried g with
        | None => None
        | Some (inl e) => Some (inl e)
        | Some (inr (l, g')) =>
            read_yaml_from fuel rest (min_values l, mintimes l) g'
        end
    end.

Definition read_yaml (fuel : nat) (yaml_files : list Yaml.dict)
  : rng -> option (Py.result (unit * rng)) :=
  read_yaml_from fuel yaml_files (None, None).

End WithGenerator.

End Reader.

(** ** Example trees *)

Module Trees.

Definition ne0 : Z * Z := (1000, 10000).

Definition div0 : Z * Z := (100, 2000).

(** [(((A,B)Y,C)Z,(D,E)X)R] *)
Definition tY : tree := Node "Y" ne0 div0 (Leaf "A" ne0) (Leaf "B" ne0).
Definition tZ : tree := Node "Z" ne0 div0 tY (Leaf "C" ne0).
Definition tX : tree := Node "X" ne0 div0 (Leaf "D" ne0) (Leaf "E" ne0).
Definition tR : tree := Node "R" ne0 div0 tZ tX.

(** [((A,B)X,C)R], the three-leaf tree of the scenario. *)
Definition sX : tree := Node "X" ne0 (100, 500) (Leaf "A" ne0) (Leaf "B" ne0).
Definition sR : tree := Node "R" ne0 (500, 1000) sX (Leaf "C" ne0).

(** Migration allowed between A and B, in both directions. *)
Definition df_AB : list (string * list (string * string)) :=
  [("A", [("A", "F"); ("B", "T"); ("C", "F")]);
   ("B", [("A", "T"); ("B", "F"); ("C", "F")]);
   ("C", [("A", "F"); ("B", "F"); ("C", "F")])].

Definition scenario (sym : bool) : Enumerate.Config :=
  {| Enumerate.species_tree := sR;
     Enumerate.migration_df := df_AB;
     Enumerate.symmetric := sym;
     Enumerate.secondary_contact := true;
     Enumerate.divergence_with_gene_flow := false;
     Enumerate.max_migration_events := 1;
     Enumerate.replicates := 2;
     Enumerate.migration_rate := (1 # 100000, 1 # 10000) |}.

End Trees.

(** ** Worked examples *)

Module Examples.

Import Enumerate.

Definition or_new (r : Py.result Demography) : Demography :=
  match r with
  | inr d => d
  | inl _ => Msprime.new
  end.

(** The replicate of index [i] of a run of one of the three
    parameterizations. *)
Definition replicate_of {G} (run : Py.result (list Demography * G)) (i : nat)
  : option Demography :=
  match run with
  | inr (replicates_, _) => replicates_ !! i
  | inl _ => None
  end.

(** A script of integers for the scripted generator. *)
Definition script (l : list Z) : list Q := map inject_Z l.

(** *** The three-leaf scenario [((A,B)X,C)R] *)

Definition resolved_sR : Demography :=
  or_new (divergence_demography Trees.sR []).

(** The secondary contact model of the scenario under symmetric
    migration: the resolved topology with migration between A and B. *)
Definition sc_sR : Demography :=
  match _create_sc_demographies (Trees.scenario true) [resolved_sR] with
  | inr [d] => d
  | _ => Msprime.new
  end.

Definition priors_sR := Priors._get_priors Trees.sR.

(** Sizes for five populations and two replicates, then the times of X
    and of R, then the migration rates. *)
Definition script_sR : list Q :=
  script [2000; 2000; 2000; 2000; 2000; 2000; 2000; 2000; 2000; 2000;
          300; 400; 800; 900].

Definition sc_run : Py.result (list Demography * list Q) :=
  Sampler.parameterize_sc (list Q) Sampler.scripted (Trees.scenario true)
    (fst priors_sR) (snd priors_sR) sc_sR script_sR.

Definition sizes_sR : gmap string (list Q) :=
  match Sampler._draw_population_sizes (list Q) Sampler.scripted
          (Trees.scenario true) resolved_sR (fst priors_sR) script_sR with
  | inr (sk, _) => fst sk
  | inl _ => ∅
  end.

Definition times_run : Py.result (gmap string (list Q) * list Q) :=
  Sampler._draw_divergence_times (list Q) Sampler.scripted
    (Trees.scenario true) sizes_sR resolved_sR (snd priors_sR)
    (script [300; 400; 800; 900]).

(** *** The balanced tree [((A,B)X,(C,D)Y)R] *)

Definition bX : tree :=
  Node "X" Trees.ne0 Trees.div0 (Leaf "A" Trees.ne0) (Leaf "B" Trees.ne0).
Definition bY : tree :=
  Node "Y" Trees.ne0 Trees.div0 (Leaf "C" Trees.ne0) (Leaf "D" Trees.ne0).
Definition bR : tree := Node "R" Trees.ne0 Trees.div0 bX bY.

(** Migration allowed between the sister lineages X and Y. *)
Definition df_XY : list (string * list (string * string)) :=
  [("X", [("X", "F"); ("Y", "T")]);
   ("Y", [("X", "T"); ("Y", "F")])].

Definition balanced : Config :=
  {| species_tree := bR;
     migration_df := df_XY;
     symmetric := true;
     secondary_contact := false;
     divergence_with_gene_flow := true;
     max_migration_events := 1;
     replicates := 1;
     migration_rate := (1 # 100000, 1 # 10000) |}.

Definition priors_bR := Priors._get_priors bR.

Definition resolved_bR : Demography :=
  or_new (divergence_demography bR []).

(** The gene flow model: the resolved topology with migration between
    X and Y. *)
Definition dwg_bR : Demography :=
  match _create_dwg_demographies balanced [resolved_bR] with
  | inr [d] => d
  | _ => Msprime.new
  end.

(** Sizes for seven populations, then X = 500, Y = 300, R = 800. *)
Definition script_bR : list Q :=
  script [2000; 2000; 2000; 2000; 2000; 2000; 2000; 500; 300; 800].

Definition div_run : Py.result (list Demography * list Q) :=
  Sampler.parameterize_divergence (list Q) Sampler.scripted balanced
    (fst priors_bR) (snd priors_bR) resolved_bR script_bR.

Definition dwg_run : Py.result (list Demography * list Q) :=
  Sampler.parameterize_dwg (list Q) Sampler.scripted balanced
    (fst priors_bR) (snd priors_bR) dwg_bR script_bR.

(** The schema written for the gene flow model. *)
Definition dwg_schema : Py.result Yaml.dict :=
  match dwg_run with
  | inr (replicates_, _) => Writer.dwg_yaml balanced 0 (0%nat, replicates_)
  | inl e => inl e
  end.

(** *** The tree [(((A,B)Y,C)Z,(D,E)X)R] *)

Definition ladder : Config :=
  {| species_tree := Trees.tR;
     migration_df := [];
     symmetric := true;
     secondary_contact := false;
     divergence_with_gene_flow := false;
     max_migration_events := 1;
     replicates := 1;
     migration_rate := (1 # 100000, 1 # 10000) |}.

Definition priors_tR := Priors._get_priors Trees.tR.

Definition resolved_tR : Demography :=
  or_new (divergence_demography Trees.tR []).

(** Sizes for nine populations, then Y = 300, Z = 900, X = 200,
    R = 1500. *)
Definition ladder_run : Py.result (list Demography * list Q) :=
  Sampler.parameterize_divergence (list Q) Sampler.scripted ladder
    (fst priors_tR) (snd priors_tR) resolved_tR
    (script [2000; 2000; 2000; 2000; 2000; 2000; 2000; 2000; 2000;
             300; 900; 200; 1500]).

(** The schema written for the resolved topology. *)
Definition ladder_schema : Yaml.dict :=
  match ladder_run with
  | inr (replicates_, _) =>
      match Writer.divergence_yaml ladder (0%nat, replicates_) with
      | inr y => y
      | inl _ => Yaml.empty
      end
  | inl _ => Yaml.empty
  end.

Definition entry (d1 d2 a : string) : Yaml.divergence :=
  {| Yaml.derived := (d1, d2);
     Yaml.ancestral := a;
     Yaml.time := String.append "Tdiv_" a |}.

(** The same schema with its divergences listed root first. *)
Definition ladder_schema_root_first : Yaml.dict :=
  {| Yaml.description := Yaml.description ladder_schema;
     Yaml.populations := Yaml.populations ladder_schema;
     Yaml.priors := Yaml.priors ladder_schema;
     Yaml.divergences :=
       [entry "Z" "X" "R"; entry "Y" "C" "Z"; entry "A" "B" "Y";
        entry "D" "E" "X"];
     Yaml.migrations := Yaml.migrations ladder_schema;
     Yaml.relations := Yaml.relations ladder_schema |}.

(** Reading it back: sizes for nine populations, then, in the order of
    the reader, Y = 300, X = 200, R = 250, Z = 900. *)
Definition ladder_read : option (Py.result (Reader.locals * list Q)) :=
  Reader.read_yaml_file (list Q) Sampler.scripted 1 10
    ladder_schema_root_first (None, None)
    (script [2000; 2000; 2000; 2000; 2000; 2000; 2000; 2000; 2000;
             300; 200; 250; 900]).

(** *** Writing and reading the scenario *)

(** The schema written for the secondary contact model. *)
Definition sc_schema : Yaml.dict :=
  match sc_run with
  | inr (replicates_, _) =>
      match Writer.sc_yaml (Trees.scenario true) 3 (0%nat, replicates_) with
      | inr y => y
      | inl _ => Yaml.empty
      end
  | inl _ => Yaml.empty
  end.

Definition sc_read : option (Py.result (Reader.locals * list Q)) :=
  Reader.read_yaml_file (list Q) Sampler.scripted 2 10 sc_schema (None, None)
    script_sR.

End Examples.

(** ** The predicates of the statements *)

Module Spec.

Import Enumerate Sampler.

(** The collapse invariant in the words of the specification: every
    chosen node has all of its internal descendants in the chosen set. *)
Definition contiguity_valid (combo : list tree) : Prop :=
  forall node, node ∈ combo ->
  forall d, d ∈ postorder_internal_node_iter node -> d ∈ combo.

(** The entry of the migration matrix for the ordered pair [(p, q)] is
    ["T"] and the two names differ. *)
Definition marked (config : Config) (p q : string) : Prop :=
  p ≠ q /\ exists row, (p, row) ∈ migration_df config /\ (q, "T") ∈ row.

(** What the test of [_remove_conflicting] looks at: the internal nodes
    below the last node of the combo. *)
Definition last_node_closed (combo : list tree) : bool :=
  match last combo with
  | Some node =>
      forallb (fun child => bool_decide (child ∈ combo))
        (postorder_internal_node_iter node)
  | None => false
  end.

(** The combos handed to [_remove_conflicting]. *)
Definition candidate_combos (species_tree : tree) : list (list tree) :=
  concat (map (fun r => Py.combinations (internal_nodes species_tree) r)
            (seq 1 (length (internal_nodes species_tree)))).

(** The number is an integer. *)
Definition integral (q : Q) : Prop := exists z : Z, (q == inject_Z z)%Q.

(** Every entry of the dict has one integral value per replicate. *)
Definition well_formed (config : Config) (draws : gmap string (list Q)) : Prop :=
  forall k l,
    draws !! k = Some l ->
    length l = replicates config /\ Forall integral l.

(** In every replicate the time drawn for [ancestral] is not below the
    times of the two derived populations and not above the upper bound
    of its prior. *)
Definition respects (config : Config) (divergence_times : gmap string (Z * Z))
    (draws : gmap string (list Q)) (derived : string * string)
    (ancestral : string) : Prop :=
  exists la l1 l2 lo hi,
    draws !! ancestral = Some la /\
    draws !! fst derived = Some l1 /\
    draws !! snd derived = Some l2 /\
    divergence_times !! ancestral = Some (lo, hi) /\
    forall rep, (rep < replicates config)%nat ->
      exists va v1 v2,
        la !! rep = Some va /\ l1 !! rep = Some v1 /\ l2 !! rep = Some v2 /\
        (v1 <= va)%Q /\ (v2 <= va)%Q /\ (va <= inject_Z hi)%Q.

(** No entry of the dict is negative. *)
Definition nonnegative (draws : gmap string (list Q)) : Prop :=
  forall k l, draws !! k = Some l -> Forall (fun v => (0 <= v)%Q) l.

(** The times of the splits of a replicate. *)
Definition divergence_time_in (r : Demography) (v : Q) : Prop :=
  exists d a, PopulationSplit (Float.Fin v) d a ∈ events r.

(** [m] is the least non-zero divergence time of the replicate. *)
Definition min_nonzero_divergence (r : Demography) (m : Q) : Prop :=
  (exists v, divergence_time_in r v /\ ~ (v == 0)%Q /\ (v == m)%Q) /\
  (forall v, divergence_time_in r v -> ~ (v == 0)%Q -> (m <= v)%Q).

(** The pairs of populations of the rate changes of a model. *)
Definition migration_pairs (config : Config) (evs : list Event)
  : list (string * string) :=
  omap (fun e =>
          if has_rate e then
            match migration_pair config e with
            | inr pq => Some pq
            | inl _ => None
            end
          else None) evs.

(** [s] is the midpoint formula for the pair [pq] in replicate [rep]:
    some split has both populations among its derived ones, and [s] is
    computed from the draws of its ancestral population and of the two
    populations. *)
Definition start_of (model : Demography) (draws : gmap string (list Q))
    (pq : string * string) (rep : nat) (s : Q) : Prop :=
  exists t d anc ta t1 t2,
    PopulationSplit t d anc ∈ events model /\
    Py.in_pair (fst pq) d = true /\ Py.in_pair (snd pq) d = true /\
    draw_at draws anc rep = inr ta /\
    draw_at draws (fst pq) rep = inr t1 /\
    draw_at draws (snd pq) rep = inr t2 /\
    s = startime ta t1 t2.

(** Two names never share an index. *)
Definition keys_injective (keys : gmap string nat) : Prop :=
  forall n1 n2 i, keys !! n1 = Some i -> keys !! n2 = Some i -> n1 = n2.

(** The state of the dict when the events [done_] of replicate [n] have
    been treated: a complete list for the replicates before [n], and one
    more entry for the pairs already met in replicate [n]. *)
Definition filled (config : Config) (model : Demography)
    (draws : gmap string (list Q)) (keys : gmap string nat)
    (ms : gmap (nat * nat) (list Q)) (done_ : list Event) (n : nat) : Prop :=
  forall pq key,
    pq ∈ migration_pairs config (events model) ->
    migration_key keys pq = inr key ->
    let l := default [] (ms !! key) in
    (forall i s, (i <= n)%nat -> l !! i = Some s -> start_of model draws pq i s) /\
    (pq ∈ migration_pairs config done_ -> length l = S n) /\
    (pq ∉ migration_pairs config done_ -> length l = n).

(** The divergence time of a population in a replicate: the time of the
    split it is the ancestral population of, zero when there is none. *)
Definition divergence_time (r : Demography) (x : string) (t : Q) : Prop :=
  (exists d, PopulationSplit (Float.Fin t) d x ∈ events r) \/
  ((forall t' d, PopulationSplit t' d x ∉ events r) /\ t = 0%Q).

(** The midpoint formula of the sampler, written over the keys of the
    schema: anchored at the later of the two daughters. *)
Definition midpoint_rendering (anc d1 d2 : string) : string :=
  String.concat EmptyString
    ["(Tdiv_"; anc; " - max(Tdiv_"; d1; ", Tdiv_"; d2; "))/2 + max(Tdiv_";
     d1; ", Tdiv_"; d2; ")"].

(** The relation stored for a key of the schema. *)
Definition relation_of (schema : Py.result Yaml.dict) (key : string)
  : option string :=
  match schema with
  | inr y =>
      match Yaml.relations y with
      | Some relations => relations !! key
      | None => None
      end
  | inl _ => None
  end.

(** The value of a run of [read_yaml]. *)
Definition returned {G} (run : option (Py.result (unit * G)))
  : option (Py.result unit) :=
  match run with
  | Some (inr (v, _)) => Some (inr v)
  | Some (inl e) => Some (inl e)
  | None => None
  end.

(** The divergence times the reader holds for a population. *)
Definition read_time (run : option (Py.result (Reader.locals * list Q)))
    (population : string) : option (list Q) :=
  match run with
  | Some (inr (l, _)) => Reader.divergence_time_draws l !! population
  | _ => None
  end.

(** The order in which the reader samples the divergences of a list. *)
Definition reader_order (fuel : nat) (divergences : list Yaml.divergence)
  : option (Py.result (list string)) :=
  match Reader.order_divergences fuel divergences with
  | Some (inr ordered) => Some (inr (map Yaml.ancestral ordered))
  | Some (inl e) => Some (inl e)
  | None => None
  end.

(** The dict a run of [_draw_divergence_times] returns. *)
Definition draws_of {G} (run : Py.result (gmap string (list Q) * G))
  : gmap string (list Q) :=
  match run with
  | inr (draws, _) => draws
  | inl _ => ∅
  end.

(** The replicates a run of a parameterization returns. *)
Definition replicates_of {G} (run : Py.result (list Demography * G))
  : list Demography :=
  match run with
  | inr (replicates_, _) => replicates_
  | inl _ => []
  end.

(** Its first replicate. *)
Definition replicate0 {G} (run : Py.result (list Demography * G)) : Demography :=
  default Msprime.new (replicates_of run !! 0%nat).

(** The divergences are listed in dependency order: no ancestral name is
    listed twice, and a derived population that is the ancestral
    population of a divergence of the list has that divergence earlier
    in the list. *)
Definition dependency_ordered (divergences : list Yaml.divergence) : Prop :=
  NoDup (map Yaml.ancestral divergences) /\
  forall before d after,
    divergences = before ++ d :: after ->
    forall x,
      Py.in_pair x (Yaml.derived d) = true ->
      x ∈ map Yaml.ancestral divergences ->
      x ∈ map Yaml.ancestral before.

(** The split the builder adds for an internal node. *)
Definition split_of (node : tree) : Event :=
  match node with
  | Node label _ _ c1 c2 =>
      PopulationSplit (Float.Fin div_time_holder) (label_of c1, label_of c2) label
  | Leaf taxon _ =>
      PopulationSplit (Float.Fin div_time_holder) (taxon, taxon) taxon
  end.

(** A model the sampler's invariant is stated for: the ancestral names
    of its splits are pairwise distinct and no placeholder time is
    zero. *)
Definition sampleable (d : Demography) : Prop :=
  NoDup (ancestral_names (events d)) /\
  (forall e, e ∈ events d -> Float.nonzero (time e) = true).

(** Strictly increasing in the order of tuples. *)
Definition increasing (l : list (string * string)) : Prop :=
  StronglySorted (fun a b => Py.pair_compare a b = Lt) l.

(** A topology without migration: none of its events has a rate. *)
Definition divergence_only (d : Demography) : Prop :=
  forall e, e ∈ events d -> has_rate e = false.

(** The two populations are derived in one split of the list. *)
Definition sisters (evs : list Event) (pq : string * string) : Prop :=
  exists t d anc,
    PopulationSplit t d anc ∈ evs /\
    Py.in_pair (fst pq) d = true /\ Py.in_pair (snd pq) d = true.

(** A gene flow model as the builder makes it: no two migration events
    for the same pair, and the populations of every pair are derived in
    one split. *)
Definition gene_flow_model (config : Config) (d : Demography) : Prop :=
  NoDup (migration_pairs config (events d)) /\
  forall pq, pq ∈ migration_pairs config (events d) -> sisters (events d) pq.

End Spec.

(** ** What the generator does, as predicates *)

Module Behaviour.

Import Enumerate Sampler Spec.

Local Infix "+++" := String.append (at level 60, right associativity).

(** The names [_get_derived_populations] gives for a node, as a list. *)
Definition derived_names (node : tree) : list string :=
  match node with
  | Node _ _ _ c1 c2 => [label_of c1; label_of c2]
  | Leaf _ _ => []
  end.

(** The internal nodes a combo leaves in place, children first. *)
Definition uncollapsed (species_tree : tree) (combo : list tree) : list tree :=
  filter (fun n => n ∉ combo) (postorder_internal_node_iter species_tree).

(** A population at the placeholder size. *)
Definition placeholder (nm : string) : Population :=
  {| name := nm; initial_size := pop_size_holder |}.

(** The population is derived in a split of non-zero time. *)
Definition derived_in (evs : list Event) (p : string) : Prop :=
  exists t d a,
    PopulationSplit t d a ∈ evs /\ Py.in_pair p d = true /\
    Float.nonzero t = true.

(** The population is the ancestral one of a split of non-zero time. *)
Definition ancestral_in (evs : list Event) (p : string) : Prop :=
  exists t d, PopulationSplit t d p ∈ evs /\ Float.nonzero t = true.

(** A population of the present: it is derived in a split and is the
    ancestral population of none. *)
Definition extant (evs : list Event) (p : string) : Prop :=
  derived_in evs p /\ ~ ancestral_in evs p.

(** The two populations are derived in one split of non-zero time. *)
Definition derived_together (evs : list Event) (p q : string) : Prop :=
  exists t d a,
    PopulationSplit t d a ∈ evs /\ Py.in_pair p d = true /\
    Py.in_pair q d = true /\ Float.nonzero t = true.

(** The migration event the builders add for a pair under symmetric
    migration, at the placeholder time 100. *)
Definition symmetric_change (rate : Q) (pq : string * string) : Event :=
  SymmetricMigrationRateChange (Float.Fin migtimeholder) pq rate.

(** A combination of migration events of a model: at least one pair and
    at most [max migration events], no pair twice, every pair the sorted
    form of a candidate of the topology. *)
Definition migration_combo (config : Config)
    (candidates : list (string * string)) (combo : list (string * string))
  : Prop :=
  combo ≠ [] /\
  (Z.of_nat (length combo) <= max_migration_events config)%Z /\
  NoDup combo /\
  forall pq, pq ∈ combo ->
    exists c, c ∈ candidates /\ pq = Py.sorted_pair c.

(** A migration model made from the topology [item]: the events of the
    combination, each at the placeholder time and rate, come before the
    splits of the topology, and the populations are those of the
    topology. *)
Definition migration_model (config : Config)
    (find : Config -> Demography -> Py.result (list (string * string)))
    (rate : Q) (divs : list Demography) (d : Demography) : Prop :=
  exists item candidates combo,
    item ∈ divs /\
    find config item = inr candidates /\
    migration_combo config candidates combo /\
    events d = map (symmetric_change rate) combo ++ events item /\
    populations d = populations item.

(** The [ne] annotation of a node. *)
Definition ne_of (n : tree) : Z * Z :=
  match n with
  | Leaf _ ne => ne
  | Node _ ne _ _ _ => ne
  end.

(** The [div] annotation of a node; only internal nodes are read for
    one. *)
Definition div_of (n : tree) : option (Z * Z) :=
  match n with
  | Leaf _ _ => None
  | Node _ _ div _ _ => Some div
  end.

(** A list of draws made for a range: one integer of the range per
    replicate. *)
Definition drawn_within (config : Config) (range : Z * Z) (l : list Q) : Prop :=
  length l = replicates config /\
  Forall (fun v => integral v /\
                   (inject_Z (fst range) <= v)%Q /\
                   (v <= inject_Z (snd range))%Q) l.

(** One non-negative integer per replicate. *)
Definition time_entry (config : Config) (l : list Q) : Prop :=
  length l = replicates config /\
  Forall (fun v => integral v /\ (0 <= v)%Q) l.

(** An entry of the dict of divergence times: one non-negative integer
    per replicate, and either zero throughout or within the prior range
    of its key. *)
Definition divergence_entry (config : Config)
    (divergence_times : gmap string (Z * Z)) (k : string) (l : list Q) : Prop :=
  length l = replicates config /\
  Forall (fun v => integral v /\ (0 <= v)%Q) l /\
  (l = zeros config \/
   exists range,
     divergence_times !! k = Some range /\
     Forall (fun v => (inject_Z (fst range) <= v)%Q /\
                      (v <= inject_Z (snd range))%Q) l).

(** The event [e'] is [e] with another time and, for a rate change,
    another rate: same kind, same populations. *)
Definition reparameterized (e e' : Event) : Prop :=
  exists t r, e' = set_rate r (set_time t e).

(** A replicate of a model: the populations of the model under the same
    names and in the same order, each with an integral size within its
    prior range, and the events of the model, each with its own time
    and rate, possibly in another order. *)
Definition replicate_of_model (population_sizes : gmap string (Z * Z))
    (model r : Demography) : Prop :=
  map name (populations r) = map name (populations model) /\
  (forall p, p ∈ populations r ->
     exists range,
       population_sizes !! name p = Some range /\
       integral (initial_size p) /\
       (inject_Z (fst range) <= initial_size p)%Q /\
       (initial_size p <= inject_Z (snd range))%Q) /\
  exists evs,
    Forall2 reparameterized (events model) evs /\ events r ≡ₚ evs.

(** The entry written for a population. *)
Definition population_item (p : Population) : Yaml.population :=
  {| Yaml.name := name p; Yaml.size := String.append "Ne_" (name p) |}.

(** The entry written for an event that is a split. *)
Definition divergence_item (e : Event) : option Yaml.divergence :=
  match e with
  | PopulationSplit _ d a =>
      Some {| Yaml.derived := d; Yaml.ancestral := a;
              Yaml.time := String.append "Tdiv_" a |}
  | _ => None
  end.

(** The dict [y] is the schema of the model whose first replicate is
    [m]: the populations and the splits of [m] in their order, every
    size key and every time key bound in [priors] to the range the
    species tree gives, and every migration entry with a prior for its
    rate and a relation for its time. *)
Definition schema_of (config : Config) (m : Demography) (y : Yaml.dict) : Prop :=
  Yaml.populations y = map population_item (populations m) /\
  Yaml.divergences y = omap divergence_item (events m) /\
  (forall p, p ∈ populations m ->
     exists prior,
       fst (Priors._get_priors (species_tree config)) !! name p = Some prior /\
       Yaml.priors y !! String.append "Ne_" (name p)
       = Some (Writer.range_of prior)) /\
  (forall t d a, PopulationSplit t d a ∈ events m ->
     exists prior,
       snd (Priors._get_priors (species_tree config)) !! a = Some prior /\
       Yaml.priors y !! String.append "Tdiv_" a
       = Some (Writer.range_of prior)) /\
  (forall mg, mg ∈ default [] (Yaml.migrations y) ->
     Yaml.priors y !! Yaml.rate mg = Some (migration_rate config) /\
     exists relations key,
       Yaml.relations y = Some relations /\ is_Some (relations !! key) /\
       (Yaml.end_time mg = Some key \/ Yaml.start_time mg = Yaml.Str key)).

(** The character does not occur in the string. *)
Fixpoint free_of (sep : ascii) (s : string) : bool :=
  match s with
  | EmptyString => true
  | String c s' => negb (Ascii.eqb c sep) && free_of sep s'
  end.

(** A key without the characters the reader splits a relation at. *)
Definition plain (s : string) : Prop :=
  free_of "(" s = true /\ free_of ")" s = true /\ free_of "," s = true.

(** The ranges of the tree as the sampler needs them: no [ne] range and
    no [div] range is empty, no [div] range ends below zero, and the
    [div] range of an internal node does not end below that of a
    child. *)
Definition ordered_priors (species_tree : tree) : Prop :=
  (forall node, node ∈ postorder_node_iter species_tree ->
     (fst (ne_of node) <= snd (ne_of node))%Z) /\
  (forall label ne div c1 c2,
     Node label ne div c1 c2 ∈ postorder_internal_node_iter species_tree ->
     (fst div <= snd div)%Z /\ (0 <= snd div)%Z /\
     forall c range,
       c = c1 \/ c = c2 -> div_of c = Some range -> (snd range <= snd div)%Z).

(** [c] is a child of [n] and an internal node. *)
Definition internal_child (c n : tree) : Prop :=
  (exists label ne div c1 c2, n = Node label ne div c1 c2 /\ (c = c1 \/ c = c2)) /\
  (exists label ne div c1 c2, c = Node label ne div c1 c2).

(** The entry written for the split of an internal node. *)
Definition node_item (n : tree) : Yaml.divergence :=
  match n with
  | Node label _ _ c1 c2 =>
      {| Yaml.derived := (label_of c1, label_of c2); Yaml.ancestral := label;
         Yaml.time := "Tdiv_" +++ label |}
  | Leaf taxon _ =>
      {| Yaml.derived := (taxon, taxon); Yaml.ancestral := taxon;
         Yaml.time := "Tdiv_" +++ taxon |}
  end.

(** What the migration writers keep and add: the priors written before
    stay, unless their key starts a rate key; every entry has a prior
    for its rate and a relation for its time. *)
Definition migration_written (config : Config) (old : gmap string (Q * Q))
    (acc : Writer.mig_acc) : Prop :=
  (forall k, (forall x, k ≠ "Mig_" +++ x) ->
             Writer.priors acc !! k = old !! k) /\
  (forall mg, mg ∈ Writer.migration acc ->
     Writer.priors acc !! Yaml.rate mg = Some (migration_rate config) /\
     exists key,
       is_Some (Writer.relations acc !! key) /\
       (Yaml.end_time mg = Some key \/ Yaml.start_time mg = Yaml.Str key)).

(** What a pass of the ordering loop keeps: the names added are
    pairwise distinct ancestral names of the list, one per divergence
    put in order. *)
Definition pass_state (divergences : list Yaml.divergence)
    (st : list Yaml.divergence * list string) : Prop :=
  NoDup (snd st) /\
  (forall x, x ∈ snd st -> x ∈ map Yaml.ancestral divergences) /\
  length (fst st) = length (snd st).

End Behaviour.

(** ** Runs of the three-leaf scenario *)

Module Runs.

Import Enumerate.

(** The models of the three-leaf scenario under symmetric migration. *)
Definition built_sR : Models :=
  match build_models (Trees.scenario true) with
  | inr models => models
  | inl _ =>
      {| divergence_demographies := []; sc_demographies := [];
         dwg_demographies := [] |}
  end.

(** Their parameters, drawn with a generator that always hands out the
    lower end of the interval. *)
Definition drawn_sR
  : Py.result ((list (list Demography) * list (list nat)) * list Q) :=
  Sampler.draw_parameters (list Q) Sampler.scripted (Trees.scenario true)
    built_sR [].

Definition models_of
    (run : Py.result ((list (list Demography) * list (list nat)) * list Q))
  : list (list Demography) :=
  match run with
  | inr (out, _) => fst out
  | inl _ => []
  end.

Definition labels_of
    (run : Py.result ((list (list Demography) * list (list nat)) * list Q))
  : list (list nat) :=
  match run with
  | inr (out, _) => snd out
  | inl _ => []
  end.

(** The replicates of the resolved topology of the scenario. *)
Definition div_sR_run : Py.result (list Demography * list Q) :=
  Sampler.parameterize_divergence (list Q) Sampler.scripted
    (Trees.scenario true) (fst Examples.priors_sR) (snd Examples.priors_sR)
    Examples.resolved_sR Examples.script_sR.

(** The schemas written for the resolved topology and for the secondary
    contact model of the scenario. *)
Definition written_sR : Py.result (list (nat * Yaml.dict)) :=
  Writer.write_to_yaml (Trees.scenario true)
    [Spec.replicates_of div_sR_run] [Spec.replicates_of Examples.sc_run] [].

Definition schemas_of (run : Py.result (list (nat * Yaml.dict)))
  : list (nat * Yaml.dict) :=
  match run with
  | inr out => out
  | inl _ => []
  end.

(** The dict handed to [_get_scinfo] for the secondary contact model. *)
Definition sc_base : Yaml.dict :=
  match
    (y <- Writer._get_description (0%nat, Spec.replicates_of Examples.sc_run)
            Yaml.empty "Secondary Contact" 3 ;;
     y <- Writer._get_popinfo (0%nat, Spec.replicates_of Examples.sc_run) y
            (fst Examples.priors_sR) ;;
     Writer._get_divinfo (0%nat, Spec.replicates_of Examples.sc_run) y
       (snd Examples.priors_sR))
  with
  | inr y => y
  | inl _ => Yaml.empty
  end.

(** The migration entry of the schema of the secondary contact model. *)
Definition migration_AB : Yaml.migration :=
  {| Yaml.type := "symmetric"; Yaml.source := "A"; Yaml.dest := "B";
     Yaml.rate := "Mig_A_B"; Yaml.start_time := Yaml.Int 0;
     Yaml.end_time := Some "Tmigend_A_B" |}.

(** Reading that entry. *)
Definition read_AB
  : Py.result ((gmap string (list Q) * option (list string)) * list Q) :=
  Reader.read_migration (list Q) Sampler.scripted 2 Examples.sc_schema
    (∅, None) migration_AB [].

Definition mintimes_of
    (run : Py.result ((gmap string (list Q) * option (list string)) * list Q))
  : option (list string) :=
  match run with
  | inr (st, _) => snd st
  | inl _ => None
  end.

(** Two divergences that name the same ancestral population. *)
Definition repeated : list Yaml.divergence :=
  [Examples.entry "A" "B" "X"; Examples.entry "C" "D" "X"].

(** The schema written for the replicates of the resolved topology. *)
Definition div_sR_schema : Yaml.dict :=
  match Writer.divergence_yaml (Trees.scenario true)
          (0%nat, Spec.replicates_of div_sR_run) with
  | inr y => y
  | inl _ => Yaml.empty
  end.

(** The dict [_get_description] returns for the secondary contact model
    of the scenario, written after three divergence models. *)
Definition sc_described : Yaml.dict :=
  match Writer._get_description (0%nat, Spec.replicates_of Examples.sc_run)
          Yaml.empty "Secondary Contact" 3 with
  | inr y => y
  | inl _ => Yaml.empty
  end.

End Runs.

(** * Properties *)

(** ** Loops that may raise *)

Section Loops.

Context {A S : Type}.

(** An invariant of the accumulator of a [for] loop holds when the loop
    ends normally. *)
Lemma for_invariant (P : S -> Prop) (body : S -> A -> Py.result S) :
  forall (l : list A) (s s' : S),
    P s ->
    (forall s x s', x ∈ l -> P s -> body s x = inr s' -> P s') ->
    Py.for_ l body s = inr s' ->
    P s'.
Proof.
  induction l as [|x l IH]; intros s s' Hs Hbody Hrun; simpl in Hrun.
  - by inversion Hrun; subst.
  - destruct (body s x) as [e|s1] eqn:Hx; simpl in Hrun; [discriminate|].
    apply (IH s1 s'); [| |done].
    + eapply Hbody; [|exact Hs|exact Hx]. by left.
    + intros s2 y s3 Hy. apply Hbody. by right.
Qed.

(** A loop whose body never raises ends normally. *)
Lemma for_total (body : S -> A -> Py.result S) :
  forall (l : list A) (s : S),
    (forall s x, x ∈ l -> exists s', body s x = inr s') ->
    exists s', Py.for_ l body s = inr s'.
Proof.
  induction l as [|x l IH]; intros s Hbody; simpl.
  - by eexists.
  - destruct (Hbody s x) as [s1 Hs1]; [by left|]. rewrite Hs1. simpl.
    apply IH. intros s2 y Hy. apply Hbody. by right.
Qed.

End Loops.

(** ** Migration candidates (C10) *)

Module CandidateFacts.

Import Spec.

Import Enumerate.

Lemma cell_test_marked (config : Config) (index colname value : string)
    (row : list (string * string)) :
  (index, row) ∈ migration_df config ->
  (colname, value) ∈ row ->
  negb (String.eqb index colname) && String.eqb value "T" = true ->
  marked config index colname.
Proof.
  intros Hrow Hcell Htest.
  apply andb_true_iff in Htest as [Hne Hval].
  apply negb_true_iff, String.eqb_neq in Hne.
  apply String.eqb_eq in Hval. subst value.
  split; [done|]. by exists row.
Qed.

(** Both searches visit the cells in the same way; [check] is the test
    made on the events of the topology for a marked cell. *)
Lemma scan_marked (config : Config) (B : Type)
    (check : string -> string -> Py.result B) (both : B -> bool) (none : B) :
  both none = false ->
  forall l,
    Py.for_ (migration_df config)
      (fun to_include index_row =>
         Py.for_ (snd index_row)
           (fun to_include cell =>
              include <-
                (if negb (String.eqb (fst index_row) (fst cell))
                    && String.eqb (snd cell) "T"
                 then check (fst index_row) (fst cell)
                 else Py.ret none) ;;
              Py.ret (if both include
                      then to_include ++ [(fst index_row, fst cell)]
                      else to_include))
           to_include)
      [] = inr l ->
    forall p q, (p, q) ∈ l -> marked config p q.
Proof.
  intros Hnone l Hrun.
  revert Hrun.
  set (P := fun acc : list (string * string) =>
              forall p q, (p, q) ∈ acc -> marked config p q).
  apply (for_invariant P).
  - intros p q Hin. by apply elem_of_nil in Hin.
  - intros acc [index row] acc' Hrow Hacc. simpl.
    apply (for_invariant P); [done|].
    intros acc1 [colname value] acc2 Hcell Hacc1. simpl.
    destruct (negb (String.eqb index colname) && String.eqb value "T") eqn:Htest.
    + destruct (check index colname) as [e|b]; simpl; [discriminate|].
      intros [= <-] p q Hin.
      destruct (both b); [|by apply Hacc1].
      apply elem_of_app in Hin as [Hin|Hin]; [by apply Hacc1|].
      apply list_elem_of_singleton in Hin as [= -> ->].
      by eapply cell_test_marked.
    + simpl. rewrite Hnone. intros [= <-]. apply Hacc1.
Qed.

(** C10.  For every topology, a pair returned by the search for
    secondary contact candidates, or by the search for gene flow
    candidates, has its ordered entry of the migration matrix equal to
    ["T"] and consists of two different names; a pair that is not so
    marked is never returned. *)
Theorem C10_candidates_are_marked (config : Config) (item : Demography) :
  (forall l p q,
     _find_sc_to_include config item = inr l -> (p, q) ∈ l ->
     marked config p q) /\
  (forall l p q,
     _find_dwg_to_include config item = inr l -> (p, q) ∈ l ->
     marked config p q).
Proof.
  split; intros l p q Hrun Hin.
  - refine (scan_marked config (bool * bool)
              (fun index colname =>
                 i0 <- sc_population item false index ;;
                 i1 <- sc_population item false colname ;;
                 Py.ret (i0, i1))
              (fun include => fst include && snd include)
              (false, false) _ l Hrun p q Hin).
    reflexivity.
  - refine (scan_marked config bool
              (fun index colname =>
                 Py.for_ (events item)
                   (fun include event =>
                      derived <- get_derived event ;;
                      Py.ret (if Py.in_pair index derived
                                 && Py.in_pair colname derived
                                 && Float.nonzero (time event)
                              then true else include))
                   false)
              (fun include => include)
              false _ l Hrun p q Hin).
    reflexivity.
Qed.

End CandidateFacts.

(** ** Enumeration of the collapsed topologies (C1) *)

Module EnumerateFacts.

Import Spec.

Import Enumerate.

Lemma rc_inner_last (combo nodes : list tree) (node : tree)
    (cn : option (list tree)) :
  fold_left
    (fun _ node =>
       Some (filter (fun child => child ∉ combo)
               (postorder_internal_node_iter node)))
    (nodes ++ [node]) cn
  = Some (filter (fun child => child ∉ combo)
            (postorder_internal_node_iter node)).
Proof. by rewrite fold_left_app. Qed.

Lemma filter_length_zero (combo l : list tree) :
  Nat.eqb (length (filter (fun child => child ∉ combo) l)) 0
  = forallb (fun child => bool_decide (child ∈ combo)) l.
Proof.
  induction l as [|x l IH]; [done|].
  rewrite filter_cons. simpl.
  destruct (decide (x ∉ combo)) as [Hx|Hx].
  - rewrite bool_decide_eq_false_2; done.
  - rewrite bool_decide_eq_true_2; [done|]. by apply dec_stable.
Qed.

(** One step of the loop on a combo that is not empty. *)
Lemma rc_step_nonempty (st : rc_state) (combo : list tree) :
  combo ≠ [] ->
  exists cn,
    rc_step st combo
    = inr {| keep_combos :=
               if last_node_closed combo
               then keep_combos st ++ [combo] else keep_combos st;
             child_nodes := Some cn |}.
Proof.
  intros Hne.
  destruct (exists_last Hne) as [nodes [node ->]].
  unfold rc_step, rc_inner. rewrite rc_inner_last.
  eexists. unfold Py.ret, last_node_closed.
  by rewrite last_snoc, filter_length_zero.
Qed.

(** The code keeps a combo exactly when the internal nodes below its
    last node are all chosen. *)
Lemma remove_conflicting_keeps (all_combos : list (list tree)) :
  Forall (fun combo => combo ≠ []) all_combos ->
  _remove_conflicting all_combos = inr (List.filter last_node_closed all_combos).
Proof.
  intros Hne. unfold _remove_conflicting.
  enough (Hgen : forall st,
             exists cn,
               Py.for_ all_combos rc_step st
               = inr {| keep_combos :=
                          keep_combos st
                          ++ List.filter last_node_closed all_combos;
                        child_nodes := cn |}).
  { destruct (Hgen {| keep_combos := []; child_nodes := None |}) as [cn ->].
    done. }
  induction Hne as [|combo rest Hcombo Hrest IH]; intros st; simpl.
  - exists (child_nodes st). rewrite app_nil_r. by destruct st.
  - destruct (rc_step_nonempty st combo Hcombo) as [cn ->]. simpl.
    destruct (IH {| keep_combos :=
                      if last_node_closed combo
                      then keep_combos st ++ [combo] else keep_combos st;
                    child_nodes := Some cn |}) as [cn' ->].
    exists cn'. simpl. destruct (last_node_closed combo); [|done].
    by rewrite <- app_assoc.
Qed.

Lemma combinations_nonempty {A} (l : list A) (r : nat) :
  Forall (fun combo => combo ≠ []) (Py.combinations l (S r)).
Proof.
  induction l as [|x l IH]; simpl; [constructor|].
  apply Forall_app. split; [|done].
  apply Forall_forall. intros combo Hin.
  apply list_elem_of_In, in_map_iff in Hin as [c [<- _]]. done.
Qed.

Lemma combinations_too_long {A} (l : list A) (r : nat) :
  (length l < r)%nat -> Py.combinations l r = [].
Proof.
  revert r. induction l as [|x l IH]; intros [|r] Hlt; simpl in *; try lia.
  - done.
  - rewrite (IH r), (IH (S r)) by lia. done.
Qed.

Lemma combinations_all {A} (l : list A) :
  Py.combinations l (length l) = [l].
Proof.
  induction l as [|x l IH]; [done|]. simpl.
  rewrite IH, (combinations_too_long l (S (length l))) by lia. done.
Qed.

Lemma candidate_combos_nonempty (species_tree : tree) :
  Forall (fun combo => combo ≠ []) (candidate_combos species_tree).
Proof.
  unfold candidate_combos.
  generalize (length (internal_nodes species_tree)) as n.
  generalize (internal_nodes species_tree) as nodes.
  intros nodes n. generalize 0%nat as k. induction n as [|n IH]; intros k.
  - constructor.
  - simpl. apply Forall_app. split; [apply combinations_nonempty|apply IH].
Qed.

(** The enumeration never raises, and its result is the list of combos
    whose last node is closed, followed by the empty combo. *)
Lemma collapse_combos_eq (species_tree : tree) :
  collapse_combos species_tree
  = inr (List.filter last_node_closed (candidate_combos species_tree) ++ [[]]).
Proof.
  unfold collapse_combos. fold (candidate_combos species_tree).
  by rewrite remove_conflicting_keeps by apply candidate_combos_nonempty.
Qed.

Lemma postorder_preorder (t d : tree) :
  d ∈ postorder_internal_node_iter t <-> d ∈ internal_nodes t.
Proof.
  induction t as [|label ne div c1 IH1 c2 IH2];
    cbn [postorder_internal_node_iter internal_nodes]; [done|].
  rewrite !elem_of_app, !elem_of_cons, !elem_of_app, elem_of_nil, IH1, IH2.
  tauto.
Qed.

(** The internal nodes below an internal node of the tree are internal
    nodes of the tree. *)
Lemma descendants_internal (t node d : tree) :
  node ∈ internal_nodes t ->
  d ∈ postorder_internal_node_iter node ->
  d ∈ internal_nodes t.
Proof.
  induction t as [|label ne div c1 IH1 c2 IH2];
    cbn [internal_nodes]; intros Hn Hd.
  - by apply elem_of_nil in Hn.
  - apply elem_of_cons in Hn as [->|Hn]; [by apply postorder_preorder in Hd|].
    right. apply elem_of_app.
    apply elem_of_app in Hn as [Hn|Hn]; [left|right]; auto.
Qed.

Lemma full_collapse_closed (t : tree) :
  internal_nodes t ≠ [] -> last_node_closed (internal_nodes t) = true.
Proof.
  intros Hne. unfold last_node_closed.
  destruct (exists_last Hne) as [nodes [node Heq]].
  rewrite Heq, last_snoc, <- Heq.
  apply forallb_forall. intros d Hd. apply bool_decide_eq_true_2.
  apply list_elem_of_In in Hd.
  apply (descendants_internal t node d); [|done].
  rewrite Heq. apply elem_of_app. right. by left.
Qed.

(** What does hold: the enumeration ends with the
    empty combo, and the collapse of all the internal nodes is kept. *)
Lemma empty_and_full_collapse_kept (species_tree : tree) :
  exists kept,
    collapse_combos species_tree = inr kept /\
    [] ∈ kept /\
    (internal_nodes species_tree ≠ [] -> internal_nodes species_tree ∈ kept).
Proof.
  eexists. split; [apply collapse_combos_eq|]. split.
  - apply elem_of_app. right. by left.
  - intros Hne. apply elem_of_app. left.
    apply list_elem_of_In, filter_In. split; [|by apply full_collapse_closed].
    unfold candidate_combos. apply in_concat.
    exists [internal_nodes species_tree]. split; [|by left].
    apply in_map_iff. exists (length (internal_nodes species_tree)).
    split; [apply combinations_all|].
    apply in_seq. destruct (internal_nodes species_tree); [done|simpl; lia].
Qed.

(** C1.  On the tree [(((A,B)Y,C)Z,(D,E)X)R] the enumeration keeps the
    combination [{Z, X}]: the test of [_remove_conflicting] is made once,
    after the loop over the nodes, so it sees only the last node [X].
    The combination is not contiguity-valid, since [Z] is chosen and its
    internal descendant [Y] is not. *)
Theorem C1_gap_combination_is_kept :
  exists kept,
    collapse_combos Trees.tR = inr kept /\
    [Trees.tZ; Trees.tX] ∈ kept /\
    ~ contiguity_valid [Trees.tZ; Trees.tX].
Proof.
  eexists. split; [apply collapse_combos_eq|]. split.
  - apply (bool_decide_unpack _). by vm_compute.
  - intros Hvalid.
    assert (Hin : Trees.tY ∈ [Trees.tZ; Trees.tX]).
    { apply (Hvalid Trees.tZ); [by left|]. simpl. by left. }
    revert Hin. apply (bool_decide_unpack _). by vm_compute.
Qed.

End EnumerateFacts.

(** ** Rounding *)

Module RoundFacts.

Import Spec.

Lemma round_half_even_comp (x y : Q) :
  (x == y)%Q -> Numpy.round_half_even x = Numpy.round_half_even y.
Proof.
  intros Hxy. unfold Numpy.round_half_even.
  rewrite (Qfloor_comp x y Hxy).
  assert (Hc : ((x - inject_Z (Qfloor y) ?= 1 # 2) = (y - inject_Z (Qfloor y) ?= 1 # 2))%Q).
  { apply Qcompare_comp; [|reflexivity]. by rewrite Hxy. }
  by rewrite Hc.
Qed.

Lemma round_half_even_floor (q : Q) :
  Qfloor q <= Numpy.round_half_even q <= Qfloor q + 1.
Proof.
  unfold Numpy.round_half_even.
  destruct (q - inject_Z (Qfloor q) ?= 1 # 2)%Q; [destruct (Z.even _)| |]; lia.
Qed.

Lemma round_half_even_bounds (a b : Z) (q : Q) :
  (inject_Z a <= q)%Q -> (q <= inject_Z b)%Q ->
  a <= Numpy.round_half_even q <= b.
Proof.
  intros Ha Hb.
  pose proof (round_half_even_floor q) as [Hlo Hhi].
  assert (Hfa : a <= Qfloor q).
  { rewrite <- (Qfloor_Z a). by apply Qfloor_resp_le. }
  assert (Hfb : Qfloor q <= b).
  { rewrite <- (Qfloor_Z b). by apply Qfloor_resp_le. }
  split; [lia|].
  destruct (Z.eq_dec (Qfloor q) b) as [Heq|Hne]; [|lia].
  unfold Numpy.round_half_even.
  assert (Hlt : (q - inject_Z (Qfloor q) < 1 # 2)%Q).
  { rewrite Heq. lra. }
  destruct (Qcompare_spec (q - inject_Z (Qfloor q)) (1 # 2)) as [He|_|Hg];
    [rewrite He in Hlt; lra|lia|lra].
Qed.

Lemma round_zero_decimals (q : Q) :
  (Numpy.round 0 q == inject_Z (Numpy.round_half_even q))%Q.
Proof.
  unfold Numpy.round. change (inject_Z (10 ^ Z.of_nat 0)) with 1%Q.
  rewrite (round_half_even_comp (q * 1) q) by ring.
  field.
Qed.

Lemma round_integral (q : Q) : integral (Numpy.round 0 q).
Proof. eexists. apply round_zero_decimals. Qed.

Lemma round_between (lo hi q : Q) :
  integral lo -> integral hi -> (lo <= q)%Q -> (q <= hi)%Q ->
  (lo <= Numpy.round 0 q)%Q /\ (Numpy.round 0 q <= hi)%Q.
Proof.
  intros [a Ha] [b Hb] Hlo Hhi.
  rewrite Ha in Hlo. rewrite Hb in Hhi.
  destruct (round_half_even_bounds a b q Hlo Hhi) as [H1 H2].
  rewrite round_zero_decimals, Ha, Hb.
  split; by rewrite <- Zle_Qle.
Qed.

Lemma integral_max (x y : Q) : integral x -> integral y -> integral (Qmax x y).
Proof.
  intros [a Ha] [b Hb].
  destruct (Q.max_spec x y) as [[_ H]|[_ H]]; [exists b|exists a];
    by rewrite H.
Qed.

End RoundFacts.

Module FloatFacts.

Lemma leb_Fin (x y : Q) :
  Float.leb (Float.Fin x) (Float.Fin y) = true <-> (x <= y)%Q.
Proof. simpl. apply Qle_bool_iff. Qed.

Lemma ltb_Fin (x y : Q) :
  Float.ltb (Float.Fin x) (Float.Fin y) = true <-> (x < y)%Q.
Proof.
  unfold Float.ltb. rewrite negb_true_iff. simpl. split.
  - intros H. apply Qnot_le_lt. intros Hle.
    apply Qle_bool_iff in Hle. congruence.
  - intros H. apply not_true_is_false. intros Hle.
    apply Qle_bool_iff in Hle. by apply Qlt_not_le in H.
Qed.

Lemma leb_refl (a : Float.t) : Float.leb a a = true.
Proof. destruct a; [|done]. apply leb_Fin, Qle_refl. Qed.

Lemma leb_trans (a b c : Float.t) :
  Float.leb a b = true -> Float.leb b c = true -> Float.leb a c = true.
Proof.
  destruct a as [x|], b as [y|], c as [z|]; try done.
  rewrite !leb_Fin. apply Qle_trans.
Qed.

Lemma leb_total (a b : Float.t) :
  Float.leb a b = false -> Float.leb b a = true.
Proof.
  destruct a as [x|], b as [y|]; try done. simpl. intros H.
  apply Qle_bool_iff, Qlt_le_weak, Qnot_le_lt. intros Hle.
  apply Qle_bool_iff in Hle. congruence.
Qed.

End FloatFacts.

Section Comprehensions.

Context {A B : Type}.

(** The results of a list comprehension that ends normally. *)
Lemma map_inr (f : A -> Py.result B) :
  forall (l : list A) (ys : list B),
    Py.map_ f l = inr ys -> Forall2 (fun x y => f x = inr y) l ys.
Proof.
  induction l as [|x l IH]; intros ys; simpl.
  - intros [= <-]. constructor.
  - destruct (f x) as [e|y] eqn:Hx; simpl; [discriminate|].
    destruct (Py.map_ f l) as [e|ys'] eqn:Hl; simpl; [discriminate|].
    intros [= <-]. constructor; auto.
Qed.

End Comprehensions.

Module StopFacts.

Import Spec.

Import Dendropy Msprime.
Import Enumerate Sampler FloatFacts.

(** The loop of [_get_migration_stops] over the entries of the dict,
    started from any running minimum. *)
Lemma minimum_loop (rep : nat) :
  forall (kvs : list (string * list Q)) (mn0 mn : Float.t),
    Py.for_ kvs
      (fun min kv =>
         v <- Py.index (snd kv) rep ;;
         Py.ret (if Float.ltb (Float.Fin 0) (Float.Fin v)
                    && Float.ltb (Float.Fin v) min
                 then Float.Fin v else min))
      mn0 = inr mn ->
    (forall kv, kv ∈ kvs ->
       exists v, snd kv !! rep = Some v /\
                 ((0 < v)%Q -> Float.leb mn (Float.Fin v) = true)) /\
    Float.leb mn mn0 = true /\
    (mn = mn0 \/
     exists kv w, kv ∈ kvs /\ snd kv !! rep = Some w /\ (0 < w)%Q /\
                  mn = Float.Fin w).
Proof.
  induction kvs as [|kv kvs IH]; intros mn0 mn; simpl.
  - intros [= <-]. split_and!; [|apply leb_refl|by left].
    intros kv Hin. by apply elem_of_nil in Hin.
  - unfold Py.index at 1. destruct (snd kv !! rep) as [v|] eqn:Hv;
      simpl; [|discriminate].
    intros Hrun. apply IH in Hrun as (Hall & Hle & Hwho).
    destruct (Float.ltb (Float.Fin 0) (Float.Fin v)) eqn:Hpos; simpl in *.
    + destruct (Float.ltb (Float.Fin v) mn0) eqn:Hlt.
      * (* the entry becomes the running minimum *)
        split_and!.
        -- intros kv' Hin. apply elem_of_cons in Hin as [->|Hin]; [|auto].
           exists v. split; [done|]. by intros _.
        -- apply (leb_trans _ (Float.Fin v)); [done|].
           unfold Float.ltb in Hlt. apply negb_true_iff in Hlt.
           by apply leb_total.
        -- right. destruct Hwho as [->|(kv' & w & Hin & Hw & Hw0 & ->)].
           ++ exists kv, v. split_and!; [by left|done| |done].
              by apply ltb_Fin in Hpos.
           ++ exists kv', w. split_and!; [by right|done..].
      * split_and!; [|done|].
        -- intros kv' Hin. apply elem_of_cons in Hin as [->|Hin]; [|auto].
           exists v. split; [done|]. intros _.
           apply (leb_trans _ mn0); [done|].
           unfold Float.ltb in Hlt. by apply negb_false_iff in Hlt.
        -- destruct Hwho as [->|(kv' & w & Hin & Hw & Hw0 & ->)]; [by left|].
           right. exists kv', w. split_and!; [by right|done..].
    + split_and!; [|done|].
      * intros kv' Hin. apply elem_of_cons in Hin as [->|Hin]; [|auto].
        exists v. split; [done|]. intros Hv0.
        apply ltb_Fin in Hv0. congruence.
      * destruct Hwho as [->|(kv' & w & Hin & Hw & Hw0 & ->)]; [by left|].
        right. exists kv', w. split_and!; [by right|done..].
Qed.

(** [minimum_divergence]: the least positive entry of the replicate, or
    [np.inf] when no entry is positive. *)
Lemma minimum_divergence_spec (draws : gmap string (list Q)) (rep : nat)
    (mn : Float.t) :
  minimum_divergence draws rep = inr mn ->
  (forall k l, draws !! k = Some l ->
     exists v, l !! rep = Some v /\
               ((0 < v)%Q -> Float.leb mn (Float.Fin v) = true)) /\
  (mn = Float.Inf \/
   exists k l w, draws !! k = Some l /\ l !! rep = Some w /\ (0 < w)%Q /\
                 mn = Float.Fin w).
Proof.
  unfold minimum_divergence. intros Hrun.
  apply minimum_loop in Hrun as (Hall & _ & Hwho). split.
  - intros k l Hk. apply (Hall (k, l)). by apply elem_of_map_to_list.
  - destruct Hwho as [->|([k l] & w & Hin & Hw & Hw0 & ->)]; [by left|].
    right. exists k, l, w. split_and!; try done.
    by apply elem_of_map_to_list.
Qed.

End StopFacts.

Module SamplerFacts.

Import Spec.

Import Dendropy Msprime.
Import Enumerate Sampler RoundFacts.

Lemma lookup_map {A B} (f : A -> B) (l : list A) (i : nat) :
  map f l !! i = f <$> (l !! i).
Proof.
  revert i. induction l as [|x l IH]; intros [|i]; simpl; auto.
Qed.

Section WithGenerator.

Variable rng : Type.
Variable random_uniform : Q -> Q -> rng -> Q * rng.

Hypothesis uniform_range :
  forall lo hi g,
    (lo <= hi)%Q ->
    (lo <= fst (random_uniform lo hi g))%Q /\
    (fst (random_uniform lo hi g) <= hi)%Q.

Lemma uniform_inr (lo hi u : Q) (g g' : rng) :
  uniform rng random_uniform lo hi g = inr (u, g') ->
  (lo <= u)%Q /\ (u <= hi)%Q.
Proof.
  unfold uniform. destruct (Qle_bool lo hi) eqn:Hle; [|discriminate].
  apply Qle_bool_iff in Hle. intros [= Hu].
  pose proof (uniform_range lo hi g Hle) as Hr. by rewrite Hu in Hr.
Qed.

(** The results of a list comprehension that draws are related, place
    by place, to the arguments they were drawn for. *)
Lemma mmap_inr {A B} (f : A -> M rng B) (l : list A) :
  forall g ys g',
    mmap f l g = inr (ys, g') ->
    Forall2 (fun x y => exists g1 g2, f x g1 = inr (y, g2)) l ys.
Proof.
  induction l as [|x l IH]; intros g ys g'; simpl.
  - unfold mret. intros [= <- _]. constructor.
  - unfold mbind at 1. destruct (f x g) as [e|[y g1]] eqn:Hx; [discriminate|].
    unfold mbind at 1.
    destruct (mmap f l g1) as [e|[ys' g2]] eqn:Hl; [discriminate|].
    unfold mret. intros [= <- _]. constructor; eauto.
Qed.

(** One rounded draw above an integral lower bound. *)
Lemma drawn_value (x hi y : Q) (g1 g2 : rng) :
  integral x -> integral hi ->
  (u <~ uniform rng random_uniform x hi ;; mret (Numpy.round 0 u)) g1
  = inr (y, g2) ->
  (x <= y)%Q /\ (y <= hi)%Q /\ integral y.
Proof.
  intros Hx Hhi. unfold mbind.
  destruct (uniform rng random_uniform x hi g1) as [e|[u g]] eqn:Hu;
    [discriminate|].
  unfold mret. intros [= <- _].
  apply uniform_inr in Hu as [H1 H2].
  destruct (round_between x hi u Hx Hhi H1 H2).
  repeat split; auto using round_integral.
Qed.

Lemma lookup_repeat {A} (x y : A) (n i : nat) :
  repeat x n !! i = Some y -> y = x.
Proof.
  intros H. apply list_elem_of_lookup_2, list_elem_of_In in H.
  by apply repeat_spec in H.
Qed.

Lemma min_values_lookup (config : Config) (l1 l2 : list Q) (lo x : Q)
    (rep : nat) :
  min_values config l1 l2 lo !! rep = Some x ->
  exists v1 v2,
    l1 !! rep = Some v1 /\ l2 !! rep = Some v2 /\
    x = Qmax (Qmax v1 v2) lo.
Proof.
  unfold min_values. rewrite lookup_map. intros H.
  apply fmap_Some in H as [[[v1 v2] c] [Hz ->]].
  apply lookup_zip_with_Some in Hz as (p & c' & [= <- <-] & Hp & Hc).
  apply lookup_zip_with_Some in Hp as (a & b & [= <- <-] & Ha & Hb).
  apply lookup_repeat in Hc as ->. by exists v1, v2.
Qed.

Lemma min_values_length (config : Config) (l1 l2 : list Q) (lo : Q) :
  length l1 = replicates config -> length l2 = replicates config ->
  length (min_values config l1 l2 lo) = replicates config.
Proof.
  intros H1 H2. unfold min_values.
  rewrite length_map, !length_zip_with, repeat_length. lia.
Qed.

(** What one iteration of the loop of [_draw_divergence_times] does on a
    split whose placeholder time is not zero. *)
Lemma draw_split_spec (config : Config) (dts : gmap string (Z * Z))
    (draws draws' : gmap string (list Q)) (t : Float.t)
    (derived : string * string) (ancestral : string) (g g' : rng) :
  Float.nonzero t = true ->
  well_formed config draws ->
  draw_divergence_event rng random_uniform config dts draws
    (PopulationSplit t derived ancestral) g = inr (draws', g') ->
  exists la l1 l2 lo hi,
    draws !! fst derived = Some l1 /\
    draws !! snd derived = Some l2 /\
    dts !! ancestral = Some (lo, hi) /\
    draws' = <[ancestral := la]> draws /\
    length la = replicates config /\
    forall rep va, la !! rep = Some va ->
      integral va /\
      exists v1 v2,
        l1 !! rep = Some v1 /\ l2 !! rep = Some v2 /\
        (v1 <= va)%Q /\ (v2 <= va)%Q /\ (va <= inject_Z hi)%Q.
Proof.
  intros Hnz Hwf. simpl. rewrite Hnz. unfold mbind at 1, lift, Py.getitem.
  destruct (draws !! fst derived) as [l1|] eqn:H1; [|discriminate].
  unfold mbind at 1.
  destruct (draws !! snd derived) as [l2|] eqn:H2; [|discriminate].
  unfold mbind at 1.
  destruct (dts !! ancestral) as [[lo hi]|] eqn:Hp; [|discriminate].
  unfold mbind at 1. simpl fst. simpl snd.
  match goal with
  | |- context [mmap ?f ?l ?g] =>
      destruct (mmap f l g) as [e|[la g1]] eqn:Hm; [discriminate|]
  end.
  unfold mret. intros [= <- <-].
  apply mmap_inr in Hm.
  destruct (Hwf _ _ H1) as [Hlen1 Hint1], (Hwf _ _ H2) as [Hlen2 Hint2].
  exists la, l1, l2, lo, hi. repeat split; auto.
  - rewrite <- (Forall2_length _ _ _ Hm). by apply min_values_length.
  - destruct (Forall2_lookup_r _ _ _ _ _ Hm H) as (x & Hx & g2 & g3 & Hdraw).
    apply min_values_lookup in Hx as (v1 & v2 & Hv1 & Hv2 & ->).
    apply drawn_value in Hdraw as (_ & _ & Hi); [done| |by eexists].
    apply integral_max; [|by eexists]. apply integral_max.
    + by apply (Forall_lookup_1 _ _ _ _ Hint1 Hv1).
    + by apply (Forall_lookup_1 _ _ _ _ Hint2 Hv2).
  - destruct (Forall2_lookup_r _ _ _ _ _ Hm H) as (x & Hx & g2 & g3 & Hdraw).
    apply min_values_lookup in Hx as (v1 & v2 & Hv1 & Hv2 & ->).
    assert (Hix : integral (Qmax (Qmax v1 v2) (inject_Z lo))).
    { apply integral_max; [|by eexists]. apply integral_max.
      - by apply (Forall_lookup_1 _ _ _ _ Hint1 Hv1).
      - by apply (Forall_lookup_1 _ _ _ _ Hint2 Hv2). }
    apply drawn_value in Hdraw as (Hlo & Hhi & _); [|done|by eexists].
    exists v1, v2. repeat split; auto.
    + apply (Qle_trans _ (Qmax (Qmax v1 v2) (inject_Z lo))); [|exact Hlo].
      apply (Qle_trans _ (Qmax v1 v2)); apply Q.le_max_l.
    + apply (Qle_trans _ (Qmax (Qmax v1 v2) (inject_Z lo))); [|exact Hlo].
      apply (Qle_trans _ (Qmax v1 v2)); [apply Q.le_max_r|apply Q.le_max_l].
Qed.

Lemma well_formed_insert (config : Config) (draws : gmap string (list Q))
    (k : string) (l : list Q) :
  well_formed config draws ->
  length l = replicates config -> Forall integral l ->
  well_formed config (<[k := l]> draws).
Proof.
  intros Hwf Hlen Hint k' l' Hk'.
  destruct (decide (k = k')) as [->|Hne].
  - rewrite lookup_insert_eq in Hk'. by inversion Hk'; subst.
  - rewrite lookup_insert_ne in Hk' by done. exact (Hwf k' l' Hk').
Qed.

Lemma zeros_well_formed (config : Config) :
  length (zeros config) = replicates config /\ Forall integral (zeros config).
Proof.
  unfold zeros. split; [apply repeat_length|].
  apply Forall_forall. intros x Hx.
  apply list_elem_of_In, repeat_spec in Hx as ->. by exists 0.
Qed.

(** The loop over the events, started from any well-formed dict none of
    whose keys is the ancestral population of an event still to come. *)
Lemma draw_events_spec (config : Config) (dts : gmap string (Z * Z)) :
  forall (evs : list Event) (draws draws' : gmap string (list Q)) (g g' : rng),
    NoDup (ancestral_names evs) ->
    (forall k, is_Some (draws !! k) -> k ∉ ancestral_names evs) ->
    (forall e, e ∈ evs -> Float.nonzero (time e) = true) ->
    well_formed config draws ->
    mfor evs (draw_divergence_event rng random_uniform config dts) draws g
    = inr (draws', g') ->
    well_formed config draws' /\
    (forall k l, draws !! k = Some l -> draws' !! k = Some l) /\
    (forall t derived ancestral,
       PopulationSplit t derived ancestral ∈ evs ->
       respects config dts draws' derived ancestral).
Proof.
  induction evs as [|e evs IH]; intros draws draws' g g' Hnd Hkeys Hnz Hwf Hrun.
  - simpl in Hrun. unfold mret in Hrun. inversion Hrun; subst.
    split_and!; auto. intros t d a Hin. by apply elem_of_nil in Hin.
  - simpl in Hrun. unfold mbind at 1 in Hrun.
    destruct (draw_divergence_event rng random_uniform config dts draws e g)
      as [err|[draws1 g1]] eqn:He; [discriminate|].
    assert (Hnz' : forall e', e' ∈ evs -> Float.nonzero (time e') = true).
    { intros e' He'. apply Hnz. by right. }
    destruct e as [t derived ancestral|t src dst r|t pops r].
    + (* a split: its ancestral population gets its draws *)
      cbn [ancestral_names omap] in Hnd, Hkeys.
      change (omap _ evs) with (ancestral_names evs) in Hnd, Hkeys.
      apply NoDup_cons in Hnd as [Hfresh Hnd].
      apply draw_split_spec in He
        as (la & l1 & l2 & lo & hi & H1 & H2 & Hp & -> & Hlen & Hla);
        [|apply (Hnz (PopulationSplit t derived ancestral)); by left|done].
      assert (Hd1 : fst derived ≠ ancestral).
      { intros Heq. apply (Hkeys (fst derived)); [by eexists|].
        rewrite Heq. by left. }
      assert (Hd2 : snd derived ≠ ancestral).
      { intros Heq. apply (Hkeys (snd derived)); [by eexists|].
        rewrite Heq. by left. }
      destruct (IH (<[ancestral := la]> draws) draws' g1 g' Hnd)
        as (Hwf' & Hkeep & Hrest); auto.
      { intros k [l Hk].
        destruct (decide (ancestral = k)) as [<-|Hne]; [done|].
        rewrite lookup_insert_ne in Hk by done.
        intros Hin. apply (Hkeys k); [by eexists|]. by right. }
      { apply well_formed_insert; auto.
        apply Forall_lookup. intros i x Hx. by apply (Hla i x). }
      split; [done|]. split.
      * intros k l Hk. apply Hkeep.
        rewrite lookup_insert_ne; [done|].
        intros <-. apply (Hkeys ancestral); [by eexists|]. by left.
      * intros t' d' a' Hin.
        apply elem_of_cons in Hin as [[= -> -> ->]|Hin]; [|by eapply Hrest].
        exists la, l1, l2, lo, hi. split_and!; auto.
        -- apply Hkeep. by rewrite lookup_insert_eq.
        -- apply Hkeep. by rewrite lookup_insert_ne.
        -- apply Hkeep. by rewrite lookup_insert_ne.
        -- intros rep Hrep.
           destruct (lookup_lt_is_Some_2 la rep) as [va Hva]; [lia|].
           destruct (Hla rep va Hva) as (_ & v1 & v2 & Hv1 & Hv2 & Hle).
           by exists va, v1, v2.
    + (* a rate change leaves the dict as it is *)
      simpl in He. unfold mret in He. inversion He; subst.
      destruct (IH draws1 draws' g1 g' Hnd Hkeys Hnz' Hwf Hrun)
        as (Hwf' & Hkeep & Hrest).
      split_and!; auto. intros t' d' a' Hin.
      apply elem_of_cons in Hin as [[=]|Hin]. by eapply Hrest.
    + simpl in He. unfold mret in He. inversion He; subst.
      destruct (IH draws1 draws' g1 g' Hnd Hkeys Hnz' Hwf Hrun)
        as (Hwf' & Hkeep & Hrest).
      split_and!; auto. intros t' d' a' Hin.
      apply elem_of_cons in Hin as [[=]|Hin]. by eapply Hrest.
Qed.


(** *** Secondary contact: the time at which migration stops *)

Lemma zeros_nonnegative (config : Config) :
  Forall (fun v => (0 <= v)%Q) (zeros config).
Proof.
  apply Forall_forall. intros x Hx.
  apply list_elem_of_In, repeat_spec in Hx as ->. apply Qle_refl.
Qed.

Lemma nonnegative_insert (draws : gmap string (list Q)) (k : string)
    (l : list Q) :
  nonnegative draws -> Forall (fun v => (0 <= v)%Q) l ->
  nonnegative (<[k := l]> draws).
Proof.
  intros Hd Hl k' l' Hk'.
  destruct (decide (k = k')) as [->|Hne].
  - rewrite lookup_insert_eq in Hk'. by inversion Hk'; subst.
  - rewrite lookup_insert_ne in Hk' by done. exact (Hd k' l' Hk').
Qed.

(** A rounded draw above a non-negative lower bound is not negative. *)
Lemma drawn_nonnegative (x : Q) (hi : Z) (y : Q) (g1 g2 : rng) :
  (0 <= x)%Q ->
  (u <~ uniform rng random_uniform x (inject_Z hi) ;; mret (Numpy.round 0 u)) g1
  = inr (y, g2) ->
  (0 <= y)%Q.
Proof.
  intros Hx. unfold mbind.
  destruct (uniform rng random_uniform x (inject_Z hi) g1) as [e|[u g]] eqn:Hu;
    [discriminate|].
  unfold mret. intros [= <- _].
  apply uniform_inr in Hu as [H1 H2].
  apply (round_between 0 (inject_Z hi) u); [by exists 0|by eexists| |done].
  by apply (Qle_trans _ x).
Qed.

(** One iteration of the loop of [_draw_divergence_times] keeps the
    dict non-negative and adds no key but the ancestral population of
    the event. *)
Lemma draw_event_nonnegative (config : Config) (dts : gmap string (Z * Z))
    (draws draws' : gmap string (list Q)) (e : Event) (g g' : rng) :
  nonnegative draws ->
  draw_divergence_event rng random_uniform config dts draws e g
  = inr (draws', g') ->
  nonnegative draws' /\
  (forall k l, draws' !! k = Some l ->
     draws !! k = Some l \/ k ∈ ancestral_names [e]).
Proof.
  intros Hnn. destruct e as [t derived ancestral|t src dst r|t pops r]; simpl;
    try (unfold mret; intros [= <- _]; split; [done|by left]).
  assert (Hkeys : forall la k l,
             <[ancestral := la]> draws !! k = Some l ->
             draws !! k = Some l \/ k ∈ [ancestral]).
  { intros la k l Hk. destruct (decide (ancestral = k)) as [<-|Hne].
    - right. by left.
    - left. by rewrite lookup_insert_ne in Hk. }
  destruct (Float.nonzero t).
  - unfold mbind at 1, lift, Py.getitem.
    destruct (draws !! fst derived) as [l1|] eqn:H1; [|discriminate].
    unfold mbind at 1.
    destruct (draws !! snd derived) as [l2|] eqn:H2; [|discriminate].
    unfold mbind at 1.
    destruct (dts !! ancestral) as [[lo hi]|] eqn:Hp; [|discriminate].
    unfold mbind at 1. simpl fst. simpl snd.
    match goal with
    | |- context [mmap ?f ?l ?g] =>
        destruct (mmap f l g) as [err|[la g1]] eqn:Hm; [discriminate|]
    end.
    unfold mret. intros [= <- <-]. split; [|apply Hkeys].
    apply nonnegative_insert; [done|].
    apply mmap_inr in Hm. apply Forall_lookup. intros i va Hva.
    destruct (Forall2_lookup_r _ _ _ _ _ Hm Hva) as (x & Hx & g2 & g3 & Hdraw).
    apply min_values_lookup in Hx as (v1 & v2 & Hv1 & Hv2 & ->).
    apply drawn_nonnegative in Hdraw; [done|].
    apply (Qle_trans _ v1); [|apply (Qle_trans _ (Qmax v1 v2)); apply Q.le_max_l].
    by apply (Forall_lookup_1 _ _ _ _ (Hnn _ _ H1) Hv1).
  - unfold mret. intros [= <- <-]. split; [|apply Hkeys].
    apply nonnegative_insert; [done|apply zeros_nonnegative].
Qed.

Lemma ancestral_names_cons (e : Event) (evs : list Event) (k : string) :
  k ∈ ancestral_names (e :: evs) <->
  k ∈ ancestral_names [e] \/ k ∈ ancestral_names evs.
Proof.
  change (e :: evs) with ([e] ++ evs).
  unfold ancestral_names. by rewrite omap_app, elem_of_app.
Qed.

Lemma draw_events_nonnegative (config : Config) (dts : gmap string (Z * Z)) :
  forall (evs : list Event) (draws draws' : gmap string (list Q)) (g g' : rng),
    nonnegative draws ->
    mfor evs (draw_divergence_event rng random_uniform config dts) draws g
    = inr (draws', g') ->
    nonnegative draws' /\
    (forall k l, draws' !! k = Some l ->
       draws !! k = Some l \/ k ∈ ancestral_names evs).
Proof.
  induction evs as [|e evs IH]; intros draws draws' g g' Hnn Hrun.
  - simpl in Hrun. unfold mret in Hrun. inversion Hrun; subst.
    split; [done|]. by left.
  - simpl in Hrun. unfold mbind at 1 in Hrun.
    destruct (draw_divergence_event rng random_uniform config dts draws e g)
      as [err|[draws1 g1]] eqn:He; [discriminate|].
    apply draw_event_nonnegative in He as [Hnn1 Hk1]; [|done].
    destruct (IH draws1 draws' g1 g' Hnn1 Hrun) as [Hnn' Hk'].
    split; [done|]. intros k l Hk. rewrite ancestral_names_cons.
    destruct (Hk' k l Hk) as [Hin|Hin]; [|by right; right].
    destruct (Hk1 k l Hin); [by left|by right; left].
Qed.

(** The dict [_draw_divergence_times] returns: no entry is negative, and
    a key that is not the ancestral population of a split holds zeros. *)
Lemma divergence_draws_shape (config : Config)
    (population_size_draws : gmap string (list Q)) (model : Demography)
    (divergence_times : gmap string (Z * Z)) (g g' : rng)
    (draws : gmap string (list Q)) :
  _draw_divergence_times rng random_uniform config population_size_draws
    model divergence_times g = inr (draws, g') ->
  nonnegative draws /\
  (forall k l, draws !! k = Some l ->
     l = zeros config \/ k ∈ ancestral_names (events model)).
Proof.
  unfold _draw_divergence_times. intros Hrun.
  apply draw_events_nonnegative in Hrun as [Hnn Hkeys].
  - split; [done|]. intros k l Hk.
    destruct (Hkeys k l Hk) as [Hz|Hin]; [left|by right].
    by apply lookup_fmap_Some in Hz as (l0 & <- & _).
  - intros k l Hk. apply lookup_fmap_Some in Hk as (l0 & <- & _).
    apply zeros_nonnegative.
Qed.

End WithGenerator.

End SamplerFacts.

Module ReplicateFacts.

Import Spec.

Import Dendropy Msprime.
Import Enumerate Sampler FloatFacts StopFacts SamplerFacts.

Lemma assign_sizes_events (draws : gmap string (list Q)) (rep : nat)
    (model model' : Demography) :
  assign_sizes draws rep model = inr model' -> events model' = events model.
Proof.
  unfold assign_sizes. destruct (Py.map_ _ _) as [e|pops]; simpl; [discriminate|].
  by intros [= <-].
Qed.

Lemma assign_matrix_events (config : Config)
    (rates : gmap (nat * nat) (list Q)) (rep : nat) (model model' : Demography) :
  assign_matrix config rates rep model = inr model' ->
  events model' = events model.
Proof.
  unfold assign_matrix.
  apply (for_invariant (fun m => events m = events model)); [done|].
  intros m kv m' _ Hm. destruct (Py.index (snd kv) rep) as [e|rate]; simpl;
    [discriminate|].
  intros [= <-]. by destruct (symmetric config).
Qed.

(** What the loop of [_draw_parameters_sc] over the events does to one
    event. *)
Lemma assign_event_sc_split (draws : gmap string (list Q))
    (stops : list Float.t) (rep : nat) (t : Float.t)
    (d : string * string) (a : string) (e' : Event) :
  assign_event_sc draws stops rep (PopulationSplit t d a) = inr e' ->
  exists l v, draws !! a = Some l /\ l !! rep = Some v /\
              e' = PopulationSplit (Float.Fin v) d a.
Proof.
  simpl. unfold draw_at, Py.getitem.
  destruct (draws !! a) as [l|]; simpl; [|discriminate].
  unfold Py.index. destruct (l !! rep) as [v|] eqn:Hv; simpl; [|discriminate].
  intros [= <-]. by exists l, v.
Qed.

Lemma assign_event_sc_rate (draws : gmap string (list Q))
    (stops : list Float.t) (rep : nat) (e e' : Event) :
  assign_event_sc draws stops rep e = inr e' ->
  has_rate e' = true ->
  exists stop, stops !! rep = Some stop /\ time e' = stop.
Proof.
  destruct e as [t d a|t src dst r|t pops r].
  - intros H. apply assign_event_sc_split in H as (l & v & _ & _ & ->). done.
  - simpl. unfold Py.index. destruct (stops !! rep) as [stop|] eqn:Hs; simpl;
      [|discriminate].
    intros [= <-] _. by exists stop.
  - simpl. unfold Py.index. destruct (stops !! rep) as [stop|] eqn:Hs; simpl;
      [|discriminate].
    intros [= <-] _. by exists stop.
Qed.

Lemma elem_of_ancestral_names (evs : list Event) (a : string) :
  a ∈ ancestral_names evs ->
  exists t d, PopulationSplit t d a ∈ evs.
Proof.
  unfold ancestral_names. rewrite list_elem_of_omap.
  intros (e & He & Ha). destruct e as [t d a'|?|?]; [|done..].
  inversion Ha; subst. by exists t, d.
Qed.

Lemma lookup_seq_0 (n i x : nat) : seq 0 n !! i = Some x -> x = i.
Proof. intros H. apply lookup_seq in H as [-> _]. done. Qed.

Lemma half_ceil_comp (v m : Q) :
  (v == m)%Q ->
  half_ceil (Float.Fin v) = Float.Fin (Numpy.ceil (m / 2)).
Proof.
  intros H. simpl. unfold Numpy.ceil. f_equal. f_equal.
  apply Qceiling_comp. by rewrite H.
Qed.

Section WithGenerator.

Variable rng : Type.
Variable random_uniform : Q -> Q -> rng -> Q * rng.

Hypothesis uniform_range :
  forall lo hi g,
    (lo <= hi)%Q ->
    (lo <= fst (random_uniform lo hi g))%Q /\
    (fst (random_uniform lo hi g) <= hi)%Q.


End WithGenerator.

End ReplicateFacts.

Module StartFacts.

Import Spec.

Import Dendropy Msprime.
Import Enumerate Sampler FloatFacts SamplerFacts.

Lemma migration_key_injective (keys : gmap string nat)
    (pq1 pq2 : string * string) (key : nat * nat) :
  keys_injective keys ->
  migration_key keys pq1 = inr key -> migration_key keys pq2 = inr key ->
  pq1 = pq2.
Proof.
  intros Hinj. unfold migration_key, Py.getitem.
  destruct pq1 as [p1 q1], pq2 as [p2 q2]. simpl.
  destruct (keys !! p1) as [i1|] eqn:Hp1; simpl; [|discriminate].
  destruct (keys !! q1) as [j1|] eqn:Hq1; simpl; [|discriminate].
  destruct (keys !! p2) as [i2|] eqn:Hp2; simpl; [|discriminate].
  destruct (keys !! q2) as [j2|] eqn:Hq2; simpl; [|discriminate].
  intros [= <-] [= -> ->].
  by rewrite (Hinj _ _ _ Hp1 Hp2), (Hinj _ _ _ Hq1 Hq2).
Qed.

(** The loop that sets [ancestor]: the ancestral population of the last
    split that has both daughters, or the value [ancestor] had before. *)
Lemma find_ancestor_loop (d1 d2 : string) :
  forall (evs : list Event) (prev : option string),
    let found :=
      fold_left
        (fun ancestor divevent =>
           match divevent with
           | PopulationSplit _ derived anc =>
               if Py.in_pair d1 derived && Py.in_pair d2 derived
               then Some anc else ancestor
           | _ => ancestor
           end)
        evs prev in
    (exists t d anc,
       found = Some anc /\ PopulationSplit t d anc ∈ evs /\
       Py.in_pair d1 d = true /\ Py.in_pair d2 d = true) \/
    (found = prev /\
     forall t d anc, PopulationSplit t d anc ∈ evs ->
       Py.in_pair d1 d && Py.in_pair d2 d = false).
Proof.
  induction evs as [|e evs IH]; intros prev; simpl.
  - right. split; [done|]. intros t d anc Hin. by apply elem_of_nil in Hin.
  - match goal with |- context [fold_left ?f evs ?p] =>
      destruct (IH p) as [(t & d & anc & Hf & Hin & H1 & H2)|[Hf Hnone]]
    end.
    + left. exists t, d, anc. split_and!; try done. by right.
    + simpl in Hf. rewrite Hf.
      destruct e as [t d anc|?|?].
      * destruct (Py.in_pair d1 d && Py.in_pair d2 d) eqn:Hboth.
        -- left. exists t, d, anc. apply andb_true_iff in Hboth as [H1 H2].
           split_and!; try done. by left.
        -- right. split; [done|]. intros t' d' anc' Hin.
           apply elem_of_cons in Hin as [[= -> -> ->]|Hin]; [done|].
           by eapply Hnone.
      * right. split; [done|]. intros t' d' anc' Hin.
        apply elem_of_cons in Hin as [[=]|Hin]. by eapply Hnone.
      * right. split; [done|]. intros t' d' anc' Hin.
        apply elem_of_cons in Hin as [[=]|Hin]. by eapply Hnone.
Qed.

Section Starts.

Variable config : Config.
Variable model : Demography.
Variable draws : gmap string (list Q).
Variable keys : gmap string nat.

Local Notation "'filled'" := (Spec.filled config model draws keys).

Hypothesis keys_inj : keys_injective keys.
Hypothesis pairs_nodup : NoDup (migration_pairs config (events model)).
Hypothesis sisters :
  forall pq,
    pq ∈ migration_pairs config (events model) ->
    exists t d anc,
      PopulationSplit t d anc ∈ events model /\
      Py.in_pair (fst pq) d = true /\ Py.in_pair (snd pq) d = true.

Lemma migration_pairs_app (l1 l2 : list Event) :
  migration_pairs config (l1 ++ l2)
  = migration_pairs config l1 ++ migration_pairs config l2.
Proof. apply omap_app. Qed.

Lemma filled_step (n : nat) (done_ rest : list Event) (e : Event)
    (st st' : starts_state) :
  done_ ++ e :: rest = events model ->
  filled (migration_start st) done_ n ->
  migration_start_event config model draws keys n st e = inr st' ->
  filled (migration_start st') (done_ ++ [e]) n.
Proof.
  intros Hall Hfilled. unfold migration_start_event.
  destruct (has_rate e) eqn:Hrate.
  2:{ intros [= <-]. intros pq key Hpq Hkey.
      rewrite migration_pairs_app. unfold migration_pairs at 2 4. simpl.
      rewrite Hrate, app_nil_r. by apply Hfilled. }
  destruct (migration_pair config e) as [?|pq0] eqn:Hpq0; simpl; [discriminate|].
  pose proof (find_ancestor_loop (fst pq0) (snd pq0) (events model)
                (ancestor st)) as Hfind.
  simpl in Hfind. unfold find_ancestor.
  destruct (fold_left _ (events model) (ancestor st)) as [anc|] eqn:Hanc;
    [|discriminate].
  destruct (draw_at draws anc n) as [?|ta] eqn:Hta; simpl; [discriminate|].
  destruct (draw_at draws (fst pq0) n) as [?|t1] eqn:Ht1; simpl; [discriminate|].
  destruct (draw_at draws (snd pq0) n) as [?|t2] eqn:Ht2; simpl; [discriminate|].
  destruct (migration_key keys pq0) as [?|key0] eqn:Hkey0; simpl; [discriminate|].
  intros [= <-]. simpl.
  assert (Hhere : migration_pairs config [e] = [pq0]).
  { unfold migration_pairs. simpl. by rewrite Hrate, Hpq0. }
  assert (Hfresh : pq0 ∉ migration_pairs config done_).
  { rewrite <- Hall in pairs_nodup.
    change (e :: rest) with ([e] ++ rest) in pairs_nodup.
    rewrite !migration_pairs_app, Hhere in pairs_nodup.
    apply NoDup_app in pairs_nodup as (_ & Hdis & _).
    intros Hin. apply (Hdis pq0 Hin). apply elem_of_app. left. by left. }
  intros pq key Hpq Hkey. rewrite migration_pairs_app, Hhere.
  destruct (decide (key0 = key)) as [<-|Hne].
  - (* the key of the event: one entry is appended *)
    pose proof (migration_key_injective keys pq pq0 key0 keys_inj Hkey Hkey0)
      as ->.
    rewrite lookup_insert_eq. simpl.
    destruct (Hfilled pq0 key0 Hpq Hkey0) as (Hold & _ & Hlen).
    specialize (Hlen Hfresh). simpl in Hold, Hlen.
    split_and!.
    + intros i s Hi Hs.
      destruct (decide (i < n)%nat) as [Hlt|Hge].
      * rewrite lookup_app_l in Hs by lia. apply Hold; [lia|done].
      * assert (i = n) as -> by lia.
        rewrite lookup_app_r, Hlen, Nat.sub_diag in Hs by lia.
        inversion Hs; subst s.
        destruct Hfind as [(t & d & anc' & [= <-] & Hin & H1 & H2)|[Hprev Hnone]].
        -- by exists t, d, anc, ta, t1, t2.
        -- (* the pair is one of the model, whose sister split exists *)
           destruct (sisters pq0 Hpq) as (t & d & anc' & Hin & H1 & H2).
           specialize (Hnone t d anc' Hin). rewrite H1, H2 in Hnone. done.
    + intros _. rewrite length_app, Hlen. simpl. lia.
    + intros Hnot. destruct Hnot. apply elem_of_app. right. by left.
  - rewrite lookup_insert_ne by done.
    destruct (Hfilled pq key Hpq Hkey) as (Hold & Hin & Hout).
    split_and!; [done| |].
    + intros Happ. apply Hin. apply elem_of_app in Happ as [H|H]; [done|].
      apply list_elem_of_singleton in H as ->.
      rewrite Hkey in Hkey0. by inversion Hkey0.
    + intros Happ. apply Hout. intros H. apply Happ, elem_of_app. by left.
Qed.

(** The loop over the events for replicate [n]. *)
Lemma filled_events (n : nat) :
  forall (rest done_ : list Event) (st st' : starts_state),
    done_ ++ rest = events model ->
    filled (migration_start st) done_ n ->
    Py.for_ rest (migration_start_event config model draws keys n) st
    = inr st' ->
    filled (migration_start st') (events model) n.
Proof.
  induction rest as [|e rest IH]; intros done_ st st' Hall Hfilled; simpl.
  - intros [= <-]. by rewrite app_nil_r in Hall; subst done_.
  - destruct (migration_start_event config model draws keys n st e)
      as [?|st1] eqn:He; simpl; [discriminate|].
    apply (IH (done_ ++ [e])); [by rewrite <- app_assoc|].
    by eapply filled_step.
Qed.

(** A replicate that is complete is the start of the next one. *)
Lemma filled_next (ms : gmap (nat * nat) (list Q)) (n : nat) :
  filled ms (events model) n -> filled ms [] (S n).
Proof.
  intros Hfilled pq key Hpq Hkey.
  destruct (Hfilled pq key Hpq Hkey) as (Hold & Hlen & _).
  specialize (Hlen Hpq). simpl in *. split_and!.
  - intros i s Hi Hs. apply Hold; [|done].
    apply lookup_lt_Some in Hs. lia.
  - intros Hin. by apply elem_of_nil in Hin.
  - done.
Qed.

(** The loop over the replicates. *)
Lemma filled_replicates :
  forall (count first : nat) (st st' : starts_state),
    filled (migration_start st) [] first ->
    Py.for_ (seq first count)
      (fun st rep =>
         Py.for_ (events model)
           (migration_start_event config model draws keys rep) st)
      st = inr st' ->
    filled (migration_start st') [] (first + count).
Proof.
  induction count as [|count IH]; intros first st st' Hfilled; simpl.
  - intros [= <-]. by rewrite Nat.add_0_r.
  - destruct (Py.for_ (events model) _ st) as [?|st1] eqn:Hrep; simpl;
      [discriminate|].
    intros Hrun. replace (first + S count)%nat with (S first + count)%nat by lia.
    apply (IH (S first) st1); [|done].
    apply filled_next. by apply (filled_events first (events model) [] st).
Qed.

(** [_get_migration_starts]: for every pair of a rate change, the list
    stored under its key holds, at every replicate, the midpoint formula
    of that replicate. *)
Lemma migration_starts_spec (starts : gmap (nat * nat) (list Q)) :
  _get_migration_starts config model draws keys = inr starts ->
  forall pq key l rep s,
    pq ∈ migration_pairs config (events model) ->
    migration_key keys pq = inr key ->
    starts !! key = Some l ->
    l !! rep = Some s ->
    start_of model draws pq rep s.
Proof.
  unfold _get_migration_starts.
  destruct (Py.for_ (seq 0 (replicates config)) _ _) as [?|st] eqn:Hrun; simpl;
    [discriminate|].
  intros [= <-] pq key l rep s Hpq Hkey Hl Hs.
  apply filled_replicates in Hrun.
  - destruct (Hrun pq key Hpq Hkey) as (Hold & _ & Hlen).
    rewrite Hl in Hold, Hlen. simpl in Hold, Hlen.
    apply Hold; [|done]. apply lookup_lt_Some in Hs.
    rewrite Hlen in Hs; [lia|]. intros Hin. by apply elem_of_nil in Hin.
  - intros pq' key' _ _. simpl. rewrite lookup_empty. simpl. split_and!.
    + intros i s' _ Hnil. by rewrite lookup_nil in Hnil.
    + intros Hin. by apply elem_of_nil in Hin.
    + done.
Qed.

End Starts.

End StartFacts.

Module GeneFlowFacts.

Import Spec.

Import Dendropy Msprime.
Import Enumerate Sampler FloatFacts SamplerFacts StartFacts ReplicateFacts.

Lemma insert_event_elem (e x : Event) (l : list Event) :
  x ∈ insert_event e l <-> x = e \/ x ∈ l.
Proof.
  induction l as [|y l IH]; simpl.
  - rewrite list_elem_of_singleton, elem_of_nil. tauto.
  - destruct (Float.leb (time e) (time y)).
    + by rewrite elem_of_cons.
    + rewrite !elem_of_cons, IH. tauto.
Qed.

(** Sorting the events neither adds nor drops an event. *)
Lemma sort_events_elem (x : Event) (d : Demography) :
  x ∈ events (sort_events d) <-> x ∈ events d.
Proof.
  unfold sort_events. simpl. induction (events d) as [|e l IH]; simpl; [done|].
  rewrite insert_event_elem, elem_of_cons, IH. tauto.
Qed.

Section Assign.

Variable config : Config.
Variable draws : gmap string (list Q).
Variable keys : gmap string nat.
Variable starts rates : gmap (nat * nat) (list Q).
Variable rep : nat.

(** What the loop of [_draw_parameters_dwg] over the events does to a
    split and to a rate change. *)
Lemma assign_event_dwg_split (t : Float.t) (d : string * string) (a : string)
    (e' : Event) :
  assign_event_dwg config draws keys starts rates rep (PopulationSplit t d a)
  = inr e' ->
  exists v, draw_at draws a rep = inr v /\
            e' = PopulationSplit (Float.Fin v) d a.
Proof.
  simpl. destruct (draw_at draws a rep) as [?|v]; simpl; [discriminate|].
  intros [= <-]. by exists v.
Qed.

Lemma migration_pair_set (e : Event) (t : Float.t) (r : Q) :
  migration_pair config (set_rate r (set_time t e)) = migration_pair config e.
Proof. unfold migration_pair. by destruct e, (symmetric config). Qed.

Lemma assign_event_dwg_rate (e e' : Event) :
  assign_event_dwg config draws keys starts rates rep e = inr e' ->
  has_rate e' = true ->
  has_rate e = true /\
  exists pq key l start,
    migration_pair config e = inr pq /\
    migration_pair config e' = inr pq /\
    migration_key keys pq = inr key /\
    starts !! key = Some l /\ l !! rep = Some start /\
    time e' = Float.Fin start.
Proof.
  destruct e as [t d a|t src dst r|t pops r].
  - intros H. by apply assign_event_dwg_split in H as (v & _ & ->).
  - unfold assign_event_dwg.
    destruct (migration_pair config _) as [?|pq] eqn:Hpq; simpl; [discriminate|].
    destruct (migration_key keys pq) as [?|key] eqn:Hkey; simpl; [discriminate|].
    unfold Py.getitem2 at 1.
    destruct (starts !! key) as [l|] eqn:Hl; simpl; [|discriminate].
    unfold Py.index at 1.
    destruct (l !! rep) as [start|] eqn:Hstart; simpl; [|discriminate].
    destruct (Py.getitem2 rates key) as [?|rl]; simpl; [discriminate|].
    destruct (Py.index rl rep) as [?|rate]; simpl; [discriminate|].
    intros [= <-] _. split; [done|].
    by exists pq, key, l, start.
  - unfold assign_event_dwg.
    destruct (migration_pair config _) as [?|pq] eqn:Hpq; simpl; [discriminate|].
    destruct (migration_key keys pq) as [?|key] eqn:Hkey; simpl; [discriminate|].
    unfold Py.getitem2 at 1.
    destruct (starts !! key) as [l|] eqn:Hl; simpl; [|discriminate].
    unfold Py.index at 1.
    destruct (l !! rep) as [start|] eqn:Hstart; simpl; [|discriminate].
    destruct (Py.getitem2 rates key) as [?|rl]; simpl; [discriminate|].
    destruct (Py.index rl rep) as [?|rate]; simpl; [discriminate|].
    intros [= <-] _. split; [done|].
    by exists pq, key, l, start.
Qed.

Lemma assign_event_dwg_kind (e e' : Event) :
  assign_event_dwg config draws keys starts rates rep e = inr e' ->
  has_rate e' = has_rate e.
Proof.
  destruct (has_rate e') eqn:Hrate.
  - intros H. by apply assign_event_dwg_rate in H as [-> _].
  - destruct e as [t d a|t src dst r|t pops r]; [done| |];
      unfold assign_event_dwg;
      repeat (match goal with
              | |- context [Py.bind ?c _] =>
                  destruct c as [?|?]; simpl; [discriminate|]
              end);
      intros [= <-]; done.
Qed.

(** The splits of the replicate are the splits of the model, with the
    drawn times. *)
Lemma assigned_splits (evs evs' : list Event) :
  Py.map_ (assign_event_dwg config draws keys starts rates rep) evs = inr evs' ->
  (forall t d a, PopulationSplit t d a ∈ evs ->
     exists v, draw_at draws a rep = inr v /\
               PopulationSplit (Float.Fin v) d a ∈ evs') /\
  (forall t d a, PopulationSplit t d a ∈ evs' ->
     exists t0, PopulationSplit t0 d a ∈ evs).
Proof.
  intros Hmap. apply map_inr in Hmap. split.
  - intros t d a Hin. apply list_elem_of_lookup in Hin as [i Hi].
    destruct (Forall2_lookup_l _ _ _ _ _ Hmap Hi) as (e' & He' & Hassign).
    apply assign_event_dwg_split in Hassign as (v & Hv & ->).
    exists v. split; [done|]. by apply list_elem_of_lookup_2 in He'.
  - intros t d a Hin. apply list_elem_of_lookup in Hin as [i Hi].
    destruct (Forall2_lookup_r _ _ _ _ _ Hmap Hi) as (e & He & Hassign).
    destruct e as [t0 d0 a0|t0 src dst r0|t0 pops r0].
    + apply assign_event_dwg_split in Hassign as (v & _ & [= -> -> ->]).
      exists t0. by apply list_elem_of_lookup_2 in He.
    + by apply assign_event_dwg_kind in Hassign.
    + by apply assign_event_dwg_kind in Hassign.
Qed.

End Assign.

Lemma ancestral_names_elem (evs : list Event) (t : Float.t)
    (d : string * string) (a : string) :
  PopulationSplit t d a ∈ evs -> a ∈ ancestral_names evs.
Proof.
  intros Hin. unfold ancestral_names. apply list_elem_of_omap.
  by exists (PopulationSplit t d a).
Qed.

Lemma migration_pairs_elem (config : Config) (evs : list Event) (e : Event)
    (pq : string * string) :
  e ∈ evs -> has_rate e = true -> migration_pair config e = inr pq ->
  pq ∈ migration_pairs config evs.
Proof.
  intros Hin Hrate Hpq. unfold migration_pairs. apply list_elem_of_omap.
  exists e. by rewrite Hrate, Hpq.
Qed.

Section WithGenerator.

Variable rng : Type.
Variable random_uniform : Q -> Q -> rng -> Q * rng.

(** Every key of the index dict is the name of the population at that
    position, so two names never share an index. *)
Lemma population_size_keys_injective (config : Config) (model : Demography)
    (population_sizes : gmap string (Z * Z)) (g g' : rng)
    (sk : gmap string (list Q) * gmap string nat) :
  _draw_population_sizes rng random_uniform config model population_sizes g
  = inr (sk, g') ->
  keys_injective (snd sk).
Proof.
  unfold _draw_population_sizes. intros Hrun.
  set (named := fun keys : gmap string nat =>
         forall nm i, keys !! nm = Some i ->
           exists p, populations model !! i = Some p /\ name p = nm).
  enough (Hnamed : named (snd sk)).
  { intros n1 n2 i H1 H2.
    destruct (Hnamed n1 i H1) as (p1 & Hp1 & <-).
    destruct (Hnamed n2 i H2) as (p2 & Hp2 & <-). congruence. }
  revert Hrun.
  assert (Hl : Forall (fun ip => populations model !! fst ip = Some (snd ip))
                 (imap (fun index population => (index, population))
                    (populations model))).
  { apply Forall_forall. intros [i p] Hin.
    apply elem_of_lookup_imap in Hin as (i' & p' & [= -> ->] & Hp). done. }
  assert (H0 : named (snd (∅ : gmap string (list Q), ∅ : gmap string nat))).
  { intros nm i Hnm. simpl in Hnm. by rewrite lookup_empty in Hnm. }
  revert Hl H0.
  generalize (imap (fun index population => (index, population))
                (populations model)).
  generalize (∅ : gmap string (list Q), ∅ : gmap string nat).
  intros st l. revert st g.
  induction l as [|[i p] l IH]; intros st g Hl H0; simpl.
  - unfold mret. by intros [= <- _].
  - apply Forall_cons in Hl as [Hp Hl]. simpl in Hp.
    unfold mbind at 1. unfold mbind at 1, lift, Py.getitem.
    destruct (population_sizes !! name p) as [prior|]; [|discriminate].
    unfold mbind at 1.
    destruct (uniform_size _ _ _ _ _ _) as [?|[ds g1]]; [discriminate|].
    unfold mret at 1. apply IH; [done|]. simpl.
    intros nm j Hnm. destruct (decide (name p = nm)) as [<-|Hne].
    + rewrite lookup_insert_eq in Hnm. inversion Hnm; subst j. by exists p.
    + rewrite lookup_insert_ne in Hnm by done. by apply H0.
Qed.

Hypothesis uniform_range :
  forall lo hi g,
    (lo <= hi)%Q ->
    (lo <= fst (random_uniform lo hi g))%Q /\
    (fst (random_uniform lo hi g) <= hi)%Q.


End WithGenerator.

End GeneFlowFacts.

Module ScenarioFacts.

Import Spec.

Import Enumerate Sampler.

(** Under asymmetric migration nothing binds [to_include]: the first
    topology whose candidate search returns makes the function raise. *)
Lemma asymmetric_never_binds (config : Config)
    (find : Config -> Demography -> Py.result (list (string * string)))
    (add_pair : Config -> Demography -> string * string -> Py.result Demography)
    (item : Demography) (rest : list Demography) (found : list (string * string)) :
  symmetric config = false ->
  find config item = inr found ->
  create_migration_demographies config find add_pair (item :: rest)
  = inl (Py.UnboundLocalError "to_include").
Proof.
  intros Hsym Hfound. unfold create_migration_demographies. simpl.
  by rewrite Hfound, Hsym.
Qed.

(** The three topologies of the scenario, by the number of their
    splits: [X] collapsed, both collapsed, none collapsed. *)
Lemma scenario_topologies (sym : bool) :
  match _create_divergence_demographies (Trees.scenario sym) with
  | inr divs => map (fun d => length (events d)) divs = [1; 0; 2]%nat
  | inl _ => False
  end.
Proof. destruct sym; by vm_compute. Qed.

(** Under symmetric migration the scenario has one secondary contact
    topology, with one migration event between A and B. *)
Lemma symmetric_scenario :
  match build_models (Trees.scenario true) with
  | inr models =>
      map (fun d => filter (fun e => has_rate e = true) (events d))
        (sc_demographies models)
      = [[SymmetricMigrationRateChange (Float.Fin 100) ("A", "B") 0]]
  | inl _ => False
  end.
Proof. by vm_compute. Qed.

(** C2.  For the tree [((A,B)X,C)R] with secondary contact enabled,
    asymmetric migration and at most one migration event, the divergence
    topologies are built, and then [_create_sc_demographies] raises
    [UnboundLocalError]: [to_include] is assigned only in the symmetric
    branch.  No topology with a migration event from A to B or from B to
    A is produced, and [build_models] fails as a whole. *)
Theorem C2_asymmetric_secondary_contact_raises :
  (exists divs,
     _create_divergence_demographies (Trees.scenario false) = inr divs /\
     _create_sc_demographies (Trees.scenario false) divs
     = inl (Py.UnboundLocalError "to_include")) /\
  build_models (Trees.scenario false) = inl (Py.UnboundLocalError "to_include").
Proof.
  split; [|by vm_compute].
  destruct (_create_divergence_demographies (Trees.scenario false))
    as [e|divs] eqn:Hdivs; [by vm_compute in Hdivs|].
  exists divs. split; [done|].
  vm_compute in Hdivs. inversion Hdivs; subst divs. by vm_compute.
Qed.

End ScenarioFacts.

Module OrderFacts.

Import Spec.

Import Enumerate Sampler.

(** Insertion keeps a chronological list chronological. *)
Lemma insert_event_chronological (e : Event) (l : list Event) :
  chronological l = true -> chronological (insert_event e l) = true.
Proof.
  induction l as [|x l IH]; [done|]. intros Hl.
  cbn [insert_event]. destruct (Float.leb (time e) (time x)) eqn:Hle.
  - cbn [chronological]. by rewrite Hle.
  - apply FloatFacts.leb_total in Hle.
    destruct l as [|y l].
    + cbn. by rewrite Hle.
    + cbn [chronological] in Hl. apply andb_true_iff in Hl as [Hxy Hl].
      specialize (IH Hl). cbn [insert_event] in *.
      destruct (Float.leb (time e) (time y)).
      * cbn [chronological] in *. by rewrite Hle, IH.
      * cbn [chronological] in *. by rewrite Hxy, IH.
Qed.

(** [sort_events] leaves the events in non-decreasing order of time. *)
Lemma sort_events_chronological (d : Demography) :
  chronological (events (sort_events d)) = true.
Proof.
  unfold sort_events. simpl. induction (events d) as [|e l IH]; [done|].
  simpl. by apply insert_event_chronological.
Qed.

Section WithGenerator.

Variable rng : Type.
Variable random_uniform : Q -> Q -> rng -> Q * rng.

(** What does hold: every replicate of a gene flow
    model has its events in non-decreasing order of time. *)
Lemma dwg_replicates_chronological (config : Config)
    (population_sizes divergence_times : gmap string (Z * Z))
    (original_model : Demography) (g g' : rng)
    (replicates_ : list Demography) (rep : nat) (r : Demography) :
  parameterize_dwg rng random_uniform config population_sizes divergence_times
    original_model g = inr (replicates_, g') ->
  replicates_ !! rep = Some r ->
  chronological (events r) = true.
Proof.
  unfold parameterize_dwg. intros Hrun Hr.
  repeat (unfold mbind at 1 in Hrun;
          match type of Hrun with
          | match ?c with _ => _ end = _ =>
              destruct c as [?|[? ?]]; [discriminate|]
          end).
  unfold lift in Hrun.
  destruct (Py.map_ _ (seq 0 (replicates config))) as [?|reps] eqn:Hreps;
    [discriminate|].
  inversion Hrun; subst; clear Hrun.
  apply map_inr in Hreps.
  destruct (Forall2_lookup_r _ _ _ _ _ Hreps Hr) as (i & _ & Hbody).
  destruct (assign_sizes _ _ _) as [?|sized]; simpl in Hbody; [discriminate|].
  destruct (Py.map_ _ (events sized)) as [?|evs]; simpl in Hbody; [discriminate|].
  inversion Hbody. apply sort_events_chronological.
Qed.

End WithGenerator.


End OrderFacts.

Module WriterFacts.

Import Spec.

Import Enumerate Sampler.

(** What does hold: every migration entry written by
    [_get_scinfo] has an end time whose relation is the minimum over the
    time keys of the divergences, divided by two. *)
Lemma sc_relations (config : Config) (model : nat * list Demography)
    (yaml_dict y : Yaml.dict) :
  Writer._get_scinfo config model yaml_dict = inr y ->
  exists migrations relations,
    Yaml.migrations y = Some migrations /\
    Yaml.relations y = Some relations /\
    forall m, m ∈ migrations ->
      exists key, Yaml.end_time m = Some key /\
                  relations !! key
                  = Some (String.append "min("
                            (String.append
                               (String.concat ","
                                  (map Yaml.time (Yaml.divergences yaml_dict)))
                               ")/2")).
Proof.
  unfold Writer._get_scinfo.
  destruct (Writer.first_replicate model) as [?|m0]; simpl; [discriminate|].
  intros [= <-]. eexists _, _. split; [done|]. split; [done|].
  generalize (events m0). intros evs.
  set (good := fun acc : Writer.mig_acc =>
         forall m, m ∈ Writer.migration acc ->
           exists key, Yaml.end_time m = Some key /\
                       Writer.relations acc !! key
                       = Some (Writer.sc_relation yaml_dict)).
  enough (Hgen : forall acc,
             good acc ->
             good (fold_left (Writer.scinfo_step config yaml_dict) evs acc)).
  { apply Hgen. intros m Hin. by apply elem_of_nil in Hin. }
  induction evs as [|e evs IH]; intros acc Hacc; [done|].
  simpl. apply IH. unfold Writer.scinfo_step. destruct (has_rate e); [|done].
  intros m Hin. simpl in *. apply elem_of_app in Hin as [Hin|Hin].
  - destruct (Hacc m Hin) as (key & Hkey & Hrel). exists key. split; [done|].
    match goal with |- <[?k := _]> _ !! _ = _ =>
      destruct (decide (k = key)) as [->|Hne] end.
    + by rewrite lookup_insert_eq.
    + by rewrite lookup_insert_ne.
  - apply list_elem_of_singleton in Hin as ->. simpl.
    eexists. split; [done|]. by rewrite lookup_insert_eq.
Qed.


End WriterFacts.

Module ReaderFacts.

Import Spec.

Import Enumerate Sampler.

(** Whatever [read_yaml] is given, its value is [None]; and the dict
    [migration_times] is empty at the end of the body of its loop. *)
Lemma reader_stores_no_times (rng : Type)
    (random_uniform : Q -> Q -> rng -> Q * rng) (replicates fuel : nat)
    (yaml_info : Yaml.dict) (carried : option (list Q) * option (list string))
    (g g' : rng) (l : Reader.locals) :
  Reader.read_yaml_file rng random_uniform replicates fuel yaml_info carried g
  = Some (inr (l, g')) ->
  Reader.migration_times l = ∅.
Proof.
  unfold Reader.read_yaml_file.
  destruct (Reader.draw_sizes _ _ _ _ _) as [?|[sizes g1]]; [discriminate|].
  destruct (Reader.order_divergences _ _) as [[?|ordered]|]; try discriminate.
  intros H. inversion H as [Hrun]. clear H. revert Hrun.
  unfold mbind at 1. destruct (mfor ordered _ _ g1) as [?|[dt g2]]; [discriminate|].
  unfold mbind at 1.
  match goal with
  | |- match ?c with _ => _ end = _ -> _ =>
      destruct c as [?|[mg g3]]; [discriminate|]
  end.
  unfold mret. by intros [= <- _].
Qed.

(** C4.  The schema written for the secondary contact model of the
    scenario has one migration entry, whose end time is the relation
    [min(Tdiv_X,Tdiv_R)/2].  Reading it draws the sizes, the divergence
    times and the migration rate, and splits the relation into its keys;
    it evaluates nothing: [migration_times] is still empty when the body
    of the loop ends, and [read_yaml] returns [None], not a batch of
    replicates. *)
Theorem C4_reader_drops_migration_times :
  option_map length (Yaml.migrations Examples.sc_schema) = Some 1%nat /\
  Spec.relation_of (inr Examples.sc_schema) "Tmigend_A_B"
  = Some "min(Tdiv_X,Tdiv_R)/2" /\
  match Examples.sc_read with
  | Some (inr (l, _)) =>
      Reader.migration_times l = ∅ /\
      Reader.mintimes l = Some ["Tdiv_X"; "Tdiv_R"] /\
      dom (Reader.migration_rates l) = {["Mig_A_B"]}
  | _ => False
  end /\
  returned (Reader.read_yaml (list Q) Sampler.scripted 2 10
              [Examples.sc_schema] Examples.script_sR)
  = Some (inr tt).
Proof.
  split_and!; by vm_compute.
Qed.


End ReaderFacts.

Module ReaderOrderFacts.

Import Spec Enumerate.

(** The inner loop of [find_dependencies] for one divergence. *)
Lemma inner_dependency (d : Yaml.divergence) :
  forall (l : list Yaml.divergence) (deps : gmap string (option string))
         (o : option string),
    deps !! Yaml.ancestral d = Some o ->
    exists o',
      fold_left
        (fun deps divergence2 =>
           if Py.in_pair (Yaml.ancestral divergence2) (Yaml.derived d)
           then <[Yaml.ancestral d := Some (Yaml.ancestral divergence2)]> deps
           else deps)
        l deps !! Yaml.ancestral d = Some o' /\
      (forall k, k ≠ Yaml.ancestral d ->
         fold_left
           (fun deps divergence2 =>
              if Py.in_pair (Yaml.ancestral divergence2) (Yaml.derived d)
              then <[Yaml.ancestral d := Some (Yaml.ancestral divergence2)]> deps
              else deps)
           l deps !! k = deps !! k) /\
      (o' = o \/
       exists x, o' = Some x /\ x ∈ map Yaml.ancestral l /\
                 Py.in_pair x (Yaml.derived d) = true).
Proof.
  induction l as [|d2 l IH]; intros deps o Ho; simpl.
  - exists o. split_and!; auto.
  - destruct (Py.in_pair (Yaml.ancestral d2) (Yaml.derived d)) eqn:Hin.
    + destruct (IH (<[Yaml.ancestral d := Some (Yaml.ancestral d2)]> deps)
                  (Some (Yaml.ancestral d2)))
        as (o' & Ho' & Hother & Hwho); [by rewrite lookup_insert_eq|].
      exists o'. split_and!; [done| |].
      * intros k Hk. rewrite Hother by done. by rewrite lookup_insert_ne.
      * right. destruct Hwho as [->|(x & -> & Hx & Hd)].
        -- exists (Yaml.ancestral d2). split_and!; [done|by left|done].
        -- exists x. split_and!; [done|by right|done].
    + destruct (IH deps o Ho) as (o' & Ho' & Hother & Hwho).
      exists o'. split_and!; [done..|].
      destruct Hwho as [->|(x & -> & Hx & Hd)]; [by left|].
      right. exists x. split_and!; [done|by right|done].
Qed.

(** The outer loop of [find_dependencies] over a part [l] of the list
    [all]. *)
Lemma outer_dependency (all : list Yaml.divergence) :
  forall (l : list Yaml.divergence) (deps : gmap string (option string)),
    NoDup (map Yaml.ancestral l) ->
    forall d, d ∈ l ->
      exists o,
        fold_left
          (fun deps divergence =>
             fold_left
               (fun deps divergence2 =>
                  if Py.in_pair (Yaml.ancestral divergence2)
                       (Yaml.derived divergence)
                  then <[Yaml.ancestral divergence
                         := Some (Yaml.ancestral divergence2)]> deps
                  else deps)
               all (<[Yaml.ancestral divergence := None]> deps))
          l deps !! Yaml.ancestral d = Some o /\
        (o = None \/
         exists x, o = Some x /\ x ∈ map Yaml.ancestral all /\
                   Py.in_pair x (Yaml.derived d) = true).
Proof.
  induction l as [|d0 l IH]; intros deps Hnd d Hd.
  - by apply elem_of_nil in Hd.
  - simpl in Hnd. apply NoDup_cons in Hnd as [Hfresh Hnd]. simpl.
    destruct (inner_dependency d0 all (<[Yaml.ancestral d0 := None]> deps) None)
      as (o0 & Ho0 & _ & Hwho0); [by rewrite lookup_insert_eq|].
    apply elem_of_cons in Hd as [->|Hd]; [|by apply IH].
    (* the later iterations write other keys *)
    clear IH. revert Ho0.
    generalize (fold_left
      (fun deps divergence2 =>
         if Py.in_pair (Yaml.ancestral divergence2) (Yaml.derived d0)
         then <[Yaml.ancestral d0 := Some (Yaml.ancestral divergence2)]> deps
         else deps)
      all (<[Yaml.ancestral d0 := None]> deps)) as deps1.
    induction l as [|d1 l IH]; intros deps1 Ho0; simpl.
    + exists o0. split; [done|].
      destruct Hwho0 as [->|Hx]; [by left|by right].
    + simpl in Hnd, Hfresh. apply NoDup_cons in Hnd as [_ Hnd].
      apply not_elem_of_cons in Hfresh as [Hne Hfresh].
      apply IH; [done..|].
      destruct (inner_dependency d1 all (<[Yaml.ancestral d1 := None]> deps1)
                  None) as (o1 & _ & Hother1 & _);
        [by rewrite lookup_insert_eq|].
      rewrite Hother1 by done. by rewrite lookup_insert_ne.
Qed.

(** [find_dependencies]: the entry of a divergence is [None] or names a
    derived population of it that is an ancestral population of the
    list. *)
Lemma find_dependencies_spec (divergences : list Yaml.divergence) :
  NoDup (map Yaml.ancestral divergences) ->
  forall d, d ∈ divergences ->
    exists o,
      Reader.find_dependencies divergences !! Yaml.ancestral d = Some o /\
      (o = None \/
       exists x, o = Some x /\ x ∈ map Yaml.ancestral divergences /\
                 Py.in_pair x (Yaml.derived d) = true).
Proof. intros Hnd d Hd. by apply outer_dependency. Qed.

(** One pass over a list in dependency order appends every divergence,
    in the order of the list. *)
Lemma order_pass_ordered (divergences : list Yaml.divergence) :
  dependency_ordered divergences ->
  forall rest before,
    divergences = before ++ rest ->
    Reader.order_pass (Reader.find_dependencies divergences) rest
      (before, map Yaml.ancestral before)
    = inr (divergences, map Yaml.ancestral divergences).
Proof.
  intros [Hnd Hdep]. unfold Reader.order_pass.
  induction rest as [|d rest IH]; intros before Heq.
  - rewrite app_nil_r in Heq. by subst.
  - cbn [Py.for_].
    destruct (find_dependencies_spec divergences Hnd d) as (o & Ho & Hwho).
    { rewrite Heq. apply elem_of_app. right. by left. }
    unfold Py.getitem at 1. rewrite Ho. cbn [Py.bind fst snd].
    assert (Hready : match o with
                     | None => true
                     | Some x => bool_decide (x ∈ map Yaml.ancestral before)
                     end = true).
    { destruct Hwho as [->|(x & -> & Hx & Hd)]; [done|].
      apply bool_decide_eq_true_2. by eapply Hdep. }
    assert (Hfresh : bool_decide (Yaml.ancestral d ∉ map Yaml.ancestral before)
                     = true).
    { apply bool_decide_eq_true_2. intros Hin.
      rewrite Heq, map_app in Hnd. apply NoDup_app in Hnd as (_ & Hdis & _).
      apply (Hdis _ Hin). simpl. by left. }
    rewrite Hready, Hfresh. cbn [andb Py.ret Py.bind].
    replace (map Yaml.ancestral before ++ [Yaml.ancestral d])
      with (map Yaml.ancestral (before ++ [d])) by by rewrite map_app.
    apply IH. by rewrite <- app_assoc.
Qed.

(** On a list that is in dependency order the reader samples in the
    order of the list.  This is the case of the lists the writer makes,
    where a split always comes after the splits of its derived
    populations. *)
Lemma reader_keeps_dependency_order (fuel : nat)
    (divergences : list Yaml.divergence) :
  dependency_ordered divergences ->
  Reader.order_divergences (S fuel) divergences = Some (inr divergences).
Proof.
  intros Hord. unfold Reader.order_divergences.
  cbn [Reader.order_loop fst length].
  destruct divergences as [|d divergences]; [done|].
  cbn [length Nat.ltb Nat.leb].
  pose proof (order_pass_ordered _ Hord (d :: divergences) [] eq_refl) as Hpass.
  change (map Yaml.ancestral []) with (@nil string) in Hpass. rewrite Hpass.
  destruct fuel; cbn [Reader.order_loop fst]; by rewrite Nat.ltb_irrefl.
Qed.

(** The round trip of the resolved topology of
    [(((A,B)Y,C)Z,(D,E)X)R]: the reader's order is the sampler's. *)
Lemma ladder_round_trip :
  reader_order 10 (Yaml.divergences Examples.ladder_schema)
  = Some (inr (Sampler.ancestral_names (events Examples.resolved_tR))).
Proof. by vm_compute. Qed.

(** The round trip of the gene flow model of [((A,B)X,(C,D)Y)R], whose
    first replicate was sorted by its times X = 500, Y = 300: the
    sampler drew X before Y, the reader draws Y before X.  Both orders
    put R last. *)
Lemma gene_flow_round_trip :
  Sampler.ancestral_names (events Examples.dwg_bR) = ["X"; "Y"; "R"] /\
  match Examples.dwg_schema with
  | inr y => reader_order 10 (Yaml.divergences y)
             = Some (inr ["Y"; "X"; "R"])
  | inl _ => False
  end.
Proof. split; by vm_compute. Qed.

End ReaderOrderFacts.

Module BuilderFacts.

Import Spec Enumerate Sampler.

Lemma populations_loop_events (combo : list tree) :
  forall (l : list tree) (d0 d : Demography),
    Py.for_ l
      (fun demography internal_node =>
         if bool_decide (internal_node ∉ combo) then
           d <- _get_derived_populations internal_node ;;
           Py.ret (add_population (snd d) pop_size_holder
                     (add_population (fst d) pop_size_holder demography))
         else Py.ret demography)
      d0 = inr d ->
    events d = events d0.
Proof.
  intros l d0 d.
  apply (for_invariant (fun d => events d = events d0)); [done|].
  intros d1 node d2 _ Hd1. destruct (bool_decide (node ∉ combo)).
  - destruct (_get_derived_populations node) as [?|pq]; simpl; [discriminate|].
    by intros [= <-].
  - by intros [= <-].
Qed.

Lemma splits_loop_events (combo : list tree) :
  forall (l : list tree) (d0 d : Demography),
    Py.for_ l
      (fun demography internal_node =>
         if bool_decide (internal_node ∉ combo) then
           d <- _get_derived_populations internal_node ;;
           Py.ret (add_event
                     (PopulationSplit (Float.Fin div_time_holder) d
                        (label_of internal_node))
                     demography)
         else Py.ret demography)
      d0 = inr d ->
    events d = events d0 ++ map split_of (filter (fun n => n ∉ combo) l).
Proof.
  induction l as [|node l IH]; intros d0 d; simpl.
  - intros [= <-]. by rewrite app_nil_r.
  - rewrite filter_cons. destruct (decide (node ∉ combo)) as [Hin|Hin].
    + rewrite bool_decide_eq_true_2 by done.
      destruct node as [taxon ne|label ne div c1 c2]; simpl; [discriminate|].
      intros Hrun. apply IH in Hrun. rewrite Hrun. simpl.
      by rewrite <- app_assoc.
    + rewrite bool_decide_eq_false_2 by done. simpl. apply IH.
Qed.

(** The events of the topology built for a combo: one split, at the
    placeholder time, for every internal node that is not collapsed, in
    postorder. *)
Lemma divergence_demography_events (species_tree : tree) (combo : list tree)
    (d : Demography) :
  divergence_demography species_tree combo = inr d ->
  events d
  = map split_of
      (filter (fun n => n ∉ combo) (postorder_internal_node_iter species_tree)).
Proof.
  unfold divergence_demography.
  destruct (Py.for_ _ _ Msprime.new) as [?|d0] eqn:Hpops; simpl; [discriminate|].
  apply populations_loop_events in Hpops.
  intros Hrun. apply splits_loop_events in Hrun. rewrite Hrun. simpl.
  by rewrite Hpops.
Qed.

Lemma ancestral_names_splits (l : list tree) :
  ancestral_names (map split_of l) = map label_of l.
Proof.
  induction l as [|node l IH]; [done|].
  simpl. rewrite <- IH. by destruct node.
Qed.

(** When the internal nodes of the tree carry distinct labels, every
    divergence-only topology is a model of the kind the sampler's
    invariant is stated for. *)
Lemma divergence_demography_sampleable (species_tree : tree)
    (combo : list tree) (d : Demography) :
  NoDup (map label_of (postorder_internal_node_iter species_tree)) ->
  divergence_demography species_tree combo = inr d ->
  NoDup (ancestral_names (events d)) /\
  (forall e, e ∈ events d -> Float.nonzero (time e) = true).
Proof.
  intros Hnd Hd. apply divergence_demography_events in Hd. rewrite Hd. split.
  - rewrite ancestral_names_splits.
    apply (sublist_NoDup _ _ Hnd).
    apply (fmap_sublist label_of), sublist_filter.
  - intros e He. apply list_elem_of_In, in_map_iff in He as (node & <- & _).
    by destruct node.
Qed.

Lemma insert_event_permutation (e : Event) (l : list Event) :
  insert_event e l ≡ₚ e :: l.
Proof.
  induction l as [|x l IH]; [done|]. simpl.
  destruct (Float.leb (time e) (time x)); [done|].
  rewrite IH. apply Permutation_swap.
Qed.

Lemma sort_events_permutation (d : Demography) :
  events (sort_events d) ≡ₚ events d.
Proof.
  unfold sort_events. simpl. induction (events d) as [|e l IH]; [done|].
  simpl. by rewrite insert_event_permutation, IH.
Qed.

Lemma set_rate_events (d d' : Demography) (p q : string) (rate : Q) :
  set_migration_rate p q rate d = inr d' \/
  set_symmetric_migration_rate (p, q) rate d = inr d' ->
  events d' = events d.
Proof.
  unfold set_migration_rate, set_symmetric_migration_rate. simpl.
  destruct (population_id d p) as [?|i]; simpl; [by intros [|]|].
  destruct (population_id d q) as [?|j]; simpl; [by intros [|]|].
  by intros [[= <-]|[= <-]].
Qed.

(** Both builders of migration models add, for a pair, one rate change
    at the placeholder time. *)
Lemma add_pair_events (config : Config) (d d' : Demography)
    (populationpair : string * string) :
  sc_add_pair config d populationpair = inr d' \/
  dwg_add_pair config d populationpair = inr d' ->
  exists e,
    events d' = events d ++ [e] /\ has_rate e = true /\
    Float.nonzero (time e) = true.
Proof.
  unfold sc_add_pair, dwg_add_pair. destruct populationpair as [p q]. simpl.
  intros [H|H]; destruct (symmetric config).
  - destruct (set_symmetric_migration_rate _ _ _) as [?|d1] eqn:Hd1;
      simpl in H; [discriminate|].
    inversion H; subst. eexists. simpl.
    rewrite (set_rate_events d d1 p q _ (or_intror Hd1)). by split_and!.
  - destruct (set_migration_rate _ _ _ _) as [?|d1] eqn:Hd1;
      simpl in H; [discriminate|].
    inversion H; subst. eexists. simpl.
    rewrite (set_rate_events d d1 p q _ (or_introl Hd1)). by split_and!.
  - inversion H; subst. eexists. by split_and!.
  - inversion H; subst. eexists. by split_and!.
Qed.

Lemma sampleable_add (d d' : Demography) (e : Event) :
  events d' = events d ++ [e] -> has_rate e = true ->
  Float.nonzero (time e) = true ->
  sampleable d -> sampleable d'.
Proof.
  intros Hev Hrate Hnz [Hnd Htimes]. unfold sampleable. rewrite Hev. split.
  - unfold ancestral_names. rewrite omap_app.
    destruct e; [done|simpl; by rewrite app_nil_r..].
  - intros x Hx. apply elem_of_app in Hx as [Hx|Hx]; [by apply Htimes|].
    by apply list_elem_of_singleton in Hx as ->.
Qed.

Lemma sampleable_sort (d : Demography) :
  sampleable d -> sampleable (sort_events d).
Proof.
  intros [Hnd Htimes]. split.
  - unfold ancestral_names. by rewrite sort_events_permutation.
  - intros e He. apply Htimes. by rewrite <- sort_events_permutation.
Qed.

(** The migration models made from models of that kind are of that kind
    too. *)
Lemma migration_models_sampleable (config : Config)
    (find : Config -> Demography -> Py.result (list (string * string)))
    (add_pair : Config -> Demography -> string * string -> Py.result Demography)
    (divs out : list Demography) :
  add_pair = sc_add_pair \/ add_pair = dwg_add_pair ->
  Forall sampleable divs ->
  create_migration_demographies config find add_pair divs = inr out ->
  Forall sampleable out.
Proof.
  intros Hadd Hdivs. unfold create_migration_demographies.
  destruct (Py.for_ divs _ _) as [?|st] eqn:Hrun; simpl; [discriminate|].
  intros [= <-]. revert Hrun.
  apply (for_invariant (fun st => Forall sampleable (migration_demographies st)));
    [by constructor|].
  intros st0 item st1 Hitem Hst0.
  destruct (find config item) as [?|found]; simpl; [discriminate|].
  match goal with
  | |- match ?o with _ => _ end = _ -> _ =>
      destruct o as [pairs|]; [|discriminate]
  end.
  destruct (Py.for_ (combos_of_migration config pairs) _ _) as [?|ds] eqn:Hds;
    simpl; [discriminate|].
  intros [= <-]. simpl. revert Hds.
  apply (for_invariant (Forall sampleable)); [done|].
  intros ds0 combo ds1 _ Hds0.
  destruct (Py.for_ combo (add_pair config) item) as [?|md] eqn:Hmd; simpl;
    [discriminate|].
  intros [= <-]. apply Forall_app. split; [done|].
  apply Forall_singleton, sampleable_sort. revert Hmd.
  apply (for_invariant sampleable).
  - apply (proj1 (Forall_forall _ _) Hdivs item Hitem).
  - intros d pq d' _ Hd Hstep.
    destruct (add_pair_events config d d' pq) as (e & Hev & Hrate & Hnz).
    { destruct Hadd as [->| ->]; [by left|by right]. }
    by apply (sampleable_add d d' e).
Qed.

Lemma divergence_models_sampleable (config : Config) (divs : list Demography) :
  NoDup (map label_of (postorder_internal_node_iter (species_tree config))) ->
  _create_divergence_demographies config = inr divs ->
  Forall sampleable divs.
Proof.
  intros Hnd. unfold _create_divergence_demographies.
  destruct (collapse_combos (species_tree config)) as [?|combos]; simpl;
    [discriminate|].
  apply (for_invariant (Forall sampleable)); [by constructor|].
  intros ds combo ds' _ Hds.
  destruct (divergence_demography (species_tree config) combo) as [?|d] eqn:Hd;
    simpl; [discriminate|].
  intros [= <-]. apply Forall_app. split; [done|].
  apply Forall_singleton. by eapply divergence_demography_sampleable.
Qed.

(** Every model [build_models] stores, of any of the three categories,
    is of the kind the sampler's invariant is stated for, as soon as the
    internal nodes of the species tree carry distinct labels. *)
Lemma built_models_sampleable (config : Config) (models : Models) :
  NoDup (map label_of (postorder_internal_node_iter (species_tree config))) ->
  build_models config = inr models ->
  Forall sampleable (divergence_demographies models) /\
  Forall sampleable (sc_demographies models) /\
  Forall sampleable (dwg_demographies models).
Proof.
  intros Hnd. unfold build_models.
  destruct (_create_divergence_demographies config) as [?|divs] eqn:Hdivs;
    simpl; [discriminate|].
  apply divergence_models_sampleable in Hdivs; [|done].
  destruct (secondary_contact config);
    [destruct (_create_sc_demographies config divs) as [?|sc] eqn:Hsc|];
    simpl; try discriminate;
    (destruct (divergence_with_gene_flow config);
     [destruct (_create_dwg_demographies config divs) as [?|dwg] eqn:Hdwg|];
     simpl; try discriminate);
    intros [= <-]; simpl; split_and!; try done; try by constructor.
  all: try (eapply (migration_models_sampleable config _ sc_add_pair);
            [by left|exact Hdivs|exact Hsc]).
  all: try (eapply (migration_models_sampleable config _ dwg_add_pair);
            [by right|exact Hdivs|exact Hdwg]).
Qed.

End BuilderFacts.

(** ** The order of pairs of names *)

Module OrderOfPairs.

Import Spec.

Lemma ascii_compare_refl (a : ascii) : Ascii.compare a a = Eq.
Proof. apply N.compare_refl. Qed.

Lemma ascii_compare_lt_trans (a b c : ascii) :
  Ascii.compare a b = Lt -> Ascii.compare b c = Lt -> Ascii.compare a c = Lt.
Proof.
  unfold Ascii.compare. rewrite !N.compare_lt_iff. apply N.lt_trans.
Qed.

Lemma string_compare_refl (s : string) : String.compare s s = Eq.
Proof.
  induction s as [|a s IH]; [done|]. simpl. by rewrite ascii_compare_refl.
Qed.

Lemma string_compare_lt_trans :
  forall s1 s2 s3 : string,
    String.compare s1 s2 = Lt -> String.compare s2 s3 = Lt ->
    String.compare s1 s3 = Lt.
Proof.
  induction s1 as [|a s1 IH]; intros [|b s2] [|c s3]; simpl; try done.
  destruct (Ascii.compare a b) eqn:Hab; [|clear IH|done].
  - apply Ascii.compare_eq_iff in Hab as ->.
    destruct (Ascii.compare b c); [apply IH|done..].
  - destruct (Ascii.compare b c) eqn:Hbc; [| |done].
    + apply Ascii.compare_eq_iff in Hbc as ->. by rewrite Hab.
    + intros _ _. by rewrite (ascii_compare_lt_trans a b c).
Qed.

Lemma pair_compare_refl (a : string * string) : Py.pair_compare a a = Eq.
Proof. unfold Py.pair_compare. by rewrite !string_compare_refl. Qed.

Lemma pair_compare_eq (a b : string * string) :
  Py.pair_compare a b = Eq -> a = b.
Proof.
  unfold Py.pair_compare. destruct a as [a1 a2], b as [b1 b2]. simpl.
  destruct (String.compare a1 b1) eqn:H1; try done.
  intros H2. apply String.compare_eq_iff in H1, H2. by subst.
Qed.

Lemma pair_compare_antisym (a b : string * string) :
  Py.pair_compare a b = CompOpp (Py.pair_compare b a).
Proof.
  unfold Py.pair_compare. rewrite (String.compare_antisym (fst a) (fst b)).
  destruct (String.compare (fst b) (fst a)); simpl; try done.
  apply String.compare_antisym.
Qed.

Lemma pair_compare_lt_trans (a b c : string * string) :
  Py.pair_compare a b = Lt -> Py.pair_compare b c = Lt ->
  Py.pair_compare a c = Lt.
Proof.
  unfold Py.pair_compare. destruct a as [a1 a2], b as [b1 b2], c as [c1 c2].
  simpl.
  destruct (String.compare a1 b1) eqn:Hab; [| |done].
  - apply String.compare_eq_iff in Hab as ->.
    destruct (String.compare b1 c1); [apply string_compare_lt_trans|done..].
  - destruct (String.compare b1 c1) eqn:Hbc; [| |done].
    + apply String.compare_eq_iff in Hbc as ->. by rewrite Hab.
    + intros _ _. by rewrite (string_compare_lt_trans a1 b1 c1).
Qed.

Lemma insert_pair_elem (a x : string * string) (l : list (string * string)) :
  x ∈ Py.insert_pair a l -> x = a \/ x ∈ l.
Proof.
  induction l as [|b l IH]; simpl.
  - intros H. apply list_elem_of_singleton in H. by left.
  - destruct (Py.pair_compare a b).
    + by right.
    + intros H. apply elem_of_cons in H as [->|H]; [by left|by right].
    + intros H. apply elem_of_cons in H as [->|H]; [right; by left|].
      destruct (IH H) as [->|Hl]; [by left|right; by right].
Qed.

Lemma insert_pair_increasing (a : string * string)
    (l : list (string * string)) :
  increasing l -> increasing (Py.insert_pair a l).
Proof.
  unfold increasing. induction l as [|b l IH]; intros Hl; simpl.
  - repeat constructor.
  - apply StronglySorted_inv in Hl as [Hl Hb].
    destruct (Py.pair_compare a b) eqn:Hab.
    + by constructor.
    + constructor; [by constructor|].
      constructor; [done|].
      apply Forall_forall. intros x Hx.
      apply (pair_compare_lt_trans a b x Hab).
      by apply (proj1 (Forall_forall _ _) Hb x).
    + constructor; [by apply IH|].
      apply Forall_forall. intros x Hx.
      apply insert_pair_elem in Hx as [->|Hx].
      * rewrite pair_compare_antisym, Hab. done.
      * by apply (proj1 (Forall_forall _ _) Hb x).
Qed.

(** [sorted(set(l))] has no duplicate and no element that is not in
    [l]. *)
Lemma sorted_set_spec (l : list (string * string)) :
  NoDup (Py.sorted_set l) /\ forall x, x ∈ Py.sorted_set l -> x ∈ l.
Proof.
  assert (Hinc : increasing (Py.sorted_set l)).
  { unfold Py.sorted_set. induction l as [|a l IH]; simpl; [constructor|].
    by apply insert_pair_increasing. }
  split.
  - revert Hinc. unfold increasing.
    induction (Py.sorted_set l) as [|a s IH]; intros Hs; [constructor|].
    apply StronglySorted_inv in Hs as [Hs Ha].
    constructor; [|by apply IH].
    intros Hin. pose proof (proj1 (Forall_forall _ _) Ha a Hin) as Hlt.
    cbv beta in Hlt. by rewrite pair_compare_refl in Hlt.
  - unfold Py.sorted_set. clear Hinc.
    induction l as [|a l IH]; simpl; intros x Hx; [done|].
    apply insert_pair_elem in Hx as [->|Hx]; [by left|right; by apply IH].
Qed.

(** A combination is a sublist. *)
Lemma combinations_sublist {A} (l c : list A) (r : nat) :
  c ∈ Py.combinations l r -> c `sublist_of` l.
Proof.
  revert c r. induction l as [|x l IH]; intros c [|r]; simpl; intros Hc.
  - apply list_elem_of_singleton in Hc as ->. constructor.
  - by apply elem_of_nil in Hc.
  - apply list_elem_of_singleton in Hc as ->. apply sublist_nil_l.
  - apply elem_of_app in Hc as [Hc|Hc].
    + apply list_elem_of_In, in_map_iff in Hc as (c' & <- & Hc').
      apply sublist_skip. apply (IH c' r). by apply list_elem_of_In.
    + apply sublist_cons. by apply (IH c (S r)).
Qed.

End OrderOfPairs.

(** ** The gene flow models of the builder *)

Module GeneFlowModels.

Import Spec Enumerate Sampler OrderOfPairs.

(** The candidates [_find_dwg_to_include] returns are pairs of sisters. *)
Lemma dwg_candidates_sisters (config : Config) (item : Demography)
    (found : list (string * string)) :
  _find_dwg_to_include config item = inr found ->
  forall pq, pq ∈ found -> sisters (events item) pq.
Proof.
  unfold _find_dwg_to_include.
  set (P := fun acc : list (string * string) =>
              forall pq, pq ∈ acc -> sisters (events item) pq).
  apply (for_invariant P).
  - intros pq Hin. by apply elem_of_nil in Hin.
  - intros acc [index row] acc' _ Hacc. simpl.
    apply (for_invariant P); [done|].
    intros acc1 [colname value] acc2 _ Hacc1. simpl.
    destruct (negb (String.eqb index colname) && String.eqb value "T").
    + destruct (Py.for_ (events item) _ false) as [?|include] eqn:Hloop;
        simpl; [discriminate|].
      intros [= <-]. destruct include; [|done].
      intros pq Hin. apply elem_of_app in Hin as [Hin|Hin]; [by apply Hacc1|].
      apply list_elem_of_singleton in Hin as ->.
      enough (Hinc : true = true -> sisters (events item) (index, colname))
        by by apply Hinc.
      revert Hloop.
      apply (for_invariant
               (fun include : bool =>
                  include = true -> sisters (events item) (index, colname)));
        [done|].
      intros include event include' Hevent Hinc.
      destruct event as [t d anc|?|?]; simpl; [|discriminate..].
      intros [= <-].
      destruct (Py.in_pair index d && Py.in_pair colname d
                && Float.nonzero t) eqn:Htest; [|done].
      intros _. apply andb_true_iff in Htest as [Htest _].
      apply andb_true_iff in Htest as [H1 H2].
      by exists t, d, anc.
    + simpl. intros [= <-]. done.
Qed.

Lemma in_pair_sorted (x : string) (pq : string * string) :
  Py.in_pair x (Py.sorted_pair pq) = Py.in_pair x pq.
Proof.
  unfold Py.sorted_pair, Py.in_pair. destruct (String.leb _ _); [done|].
  simpl. apply orb_comm.
Qed.

Lemma sisters_sorted (evs : list Event) (pq : string * string) :
  sisters evs pq -> sisters evs (Py.sorted_pair pq).
Proof.
  intros (t & d & anc & Hin & H1 & H2). exists t, d, anc.
  unfold Py.sorted_pair. destruct (String.leb _ _); by split_and!.
Qed.

Lemma migration_pairs_divergence_only (config : Config) (d : Demography) :
  divergence_only d -> migration_pairs config (events d) = [].
Proof.
  unfold divergence_only, migration_pairs.
  induction (events d) as [|e l IH]; intros Hd; [done|]. simpl.
  rewrite (Hd e) by by left. apply IH. intros x Hx. apply Hd. by right.
Qed.

(** The events of the model built for a combo under symmetric
    migration. *)
Lemma dwg_combo_events (config : Config) :
  symmetric config = true ->
  forall (combo : list (string * string)) (item md : Demography),
    Py.for_ combo (dwg_add_pair config) item = inr md ->
    events md
    = events item
      ++ map (fun pq =>
                SymmetricMigrationRateChange (Float.Fin migtimeholder) pq
                  migrateholder) combo.
Proof.
  intros Hsym. induction combo as [|pq combo IH]; intros item md; simpl.
  - intros [= <-]. by rewrite app_nil_r.
  - unfold dwg_add_pair at 1. rewrite Hsym. simpl. intros Hrun.
    apply IH in Hrun. rewrite Hrun. simpl. by rewrite <- app_assoc.
Qed.

Lemma migration_pairs_symmetric (config : Config)
    (combo : list (string * string)) :
  symmetric config = true ->
  migration_pairs config
    (map (fun pq =>
            SymmetricMigrationRateChange (Float.Fin migtimeholder) pq
              migrateholder) combo)
  = combo.
Proof.
  intros Hsym. unfold migration_pairs.
  induction combo as [|pq combo IH]; [done|]. simpl.
  unfold migration_pair at 1. rewrite Hsym. simpl. f_equal. exact IH.
Qed.

(** Every gene flow model [_create_dwg_demographies] makes from
    topologies without migration is a gene flow model in the sense
    above. *)
Lemma built_gene_flow_models (config : Config) (divs out : list Demography) :
  Forall divergence_only divs ->
  _create_dwg_demographies config divs = inr out ->
  Forall (gene_flow_model config) out.
Proof.
  intros Hdivs. unfold _create_dwg_demographies, create_migration_demographies.
  destruct (Py.for_ divs _ _) as [?|st] eqn:Hrun; simpl; [discriminate|].
  intros [= <-]. revert Hrun.
  set (P := fun st : mig_state =>
              Forall (gene_flow_model config) (migration_demographies st) /\
              (symmetric config = false -> to_include st = None)).
  enough (Hgen : P st -> Forall (gene_flow_model config)
                           (migration_demographies st)).
  { intros Hrun. apply Hgen. revert Hrun. apply (for_invariant P).
    { split; [by apply Forall_nil|done]. }
    intros st0 item st1 Hitem [Hst0 Hnone].
    destruct (_find_dwg_to_include config item) as [?|found] eqn:Hfound;
      simpl; [discriminate|].
    destruct (symmetric config) eqn:Hsym; [|rewrite Hnone by done; discriminate].
    destruct (Py.for_ (combos_of_migration config _) _ _) as [?|ds] eqn:Hds;
      simpl; [discriminate|].
    intros [= <-]. split; [|done]. simpl. revert Hds.
    apply (for_invariant (Forall (gene_flow_model config))); [done|].
    intros ds0 combo ds1 Hcombo Hds0.
    destruct (Py.for_ combo (dwg_add_pair config) item) as [?|md] eqn:Hmd;
      simpl; [discriminate|].
    intros [= <-]. apply Forall_app. split; [done|]. apply Forall_singleton.
    apply dwg_combo_events in Hmd; [|done].
    pose proof (proj1 (Forall_forall _ _) Hdivs item Hitem) as Honly.
    (* the combo: distinct pairs, all of them candidates *)
    unfold combos_of_migration in Hcombo.
    apply list_elem_of_In, in_concat in Hcombo as (cs & Hcs & Hin).
    apply in_map_iff in Hcs as (r & <- & _).
    apply list_elem_of_In, combinations_sublist in Hin.
    destruct (sorted_set_spec (map Py.sorted_pair (Py.sorted_set found)))
      as [Hnd Hsub].
    assert (Hpairs : migration_pairs config (events (sort_events md)) ≡ₚ combo).
    { unfold migration_pairs. rewrite BuilderFacts.sort_events_permutation.
      rewrite Hmd, omap_app.
      fold (migration_pairs config (events item)).
      rewrite (migration_pairs_divergence_only config item Honly).
      simpl. apply reflexive_eq.
      apply (migration_pairs_symmetric config combo Hsym). }
    split.
    - rewrite Hpairs. by apply (sublist_NoDup _ _ Hnd).
    - intros pq Hpq. rewrite Hpairs in Hpq.
      apply (sublist_subseteq _ _ Hin), Hsub in Hpq.
      apply list_elem_of_In, in_map_iff in Hpq as (p0 & <- & Hp0).
      apply list_elem_of_In, (proj2 (sorted_set_spec found)) in Hp0.
      apply (dwg_candidates_sisters config item found Hfound),
        sisters_sorted in Hp0.
      destruct Hp0 as (t & d & anc & Hsplit & H1 & H2).
      exists t, d, anc. split_and!; try done.
      apply (proj2 (GeneFlowFacts.sort_events_elem _ _)).
      simpl. rewrite Hmd. apply elem_of_app. by left. }
  by intros [H _].
Qed.

(** The topologies [_create_divergence_demographies] makes hold no
    migration event. *)
Lemma divergence_models_only (config : Config) (divs : list Demography) :
  _create_divergence_demographies config = inr divs ->
  Forall divergence_only divs.
Proof.
  unfold _create_divergence_demographies.
  destruct (collapse_combos (species_tree config)) as [?|combos]; simpl;
    [discriminate|].
  apply (for_invariant (Forall divergence_only)); [by constructor|].
  intros ds combo ds' _ Hds.
  destruct (divergence_demography (species_tree config) combo) as [?|d] eqn:Hd;
    simpl; [discriminate|].
  intros [= <-]. apply Forall_app. split; [done|].
  apply Forall_singleton. intros e He.
  rewrite (BuilderFacts.divergence_demography_events _ _ _ Hd) in He.
  apply list_elem_of_fmap in He as (n & -> & _).
  unfold split_of. by destruct n.
Qed.

(** Every gene flow model [build_models] stores is one: the start times
    of its replicates are the ones the midpoint formula gives. *)
Lemma built_models_gene_flow (config : Config) (models : Models) :
  build_models config = inr models ->
  Forall (gene_flow_model config) (dwg_demographies models).
Proof.
  unfold build_models.
  destruct (_create_divergence_demographies config) as [?|divs] eqn:Hdivs;
    simpl; [discriminate|].
  apply divergence_models_only in Hdivs.
  destruct (secondary_contact config);
    [destruct (_create_sc_demographies config divs) as [?|sc]|];
    simpl; try discriminate;
    (destruct (divergence_with_gene_flow config);
     [destruct (_create_dwg_demographies config divs) as [?|dwg] eqn:Hdwg|];
     simpl; try discriminate);
    intros [= <-]; simpl; try by constructor.
  all: by apply (built_gene_flow_models config divs).
Qed.

End GeneFlowModels.

(** ** The statements on the example scenarios *)

Module Witnesses.

Import Spec.

Import Sampler.

(** The scripted generator stays within the requested interval. *)
Lemma scripted_range (lo hi : Q) (g : list Q) :
  (lo <= hi)%Q ->
  (lo <= fst (scripted lo hi g))%Q /\ (fst (scripted lo hi g) <= hi)%Q.
Proof.
  intros Hle. destruct g as [|v g]; simpl.
  - split; [apply Qle_refl|done].
  - split; [apply Q.le_max_l|].
    apply Q.max_lub; [done|apply Q.le_min_l].
Qed.


Lemma C10_witness :
  Spec.marked (Trees.scenario true) "A" "B" /\
  Spec.marked (Trees.scenario true) "B" "A".
Proof.
  split.
  - apply (proj1 (CandidateFacts.C10_candidates_are_marked
                    (Trees.scenario true) Examples.resolved_sR)
             [("A", "B"); ("B", "A")]).
    + by vm_compute.
    + apply (bool_decide_unpack _). by vm_compute.
  - apply (proj2 (CandidateFacts.C10_candidates_are_marked
                    (Trees.scenario true) Examples.resolved_sR)
             [("A", "B"); ("B", "A")]).
    + by vm_compute.
    + apply (bool_decide_unpack _). by vm_compute.
Defined.



End Witnesses.

(** * The generator beyond the statements above *)

(** ** The topologies of the builder *)

Module TopologyFacts.

Import Enumerate Sampler Spec Behaviour.

Lemma sublist_combinations {A} (c l : list A) :
  c `sublist_of` l -> c ∈ Py.combinations l (length c).
Proof.
  induction 1 as [|x c l _ IH|x c l _ IH]; simpl.
  - by left.
  - apply elem_of_app. left. by apply list_elem_of_fmap_2.
  - destruct c as [|y c]; simpl in *; [by left|].
    apply elem_of_app. by right.
Qed.

Lemma combinations_length {A} (l c : list A) (r : nat) :
  c ∈ Py.combinations l r -> length c = r.
Proof.
  revert c r. induction l as [|x l IH]; intros c [|r]; simpl.
  - by intros ->%list_elem_of_singleton.
  - by intros ?%elem_of_nil.
  - by intros ->%list_elem_of_singleton.
  - rewrite elem_of_app. intros [Hin|Hin].
    + apply list_elem_of_fmap in Hin as (c' & -> & Hc'). simpl.
      f_equal. by apply IH.
    + by apply IH.
Qed.

(** The combos handed to [_remove_conflicting] are the non-empty
    sublists of the internal nodes. *)
Lemma candidate_combos_spec (species_tree : tree) (combo : list tree) :
  combo ∈ candidate_combos species_tree <->
  combo ≠ [] /\ combo `sublist_of` internal_nodes species_tree.
Proof.
  unfold candidate_combos. split.
  - intros Hin. apply list_elem_of_In, in_concat in Hin as (cs & Hcs & Hin).
    apply in_map_iff in Hcs as (r & <- & Hr). apply in_seq in Hr.
    apply list_elem_of_In in Hin. split.
    + apply combinations_length in Hin. intros ->. simpl in Hin. lia.
    + by eapply OrderOfPairs.combinations_sublist.
  - intros [Hne Hsub]. apply list_elem_of_In, in_concat.
    exists (Py.combinations (internal_nodes species_tree) (length combo)).
    split.
    + apply in_map_iff. exists (length combo). split; [done|].
      apply in_seq. pose proof (sublist_length _ _ Hsub).
      destruct combo; [done|simpl in *; lia].
    + by apply list_elem_of_In, sublist_combinations.
Qed.

(** X1.  The enumeration of the collapse combinations never raises.  Its
    result is the list of the kept combinations followed by the empty
    one, and a combination is kept exactly when it is a non-empty
    sub-list of the internal nodes (in the order of [internal_nodes])
    and the internal nodes below its last node all belong to it: the
    test of [_remove_conflicting] looks at the last node only. *)
Theorem X1_kept_combinations (species_tree : tree) :
  exists kept,
    collapse_combos species_tree = inr (kept ++ [[]]) /\
    forall combo,
      combo ∈ kept <->
      combo ≠ [] /\
      combo `sublist_of` internal_nodes species_tree /\
      last_node_closed combo = true.
Proof.
  exists (List.filter last_node_closed (candidate_combos species_tree)).
  split; [apply EnumerateFacts.collapse_combos_eq|].
  intros combo. rewrite list_elem_of_In, filter_In, <- list_elem_of_In.
  rewrite candidate_combos_spec. tauto.
Qed.

Lemma internal_is_node (t n : tree) :
  n ∈ postorder_internal_node_iter t ->
  exists label ne div c1 c2, n = Node label ne div c1 c2.
Proof.
  induction t as [|label ne div c1 IH1 c2 IH2]; simpl.
  - by intros ?%elem_of_nil.
  - rewrite !elem_of_app, list_elem_of_singleton.
    intros [?|[?| ->]]; [by apply IH1|by apply IH2|]. by repeat eexists.
Qed.

(** A loop that appends one computed element per item. *)
Lemma for_append {A B} (f : A -> Py.result B) (P : A -> B -> Prop) :
  forall (l : list A) (acc : list B),
    (forall x, x ∈ l -> exists y, f x = inr y /\ P x y) ->
    exists ys,
      Py.for_ l (fun acc x => y <- f x ;; Py.ret (acc ++ [y])) acc
      = inr (acc ++ ys) /\
      Forall2 P l ys.
Proof.
  induction l as [|x l IH]; intros acc Hf; simpl.
  - exists []. by rewrite app_nil_r.
  - destruct (Hf x) as (y & Hy & HP); [by left|]. rewrite Hy. simpl.
    destruct (IH (acc ++ [y])) as (ys & Hys & HF).
    { intros x' Hx'. apply Hf. by right. }
    exists (y :: ys). rewrite Hys, <- app_assoc. split; [done|].
    by constructor.
Qed.

Lemma populations_loop (combo : list tree) :
  forall (l : list tree) (d0 : Demography),
    (forall n, n ∈ l -> exists label ne div c1 c2, n = Node label ne div c1 c2) ->
    exists d,
      Py.for_ l
        (fun demography internal_node =>
           if bool_decide (internal_node ∉ combo) then
             d <- _get_derived_populations internal_node ;;
             Py.ret (add_population (snd d) pop_size_holder
                       (add_population (fst d) pop_size_holder demography))
           else Py.ret demography)
        d0 = inr d /\
      populations d
      = populations d0
        ++ map placeholder
             (concat (map derived_names (filter (fun n => n ∉ combo) l))) /\
      events d = events d0 /\
      migration_matrix d = migration_matrix d0.
Proof.
  induction l as [|node l IH]; intros d0 Hnodes; simpl.
  - exists d0. by rewrite app_nil_r.
  - destruct (Hnodes node) as (label & ne & div & c1 & c2 & ->); [by left|].
    rewrite filter_cons.
    destruct (decide (Node label ne div c1 c2 ∉ combo)) as [Hin|Hin].
    + rewrite bool_decide_eq_true_2 by done. simpl.
      edestruct IH as (d & -> & Hp & He & Hm).
      { intros n Hn. apply Hnodes. by right. }
      exists d. split; [done|]. rewrite Hp, He, Hm. simpl.
      by rewrite <- !app_assoc.
    + rewrite bool_decide_eq_false_2 by done. simpl.
      apply IH. intros n Hn. apply Hnodes. by right.
Qed.

Lemma splits_loop (combo : list tree) :
  forall (l : list tree) (d0 : Demography),
    (forall n, n ∈ l -> exists label ne div c1 c2, n = Node label ne div c1 c2) ->
    exists d,
      Py.for_ l
        (fun demography internal_node =>
           if bool_decide (internal_node ∉ combo) then
             d <- _get_derived_populations internal_node ;;
             Py.ret (add_event
                       (PopulationSplit (Float.Fin div_time_holder) d
                          (label_of internal_node))
                       demography)
           else Py.ret demography)
        d0 = inr d /\
      populations d = populations d0 /\
      events d = events d0 ++ map split_of (filter (fun n => n ∉ combo) l) /\
      migration_matrix d = migration_matrix d0.
Proof.
  induction l as [|node l IH]; intros d0 Hnodes; simpl.
  - exists d0. by rewrite app_nil_r.
  - destruct (Hnodes node) as (label & ne & div & c1 & c2 & ->); [by left|].
    rewrite filter_cons.
    destruct (decide (Node label ne div c1 c2 ∉ combo)) as [Hin|Hin].
    + rewrite bool_decide_eq_true_2 by done. simpl.
      edestruct IH as (d & -> & Hp & He & Hm).
      { intros n Hn. apply Hnodes. by right. }
      exists d. split; [done|]. rewrite Hp, He, Hm. simpl.
      by rewrite <- !app_assoc.
    + rewrite bool_decide_eq_false_2 by done. simpl.
      apply IH. intros n Hn. apply Hnodes. by right.
Qed.

(** The topology built for a combo, whatever the combo is. *)
Lemma divergence_demography_shape (species_tree : tree) (combo : list tree) :
  exists d,
    divergence_demography species_tree combo = inr d /\
    events d = map split_of (uncollapsed species_tree combo) /\
    populations d
    = map placeholder
        (concat (map derived_names (uncollapsed species_tree combo))
         ++ [label_of species_tree]) /\
    migration_matrix d = ∅.
Proof.
  unfold divergence_demography, uncollapsed.
  destruct (populations_loop combo (postorder_internal_node_iter species_tree)
              Msprime.new) as (d1 & -> & Hp1 & He1 & Hm1).
  { intros n. apply internal_is_node. }
  simpl.
  destruct (splits_loop combo (postorder_internal_node_iter species_tree)
              (add_population (label_of species_tree) pop_size_holder d1))
    as (d2 & -> & Hp2 & He2 & Hm2).
  { intros n. apply internal_is_node. }
  exists d2. split; [done|].
  rewrite Hp2, He2, Hm2. simpl. rewrite Hp1, He1, Hm1. simpl.
  by rewrite map_app.
Qed.

(** One topology per kept combination. *)
Lemma divergence_topologies_shape (config : Config) :
  exists kept divs,
    collapse_combos (species_tree config) = inr (kept ++ [[]]) /\
    _create_divergence_demographies config = inr divs /\
    Forall2
      (fun combo d =>
         events d = map split_of (uncollapsed (species_tree config) combo) /\
         populations d
         = map placeholder
             (concat (map derived_names
                        (uncollapsed (species_tree config) combo))
              ++ [label_of (species_tree config)]) /\
         migration_matrix d = ∅)
      (kept ++ [[]]) divs.
Proof.
  unfold _create_divergence_demographies.
  rewrite EnumerateFacts.collapse_combos_eq. simpl.
  eexists.
  edestruct (for_append (divergence_demography (species_tree config)))
    as (divs & Hdivs & HF);
    [|exists divs; split; [done|]; split; [exact Hdivs|exact HF]].
  intros combo _. apply divergence_demography_shape.
Qed.

Lemma uncollapsed_nil (species_tree : tree) :
  uncollapsed species_tree [] = postorder_internal_node_iter species_tree.
Proof.
  unfold uncollapsed. induction (postorder_internal_node_iter species_tree)
    as [|n l IH]; [done|].
  rewrite filter_cons_True by apply not_elem_of_nil. by rewrite IH.
Qed.


End TopologyFacts.

(** ** The candidates for migration *)

Module CandidateSearch.

Import Enumerate Sampler Spec Behaviour.

(** The scan of the migration table shared by the two searches: a pair
    is appended for every marked cell whose check succeeds. *)
Lemma scan_row (B : Type) (check : string -> string -> Py.result B)
    (both : B -> bool) (none : B) (Q : string -> string -> Prop)
    (index : string) :
  both none = false ->
  (forall q, exists b, check index q = inr b /\ (both b = true <-> Q index q)) ->
  forall (row : list (string * string)) (acc : list (string * string)),
    exists acc',
      Py.for_ row
        (fun to_include cell =>
           include <-
             (if negb (String.eqb index (fst cell)) && String.eqb (snd cell) "T"
              then check index (fst cell)
              else Py.ret none) ;;
           Py.ret (if both include
                   then to_include ++ [(index, fst cell)]
                   else to_include))
        acc = inr acc' /\
      forall p q,
        (p, q) ∈ acc' <->
        (p, q) ∈ acc \/
        (p = index /\ p ≠ q /\ (q, "T") ∈ row /\ Q p q).
Proof.
  intros Hnone Hcheck.
  induction row as [|[colname value] row IH]; intros acc; simpl.
  - exists acc. split; [done|]. intros p q. split; [by left|].
    intros [?|(_ & _ & ?%elem_of_nil & _)]; done.
  - destruct (Hcheck colname) as (b & Hb & HQ).
    set (test := negb (String.eqb index colname) && String.eqb value "T").
    assert (Htest : test = true <-> index ≠ colname /\ value = "T").
    { unfold test. rewrite andb_true_iff, negb_true_iff, String.eqb_neq,
        String.eqb_eq. tauto. }
    destruct test eqn:Ht.
    + rewrite Hb. simpl. destruct (proj1 Htest eq_refl) as [Hne ->].
      destruct (both b) eqn:Hboth.
      * destruct (IH (acc ++ [(index, colname)])) as (acc' & -> & Hacc').
        exists acc'. split; [done|]. intros p q. rewrite Hacc'.
        rewrite elem_of_app, list_elem_of_singleton, elem_of_cons.
        split.
        -- intros [[?|[= -> ->]]|(-> & ? & ? & ?)]; [by left|right..].
           ++ split_and!; [done|done|by left|by apply HQ].
           ++ split_and!; [done|done|by right|done].
        -- intros [?|(-> & ? & [[= -> ]|?] & ?)]; [by left;left|by left;right|].
           right. by split_and!.
      * destruct (IH acc) as (acc' & -> & Hacc').
        exists acc'. split; [done|]. intros p q. rewrite Hacc', elem_of_cons.
        split.
        -- intros [?|(-> & ? & ? & ?)]; [by left|right]. by split_and!; [| |right|].
        -- intros [?|(-> & ? & [[= -> ]|?] & HQ')]; [by left| |right; by split_and!].
           apply HQ in HQ'. congruence.
    + simpl. rewrite Hnone.
      destruct (IH acc) as (acc' & -> & Hacc').
      exists acc'. split; [done|]. intros p q. rewrite Hacc', elem_of_cons.
      split.
      * intros [?|(-> & ? & ? & ?)]; [by left|right]. by split_and!; [| |right|].
      * intros [?|(-> & Hne & [[= -> <-]|?] & HQ')]; [by left| |right; by split_and!].
        by pose proof (proj2 Htest (conj Hne eq_refl)).
Qed.

Lemma scan_table (config : Config) (B : Type)
    (check : string -> string -> Py.result B)
    (both : B -> bool) (none : B) (Q : string -> string -> Prop) :
  both none = false ->
  (forall p q, exists b, check p q = inr b /\ (both b = true <-> Q p q)) ->
  exists found,
    Py.for_ (migration_df config)
      (fun to_include index_row =>
         Py.for_ (snd index_row)
           (fun to_include cell =>
              include <-
                (if negb (String.eqb (fst index_row) (fst cell))
                    && String.eqb (snd cell) "T"
                 then check (fst index_row) (fst cell)
                 else Py.ret none) ;;
              Py.ret (if both include
                      then to_include ++ [(fst index_row, fst cell)]
                      else to_include))
           to_include)
      [] = inr found /\
    forall p q, (p, q) ∈ found <-> marked config p q /\ Q p q.
Proof.
  intros Hnone Hcheck. unfold marked.
  enough (Hgen : forall df acc,
             exists found,
               Py.for_ df
                 (fun to_include index_row =>
                    Py.for_ (snd index_row)
                      (fun to_include cell =>
                         include <-
                           (if negb (String.eqb (fst index_row) (fst cell))
                               && String.eqb (snd cell) "T"
                            then check (fst index_row) (fst cell)
                            else Py.ret none) ;;
                         Py.ret (if both include
                                 then to_include ++ [(fst index_row, fst cell)]
                                 else to_include))
                      to_include)
                 acc = inr found /\
               forall p q,
                 (p, q) ∈ found <->
                 (p, q) ∈ acc \/
                 ((p ≠ q /\ exists row, (p, row) ∈ df /\ (q, "T") ∈ row) /\ Q p q)).
  { destruct (Hgen (migration_df config) []) as (found & Hfound & Hspec).
    exists found. split; [done|]. intros p q. rewrite Hspec.
    split; [intros [?%elem_of_nil|?]; done|by right]. }
  induction df as [|[index row] df IH]; intros acc; simpl.
  - exists acc. split; [done|]. intros p q. split; [by left|].
    intros [?|[(_ & r & ?%elem_of_nil & _) _]]; done.
  - destruct (scan_row B check both none Q index Hnone (Hcheck index) row acc)
      as (acc1 & -> & Hacc1).
    simpl. destruct (IH acc1) as (found & -> & Hfound).
    exists found. split; [done|]. intros p q. rewrite Hfound, Hacc1.
    split.
    + intros [[?|(-> & ? & ? & ?)]|[(? & r & ? & ?) ?]]; [by left|right..].
      * split; [|done]. split; [done|]. exists row. split; [by left|done].
      * split; [|done]. split; [done|]. exists r. split; [by right|done].
    + intros [?|[(? & r & [[= -> ->]|?]%elem_of_cons & ?) ?]].
      * by left; left.
      * left; right. by split_and!.
      * right. split; [|done]. split; [done|]. by exists r.
Qed.

(** The two loops of [_find_sc_to_include] over the events, for one
    population. *)
Lemma derived_loop (p : string) :
  forall (evs : list Event) (include : bool),
    (forall e, e ∈ evs -> has_rate e = false) ->
    exists b,
      Py.for_ evs
        (fun include event =>
           derived <- get_derived event ;;
           Py.ret (if Py.in_pair p derived && Float.nonzero (time event)
                   then true else include))
        include = inr b /\
      (b = true <-> include = true \/ derived_in evs p).
Proof.
  induction evs as [|e evs IH]; intros include Hevs; simpl.
  - exists include. split; [done|]. split; [by left|].
    intros [?|(t & d & a & ?%elem_of_nil & _)]; done.
  - destruct e as [t d a| |]; try (by specialize (Hevs _ (list_elem_of_here _ _))).
    simpl.
    destruct (IH (if Py.in_pair p d && Float.nonzero t then true else include))
      as (b & -> & Hb).
    { intros e He. apply Hevs. by right. }
    exists b. split; [done|]. rewrite Hb. unfold derived_in.
    destruct (Py.in_pair p d && Float.nonzero t) eqn:Htest.
    + apply andb_true_iff in Htest as [H1 H2]. split; [|by left].
      intros _. right. exists t, d, a. split_and!; [by left|done..].
    + split.
      * intros [?|(t' & d' & a' & ? & ? & ?)]; [by left|right].
        exists t', d', a'. split_and!; [by right|done..].
      * intros [?|(t' & d' & a' & [[= -> -> ->]|?]%elem_of_cons & H1 & H2)];
          [by left| |].
        -- rewrite H1, H2 in Htest. done.
        -- right. by exists t', d', a'.
Qed.

Lemma ancestral_loop (p : string) :
  forall (evs : list Event) (include : bool),
    (forall e, e ∈ evs -> has_rate e = false) ->
    exists b,
      Py.for_ evs
        (fun include event =>
           ancestral <- get_ancestral event ;;
           Py.ret (if String.eqb p ancestral && Float.nonzero (time event)
                   then false else include))
        include = inr b /\
      (b = true <-> include = true /\ ~ ancestral_in evs p).
Proof.
  induction evs as [|e evs IH]; intros include Hevs; simpl.
  - exists include. split; [done|]. split; [|by intros []].
    intros ->. split; [done|]. intros (t & d & ?%elem_of_nil & _). done.
  - destruct e as [t d a| |]; try (by specialize (Hevs _ (list_elem_of_here _ _))).
    simpl.
    destruct (IH (if String.eqb p a && Float.nonzero t then false else include))
      as (b & -> & Hb).
    { intros e He. apply Hevs. by right. }
    exists b. split; [done|]. rewrite Hb. unfold ancestral_in.
    destruct (String.eqb p a && Float.nonzero t) eqn:Htest.
    + apply andb_true_iff in Htest as [->%String.eqb_eq H2].
      split; [by intros []|]. intros [_ Hno]. exfalso. apply Hno.
      exists t, d. split; [by left|done].
    + split.
      * intros [-> Hno]. split; [done|].
        intros (t' & d' & [[= -> -> Heq]|?]%elem_of_cons & H2).
        -- by rewrite Heq, String.eqb_refl, H2 in Htest.
        -- apply Hno. by exists t', d'.
      * intros [-> Hno]. split; [done|].
        intros (t' & d' & ? & ?). apply Hno. exists t', d'.
        split; [by right|done].
Qed.

Lemma sc_population_spec (item : Demography) (p : string) :
  divergence_only item ->
  exists b,
    sc_population item false p = inr b /\
    (b = true <-> extant (events item) p).
Proof.
  intros Honly. unfold sc_population.
  destruct (derived_loop p (events item) false Honly) as (b1 & -> & Hb1).
  simpl.
  destruct (ancestral_loop p (events item) b1 Honly) as (b & -> & Hb).
  exists b. split; [done|]. rewrite Hb, Hb1. unfold extant.
  split; [intros [[?|?] ?]; done|intros [? ?]; split; [by right|done]].
Qed.

(** X3.  On a topology without migration events the search for the
    secondary contact candidates never raises, and it returns the pair
    [(p, q)] exactly when the table marks it ([p] and [q] differ and the
    cell of row [p] and column [q] is ["T"]) and both populations are of
    the present in that topology: each is derived in a split of non-zero
    time and is the ancestral population of none. *)
Theorem X3_secondary_contact_candidates (config : Config) (item : Demography) :
  divergence_only item ->
  exists found,
    _find_sc_to_include config item = inr found /\
    forall p q,
      (p, q) ∈ found <->
      marked config p q /\
      extant (events item) p /\ extant (events item) q.
Proof.
  intros Honly. unfold _find_sc_to_include.
  apply (scan_table config (bool * bool)
           (fun index colname =>
              i0 <- sc_population item false index ;;
              i1 <- sc_population item false colname ;;
              Py.ret (i0, i1))
           (fun include => fst include && snd include) (false, false)
           (fun p q => extant (events item) p /\ extant (events item) q));
    [done|].
  intros p q.
  destruct (sc_population_spec item p Honly) as (b0 & -> & Hb0).
  destruct (sc_population_spec item q Honly) as (b1 & -> & Hb1).
  exists (b0, b1). split; [done|]. simpl.
  rewrite andb_true_iff, Hb0, Hb1. done.
Qed.

Lemma together_loop (p q : string) :
  forall (evs : list Event) (include : bool),
    (forall e, e ∈ evs -> has_rate e = false) ->
    exists b,
      Py.for_ evs
        (fun include event =>
           derived <- get_derived event ;;
           Py.ret (if Py.in_pair p derived && Py.in_pair q derived
                      && Float.nonzero (time event)
                   then true else include))
        include = inr b /\
      (b = true <-> include = true \/ derived_together evs p q).
Proof.
  induction evs as [|e evs IH]; intros include Hevs; simpl.
  - exists include. split; [done|]. split; [by left|].
    intros [?|(t & d & a & ?%elem_of_nil & _)]; done.
  - destruct e as [t d a| |]; try (by specialize (Hevs _ (list_elem_of_here _ _))).
    simpl.
    destruct (IH (if Py.in_pair p d && Py.in_pair q d && Float.nonzero t
                  then true else include)) as (b & -> & Hb).
    { intros e He. apply Hevs. by right. }
    exists b. split; [done|]. rewrite Hb. unfold derived_together.
    destruct (Py.in_pair p d && Py.in_pair q d && Float.nonzero t) eqn:Htest.
    + apply andb_true_iff in Htest as [[H1 H2]%andb_true_iff H3].
      split; [|by left].
      intros _. right. exists t, d, a. split_and!; [by left|done..].
    + split.
      * intros [?|(t' & d' & a' & ? & ? & ? & ?)]; [by left|right].
        exists t', d', a'. split_and!; [by right|done..].
      * intros [?|(t' & d' & a' & [[= -> -> ->]|?]%elem_of_cons & H1 & H2 & H3)];
          [by left| |].
        -- rewrite H1, H2, H3 in Htest. done.
        -- right. by exists t', d', a'.
Qed.

(** X4.  On a topology without migration events the search for the
    candidates of divergence with gene flow never raises, and it returns
    the pair [(p, q)] exactly when the table marks it and some split of
    non-zero time of the topology has both [p] and [q] among its derived
    populations. *)
Theorem X4_gene_flow_candidates (config : Config) (item : Demography) :
  divergence_only item ->
  exists found,
    _find_dwg_to_include config item = inr found /\
    forall p q,
      (p, q) ∈ found <->
      marked config p q /\ derived_together (events item) p q.
Proof.
  intros Honly. unfold _find_dwg_to_include.
  apply (scan_table config bool
           (fun index colname =>
              Py.for_ (events item)
                (fun include event =>
                   derived <- get_derived event ;;
                   Py.ret (if Py.in_pair index derived
                              && Py.in_pair colname derived
                              && Float.nonzero (time event)
                           then true else include))
                false)
           (fun include => include) false
           (fun p q => derived_together (events item) p q)); [done|].
  intros p q.
  destruct (together_loop p q (events item) false Honly) as (b & -> & Hb).
  exists b. split; [done|]. rewrite Hb.
  split; [intros [?|?]; done|by right].
Qed.

(** Both searches run to their end on a topology without migration
    events, and the candidates for secondary contact are populations of
    the present. *)
Lemma sc_search_total (config : Config) (item : Demography) :
  divergence_only item ->
  exists found,
    _find_sc_to_include config item = inr found /\
    forall p q, (p, q) ∈ found ->
      extant (events item) p /\ extant (events item) q.
Proof.
  intros Honly. unfold _find_sc_to_include.
  destruct (scan_table config (bool * bool)
              (fun index colname =>
                 i0 <- sc_population item false index ;;
                 i1 <- sc_population item false colname ;;
                 Py.ret (i0, i1))
              (fun include => fst include && snd include) (false, false)
              (fun p q => extant (events item) p /\ extant (events item) q))
    as (found & Hfound & Hspec); [done| |].
  - intros p q.
    destruct (sc_population_spec item p Honly) as (b0 & -> & Hb0).
    destruct (sc_population_spec item q Honly) as (b1 & -> & Hb1).
    exists (b0, b1). split; [done|]. simpl.
    by rewrite andb_true_iff, Hb0, Hb1.
  - exists found. split; [done|]. intros p q Hin. by apply Hspec.
Qed.

Lemma dwg_search_total (config : Config) (item : Demography) :
  divergence_only item ->
  exists found, _find_dwg_to_include config item = inr found.
Proof.
  intros Honly. unfold _find_dwg_to_include.
  destruct (scan_table config bool
              (fun index colname =>
                 Py.for_ (events item)
                   (fun include event =>
                      derived <- get_derived event ;;
                      Py.ret (if Py.in_pair index derived
                                 && Py.in_pair colname derived
                                 && Float.nonzero (time event)
                              then true else include))
                   false)
              (fun include => include) false
              (fun p q => derived_together (events item) p q))
    as (found & Hfound & _); [done| |by exists found].
  intros p q.
  destruct (together_loop p q (events item) false Honly) as (b & -> & Hb).
  exists b. split; [done|]. rewrite Hb.
  split; [intros [?|?]; done|by right].
Qed.

End CandidateSearch.

(** ** The models with migration *)

Module MigrationModels.

Import Enumerate Sampler Spec Behaviour.

(** Sorting events that all have the same time leaves them in place. *)
Lemma sort_same_time (t : Float.t) (l : list Event) :
  (forall e, e ∈ l -> time e = t) -> foldr insert_event [] l = l.
Proof.
  induction l as [|e l IH]; intros Hl; simpl; [done|].
  rewrite IH by (intros x Hx; apply Hl; by right).
  destruct l as [|x l]; simpl; [done|].
  rewrite (Hl e), (Hl x) by (by left || (right; by left)).
  by rewrite FloatFacts.leb_refl.
Qed.

(** A split at the placeholder time goes behind the migration events
    and before the splits already sorted. *)
Lemma insert_split (e : Event) (migs splits : list Event) :
  time e = Float.Fin div_time_holder ->
  (forall x, x ∈ migs -> time x = Float.Fin migtimeholder) ->
  (forall x, x ∈ splits -> time x = Float.Fin div_time_holder) ->
  insert_event e (migs ++ splits) = migs ++ e :: splits.
Proof.
  intros He Hmigs Hsplits. induction migs as [|x migs IH]; simpl.
  - destruct splits as [|x splits]; simpl; [done|].
    rewrite He, (Hsplits x) by (by left). by rewrite FloatFacts.leb_refl.
  - rewrite He, (Hmigs x) by (by left).
    replace (Float.leb (Float.Fin div_time_holder) (Float.Fin migtimeholder))
      with false by (by vm_compute).
    rewrite IH; [done|]. intros y Hy. apply Hmigs. by right.
Qed.

Lemma sort_splits_then_migration (splits migs : list Event) :
  (forall x, x ∈ splits -> time x = Float.Fin div_time_holder) ->
  (forall x, x ∈ migs -> time x = Float.Fin migtimeholder) ->
  foldr insert_event [] (splits ++ migs) = migs ++ splits.
Proof.
  intros Hsplits Hmigs. induction splits as [|e splits IH]; simpl.
  - rewrite app_nil_r. by apply (sort_same_time (Float.Fin migtimeholder)).
  - rewrite IH by (intros x Hx; apply Hsplits; by right).
    apply insert_split; [apply Hsplits; by left|done|].
    intros x Hx. apply Hsplits. by right.
Qed.

(** The combinations of migration events made from a list of pairs. *)
Lemma combos_of_migration_spec (config : Config)
    (l combo : list (string * string)) :
  combo ∈ combos_of_migration config l ->
  combo ≠ [] /\
  (Z.of_nat (length combo) <= max_migration_events config)%Z /\
  combo `sublist_of` l.
Proof.
  unfold combos_of_migration. intros Hin.
  apply list_elem_of_In, in_concat in Hin as (cs & Hcs & Hin).
  apply in_map_iff in Hcs as (r & <- & Hr). apply in_seq in Hr.
  apply list_elem_of_In in Hin.
  pose proof (TopologyFacts.combinations_length _ _ _ Hin) as Hlen.
  split_and!.
  - intros ->. simpl in Hlen. lia.
  - lia.
  - by eapply OrderOfPairs.combinations_sublist.
Qed.

Lemma migration_combo_intro (config : Config)
    (found combo : list (string * string)) :
  combo ∈ combos_of_migration config
            (Py.sorted_set (map Py.sorted_pair (Py.sorted_set found))) ->
  migration_combo config found combo.
Proof.
  intros (Hne & Hlen & Hsub)%combos_of_migration_spec.
  destruct (OrderOfPairs.sorted_set_spec
              (map Py.sorted_pair (Py.sorted_set found))) as [Hnd Hin].
  split_and!; [done|done|by apply (sublist_NoDup _ _ Hnd)|].
  intros pq Hpq. apply (sublist_subseteq _ _ Hsub), Hin in Hpq.
  apply list_elem_of_fmap in Hpq as (c & -> & Hc).
  exists c. split; [|done].
  by apply (proj2 (OrderOfPairs.sorted_set_spec found)).
Qed.

(** What the loop over the pairs of a combination adds to a topology,
    for either builder, under symmetric migration. *)
Lemma sc_combo_events (config : Config) :
  symmetric config = true ->
  forall (combo : list (string * string)) (item md : Demography),
    Py.for_ combo (sc_add_pair config) item = inr md ->
    events md = events item ++ map (symmetric_change 0) combo /\
    populations md = populations item.
Proof.
  intros Hsym. induction combo as [|pq combo IH]; intros item md; simpl.
  - intros [= <-]. by rewrite app_nil_r.
  - unfold sc_add_pair at 1. rewrite Hsym.
    unfold set_symmetric_migration_rate.
    destruct (population_id item (fst pq)) as [?|i]; simpl; [discriminate|].
    destruct (population_id item (snd pq)) as [?|j]; simpl; [discriminate|].
    intros Hrun. apply IH in Hrun as [-> ->]. simpl.
    by rewrite <- app_assoc.
Qed.

Lemma dwg_combo_populations (config : Config) :
  symmetric config = true ->
  forall (combo : list (string * string)) (item md : Demography),
    Py.for_ combo (dwg_add_pair config) item = inr md ->
    events md = events item ++ map (symmetric_change migrateholder) combo /\
    populations md = populations item.
Proof.
  intros Hsym. induction combo as [|pq combo IH]; intros item md; simpl.
  - intros [= <-]. by rewrite app_nil_r.
  - unfold dwg_add_pair at 1. rewrite Hsym. simpl.
    intros Hrun. apply IH in Hrun as [-> ->]. simpl.
    by rewrite <- app_assoc.
Qed.

(** Topologies whose events are all at the placeholder time of the
    splits. *)
Lemma migration_models_layout (config : Config)
    (find : Config -> Demography -> Py.result (list (string * string)))
    (add_pair : Config -> Demography -> string * string -> Py.result Demography)
    (rate : Q) (divs out : list Demography) :
  symmetric config = true ->
  (forall combo item md,
     Py.for_ combo (add_pair config) item = inr md ->
     events md = events item ++ map (symmetric_change rate) combo /\
     populations md = populations item) ->
  Forall (fun item => forall e, e ∈ events item ->
                        time e = Float.Fin div_time_holder) divs ->
  create_migration_demographies config find add_pair divs = inr out ->
  Forall (migration_model config find rate divs) out.
Proof.
  intros Hsym Hadd Hdivs. unfold create_migration_demographies.
  destruct (Py.for_ divs _ _) as [?|st] eqn:Hrun; simpl; [discriminate|].
  intros [= <-]. revert Hrun.
  apply (for_invariant
           (fun st => Forall (migration_model config find rate divs)
                        (migration_demographies st))); [by constructor|].
  intros st0 item st1 Hitem Hst0.
  destruct (find config item) as [?|found] eqn:Hfound; simpl; [discriminate|].
  rewrite Hsym.
  destruct (Py.for_ (combos_of_migration config _) _ _) as [?|ds] eqn:Hds;
    simpl; [discriminate|].
  intros [= <-]. simpl. revert Hds.
  apply (for_invariant (Forall (migration_model config find rate divs)));
    [done|].
  intros ds0 combo ds1 Hcombo Hds0.
  destruct (Py.for_ combo (add_pair config) item) as [?|md] eqn:Hmd; simpl;
    [discriminate|].
  intros [= <-]. apply Forall_app. split; [done|]. apply Forall_singleton.
  apply Hadd in Hmd as [Hev Hpop].
  exists item, found, combo. split_and!; [done|done| | |done].
  - by apply migration_combo_intro.
  - simpl. rewrite Hev. apply sort_splits_then_migration.
    + by apply (proj1 (Forall_forall _ _) Hdivs item).
    + intros x (pq & -> & _)%list_elem_of_fmap. done.
Qed.

Lemma split_of_time (n : tree) : time (split_of n) = Float.Fin div_time_holder.
Proof. by destruct n. Qed.

Lemma divergence_models_placeholder (config : Config) (divs : list Demography) :
  _create_divergence_demographies config = inr divs ->
  Forall (fun item => forall e, e ∈ events item ->
                        time e = Float.Fin div_time_holder) divs.
Proof.
  destruct (TopologyFacts.divergence_topologies_shape config)
    as (kept & divs' & _ & -> & HF).
  intros [= <-]. induction HF as [|combo d kept' divs' (Hev & _) _ IH];
    constructor; [|done].
  intros e. rewrite Hev. intros (n & -> & _)%list_elem_of_fmap.
  apply split_of_time.
Qed.

Lemma built_migration_layout (config : Config) (models : Models) :
  symmetric config = true ->
  build_models config = inr models ->
  Forall (migration_model config _find_sc_to_include 0
            (divergence_demographies models))
    (sc_demographies models) /\
  Forall (migration_model config _find_dwg_to_include migrateholder
            (divergence_demographies models))
    (dwg_demographies models).
Proof.
  intros Hsym. unfold build_models.
  destruct (_create_divergence_demographies config) as [?|divs] eqn:Hdivs;
    simpl; [discriminate|].
  apply divergence_models_placeholder in Hdivs.
  assert (Hsc : forall sc,
             (if secondary_contact config
              then _create_sc_demographies config divs else Py.ret [])
             = inr sc ->
             Forall (migration_model config _find_sc_to_include 0 divs) sc).
  { intros sc. destruct (secondary_contact config).
    - by apply (migration_models_layout config _ sc_add_pair 0 divs sc Hsym
                  (sc_combo_events config Hsym)).
    - intros [= <-]. constructor. }
  assert (Hdwg : forall dwg,
             (if divergence_with_gene_flow config
              then _create_dwg_demographies config divs else Py.ret [])
             = inr dwg ->
             Forall (migration_model config _find_dwg_to_include migrateholder
                       divs) dwg).
  { intros dwg. destruct (divergence_with_gene_flow config).
    - by apply (migration_models_layout config _ dwg_add_pair migrateholder
                  divs dwg Hsym (dwg_combo_populations config Hsym)).
    - intros [= <-]. constructor. }
  destruct (if secondary_contact config then _ else _) as [?|sc]; simpl;
    [discriminate|].
  destruct (if divergence_with_gene_flow config then _ else _) as [?|dwg];
    simpl; [discriminate|].
  intros [= <-]. simpl. split; [by apply Hsc|by apply Hdwg].
Qed.

(** X5.  Under symmetric migration every migration model that
    [build_models] stores is made from one of the stored topologies and
    one combination of candidate pairs of that topology.  The
    combination holds at least one pair and at most
    [max migration events], no pair twice, each the sorted form of a
    candidate.  After [sort_events] the migration events of the
    combination, at the placeholder time 100 (rate 0 for secondary
    contact, 0.001 for divergence with gene flow), come first and in the
    order of the combination, followed by the splits of the topology;
    the populations are those of the topology.  With
    [max migration events] of zero or less there is no migration
    model. *)
Theorem X5_migration_models (config : Config) (models : Models) :
  symmetric config = true ->
  build_models config = inr models ->
  Forall (migration_model config _find_sc_to_include 0
            (divergence_demographies models))
    (sc_demographies models) /\
  Forall (migration_model config _find_dwg_to_include migrateholder
            (divergence_demographies models))
    (dwg_demographies models) /\
  ((max_migration_events config <= 0)%Z ->
   sc_demographies models = [] /\ dwg_demographies models = []).
Proof.
  intros Hsym Hrun.
  destruct (built_migration_layout config models Hsym Hrun) as [Hsc Hdwg].
  split_and!; [done|done|]. intros Hmax.
  assert (Hnone : forall find rate l,
             Forall (migration_model config find rate
                       (divergence_demographies models)) l -> l = []).
  { intros find rate [|d l] Hl; [done|].
    apply Forall_cons in Hl as [(item & cs & combo & _ & _ & Hcombo & _) _].
    destruct Hcombo as (Hne & Hlen & _). destruct combo; [done|].
    simpl in Hlen. lia. }
  split; by eapply Hnone.
Qed.

(** *** When the builder succeeds *)

Lemma index_from_total (nm : string) :
  forall (ps : list Population) (i : nat),
    nm ∈ map name ps -> exists j, index_from i ps nm = inr j.
Proof.
  induction ps as [|p ps IH]; intros i; simpl.
  - by intros ?%elem_of_nil.
  - intros Hin. destruct (String.eqb (name p) nm) eqn:Heq; [by eexists|].
    apply IH. apply elem_of_cons in Hin as [->|Hin]; [|done].
    by rewrite String.eqb_refl in Heq.
Qed.

Lemma sc_combo_total (config : Config) :
  symmetric config = true ->
  forall (combo : list (string * string)) (item : Demography),
    (forall pq, pq ∈ combo ->
       fst pq ∈ map name (populations item) /\
       snd pq ∈ map name (populations item)) ->
    exists md, Py.for_ combo (sc_add_pair config) item = inr md.
Proof.
  intros Hsym. induction combo as [|pq combo IH]; intros item Hpairs; simpl;
    [by eexists|].
  unfold sc_add_pair at 1. rewrite Hsym.
  unfold set_symmetric_migration_rate, population_id.
  destruct (Hpairs pq) as [H1 H2]; [by left|].
  destruct (index_from_total _ _ 0%nat H1) as (i & ->).
  destruct (index_from_total _ _ 0%nat H2) as (j & ->). simpl.
  apply IH. intros pq' Hpq'. simpl. apply Hpairs. by right.
Qed.

Lemma dwg_combo_total (config : Config) :
  symmetric config = true ->
  forall (combo : list (string * string)) (item : Demography),
    exists md, Py.for_ combo (dwg_add_pair config) item = inr md.
Proof.
  intros Hsym. induction combo as [|pq combo IH]; intros item; simpl;
    [by eexists|].
  unfold dwg_add_pair at 1. rewrite Hsym. simpl. apply IH.
Qed.

(** The loop of the migration builders runs to its end when the search
    and the loops over the pairs do. *)
Lemma migration_models_total (config : Config)
    (find : Config -> Demography -> Py.result (list (string * string)))
    (add_pair : Config -> Demography -> string * string -> Py.result Demography)
    (divs : list Demography) :
  symmetric config = true ->
  (forall item, item ∈ divs ->
     exists found,
       find config item = inr found /\
       forall combo,
         combo ∈ combos_of_migration config
                   (Py.sorted_set (map Py.sorted_pair (Py.sorted_set found))) ->
         exists md, Py.for_ combo (add_pair config) item = inr md) ->
  exists out, create_migration_demographies config find add_pair divs = inr out.
Proof.
  intros Hsym Hitems. unfold create_migration_demographies.
  edestruct (for_total (A := Demography) (S := mig_state)) as (st & ->);
    [|by eexists].
  intros st item Hitem.
  destruct (Hitems item Hitem) as (found & -> & Hcombos). simpl.
  rewrite Hsym.
  edestruct (for_total (A := list (string * string)) (S := list Demography))
    as (ds & ->); [|by eexists].
  intros ds combo Hcombo.
  destruct (Hcombos combo Hcombo) as (md & ->). by eexists.
Qed.

(** The derived populations of the splits of a topology of the builder
    are populations of that topology. *)
Lemma derived_are_populations (species_tree : tree) (combo : list tree)
    (d : Demography) (t : Float.t) (dv : string * string) (a : string) :
  events d = map split_of (uncollapsed species_tree combo) ->
  populations d
  = map placeholder
      (concat (map derived_names (uncollapsed species_tree combo))
       ++ [label_of species_tree]) ->
  PopulationSplit t dv a ∈ events d ->
  fst dv ∈ map name (populations d) /\ snd dv ∈ map name (populations d).
Proof.
  intros -> -> (n & Hn & Hin)%list_elem_of_fmap.
  assert (Hnode : exists label ne div c1 c2, n = Node label ne div c1 c2).
  { apply (TopologyFacts.internal_is_node species_tree).
    unfold uncollapsed in Hin. by apply list_elem_of_filter in Hin as [_ ?]. }
  destruct Hnode as (label & ne & div & c1 & c2 & ->).
  simpl in Hn. inversion Hn; subst. simpl.
  rewrite <- list_fmap_compose, fmap_app.
  split; apply elem_of_app; left; apply list_elem_of_fmap;
    [exists (label_of c1)|exists (label_of c2)]; (split; [done|]);
    apply list_elem_of_In, in_concat;
    exists (derived_names (Node label ne div c1 c2));
    (split; [apply in_map_iff; eexists; split; [done|by apply list_elem_of_In]|]);
    simpl; tauto.
Qed.

Lemma in_pair_inv (x : string) (pq : string * string) :
  Py.in_pair x pq = true -> x = fst pq \/ x = snd pq.
Proof.
  unfold Py.in_pair. rewrite orb_true_iff, !String.eqb_eq. tauto.
Qed.

Lemma sorted_pair_inv (c : string * string) :
  Py.sorted_pair c = c \/ Py.sorted_pair c = (snd c, fst c).
Proof. unfold Py.sorted_pair. destruct (String.leb _ _); tauto. Qed.

(** With asymmetric migration the first topology makes either
    migration builder fail. *)
Lemma asymmetric_fails (config : Config) (divs : list Demography) :
  symmetric config = false ->
  _create_divergence_demographies config = inr divs ->
  _create_sc_demographies config divs = inl (Py.UnboundLocalError "to_include") /\
  _create_dwg_demographies config divs = inl (Py.UnboundLocalError "to_include").
Proof.
  intros Hsym Hdivs.
  pose proof (GeneFlowModels.divergence_models_only config divs Hdivs) as Honly.
  destruct (TopologyFacts.divergence_topologies_shape config)
    as (kept & divs' & _ & Hdivs' & HF).
  rewrite Hdivs in Hdivs'. inversion Hdivs'; subst divs'. clear Hdivs'.
  destruct divs as [|item rest].
  { apply Forall2_length in HF. rewrite length_app in HF. simpl in HF. lia. }
  apply Forall_cons in Honly as [Hitem _].
  destruct (CandidateSearch.sc_search_total config item Hitem)
    as (f1 & Hf1 & _).
  destruct (CandidateSearch.dwg_search_total config item Hitem)
    as (f2 & Hf2).
  split.
  - apply (ScenarioFacts.asymmetric_never_binds config _ _ item rest f1 Hsym Hf1).
  - apply (ScenarioFacts.asymmetric_never_binds config _ _ item rest f2 Hsym Hf2).
Qed.


(** Where the models of [build_models] come from: each is a topology of
    the enumeration, or such a topology with the migration events of a
    combination put before its splits. *)
Lemma built_models_origin (config : Config) (models : Models) :
  build_models config = inr models ->
  forall d,
    d ∈ divergence_demographies models ++ sc_demographies models
        ++ dwg_demographies models ->
    exists combo migs,
      events d
      = migs ++ map split_of (uncollapsed (species_tree config) combo) /\
      (forall e, e ∈ migs -> has_rate e = true) /\
      populations d
      = map placeholder
          (concat (map derived_names (uncollapsed (species_tree config) combo))
           ++ [label_of (species_tree config)]).
Proof.
  intros Hrun.
  destruct (TopologyFacts.divergence_topologies_shape config)
    as (kept & divs & _ & Hdivs & HF).
  assert (Hitems : forall item, item ∈ divs ->
            exists combo,
              events item
              = map split_of (uncollapsed (species_tree config) combo) /\
              populations item
              = map placeholder
                  (concat (map derived_names
                             (uncollapsed (species_tree config) combo))
                   ++ [label_of (species_tree config)])).
  { intros item (i & Hi)%list_elem_of_lookup.
    destruct (Forall2_lookup_r _ _ _ _ _ HF Hi) as (cb & _ & Hev & Hpop & _).
    by exists cb. }
  assert (Hmig : forall find rate l,
             Forall (migration_model config find rate divs) l ->
             forall d, d ∈ l ->
               exists combo migs,
                 events d
                 = migs ++ map split_of (uncollapsed (species_tree config) combo) /\
                 (forall e, e ∈ migs -> has_rate e = true) /\
                 populations d
                 = map placeholder
                     (concat (map derived_names
                                (uncollapsed (species_tree config) combo))
                      ++ [label_of (species_tree config)])).
  { intros find rate l Hl d Hd.
    destruct (proj1 (Forall_forall _ _) Hl d Hd)
      as (item & cs & pairs & Hitem & _ & _ & Hev & Hpop).
    destruct (Hitems item Hitem) as (combo & Hev' & Hpop').
    exists combo, (map (symmetric_change rate) pairs).
    rewrite Hev, Hpop, Hev', Hpop'. split_and!; [done| |done].
    by intros e (pq & -> & _)%list_elem_of_fmap. }
  destruct (symmetric config) eqn:Hsym.
  - destruct (built_migration_layout config models Hsym Hrun) as (Hsc & Hdwg).
    revert Hrun Hsc Hdwg. unfold build_models. rewrite Hdivs. simpl.
    destruct (if secondary_contact config then _ else _) as [?|sc]; simpl;
      [discriminate|].
    destruct (if divergence_with_gene_flow config then _ else _) as [?|dwg];
      simpl; [discriminate|].
    intros [= <-]. simpl. intros Hsc Hdwg d.
    rewrite !elem_of_app. intros [Hd|[Hd|Hd]].
    + destruct (Hitems d Hd) as (combo & Hev & Hpop).
      exists combo, []. split_and!; [done| |done]. by intros e ?%elem_of_nil.
    + apply (Hmig _ _ _ Hsc d Hd).
    + apply (Hmig _ _ _ Hdwg d Hd).
  - revert Hrun. unfold build_models. rewrite Hdivs. simpl.
    destruct (asymmetric_fails config divs Hsym Hdivs) as [-> ->].
    destruct (secondary_contact config); simpl; [discriminate|].
    destruct (divergence_with_gene_flow config); simpl; [discriminate|].
    intros [= <-]. simpl. intros d. rewrite app_nil_r.
    intros Hd. destruct (Hitems d Hd) as (combo & Hev & Hpop).
    exists combo, []. split_and!; [done| |done]. by intros e ?%elem_of_nil.
Qed.

End MigrationModels.

(** ** The priors of the species tree *)

Module PriorFacts.

Import Enumerate Sampler Spec Behaviour.

(** The loop of [_get_priors]: a later node of the same name overwrites
    the entry of an earlier one. *)
Lemma priors_loop (k : string) :
  forall (nodes : list tree) (acc : gmap string (Z * Z) * gmap string (Z * Z)),
    let out :=
      fold_left
        (fun acc node =>
           match node with
           | Leaf taxon ne => (<[taxon := ne]> (fst acc), snd acc)
           | Node label ne div _ _ =>
               (<[label := ne]> (fst acc), <[label := div]> (snd acc))
           end)
        nodes acc in
    fst out !! k
    = match last (filter (fun n => label_of n = k) nodes) with
      | Some n => Some (ne_of n)
      | None => fst acc !! k
      end /\
    snd out !! k
    = match last (omap div_of (filter (fun n => label_of n = k) nodes)) with
      | Some div => Some div
      | None => snd acc !! k
      end.
Proof.
  induction nodes as [|n nodes IH]; intros acc; simpl; [done|].
  destruct (IH (match n with
                | Leaf taxon ne => (<[taxon := ne]> (fst acc), snd acc)
                | Node label ne div _ _ =>
                    (<[label := ne]> (fst acc), <[label := div]> (snd acc))
                end)) as [IH1 IH2].
  cbv zeta. rewrite IH1, IH2. clear IH IH1 IH2.
  rewrite filter_cons.
  destruct (decide (label_of n = k)) as [Heq|Hne].
  - split.
    + rewrite last_cons.
      destruct (last (filter _ nodes)); [done|].
      destruct n; simpl in *; subst; by rewrite lookup_insert_eq.
    + destruct n as [taxon ne|label ne div c1 c2]; simpl in *.
      * done.
      * rewrite last_cons. unfold omap.
        destruct (last (list_omap _ _ _ _)); [done|].
        subst. by rewrite lookup_insert_eq.
  - split.
    + destruct (last (filter _ nodes)); [done|].
      destruct n; simpl in *; by rewrite lookup_insert_ne.
    + destruct (last (omap _ _)); [done|].
      destruct n; simpl in *; [done|]. by rewrite lookup_insert_ne.
Qed.

Lemma filter_none {A} (P : A -> Prop) `{forall x, Decision (P x)} (l : list A) :
  (forall x, x ∈ l -> ~ P x) -> filter P l = [].
Proof.
  induction l as [|x l IH]; intros Hl; [done|].
  rewrite filter_cons, decide_False by (apply Hl; by left).
  apply IH. intros y Hy. apply Hl. by right.
Qed.

(** Among nodes of pairwise distinct names, a name selects its node. *)
Lemma filter_label (nodes : list tree) (node : tree) :
  NoDup (map label_of nodes) -> node ∈ nodes ->
  filter (fun n => label_of n = label_of node) nodes = [node].
Proof.
  induction nodes as [|m nodes IH]; simpl; [by intros _ ?%elem_of_nil|].
  intros [Hm Hnd]%NoDup_cons Hin. rewrite filter_cons.
  apply elem_of_cons in Hin as [->|Hin].
  - rewrite decide_True by done. f_equal.
    apply filter_none. intros n Hn Heq.
    apply Hm. rewrite <- Heq. by apply list_elem_of_fmap_2.
  - rewrite decide_False; [by apply IH|].
    intros Heq. apply Hm. rewrite Heq. by apply list_elem_of_fmap_2.
Qed.

Lemma filter_label_none (nodes : list tree) (k : string) :
  k ∉ map label_of nodes -> filter (fun n => label_of n = k) nodes = [].
Proof.
  intros Hk. apply filter_none. intros n Hn Heq.
  apply Hk. rewrite <- Heq. by apply list_elem_of_fmap_2.
Qed.

(** The entries of a node among nodes of pairwise distinct names. *)
Lemma prior_of_node (species_tree node : tree) :
  NoDup (map label_of (postorder_node_iter species_tree)) ->
  node ∈ postorder_node_iter species_tree ->
  fst (Priors._get_priors species_tree) !! label_of node = Some (ne_of node) /\
  snd (Priors._get_priors species_tree) !! label_of node = div_of node.
Proof.
  intros Hnd Hnode. unfold Priors._get_priors.
  destruct (priors_loop (label_of node) (postorder_node_iter species_tree)
              (∅, ∅)) as [H1 H2].
  cbv zeta in H1, H2. rewrite H1, H2, (filter_label _ _ Hnd Hnode).
  split; [done|]. simpl. by destruct (div_of node).
Qed.

(** X7.  For a species tree whose nodes carry pairwise distinct names,
    [_get_priors] maps the name of every node to its [ne] range, maps
    the label of every internal node to its [div] range and has no
    divergence entry for a leaf; a name that is not in the tree has no
    entry in either dict. *)
Theorem X7_priors_of_the_tree (species_tree : tree) :
  NoDup (map label_of (postorder_node_iter species_tree)) ->
  (forall node, node ∈ postorder_node_iter species_tree ->
     fst (Priors._get_priors species_tree) !! label_of node
     = Some (ne_of node) /\
     snd (Priors._get_priors species_tree) !! label_of node = div_of node) /\
  (forall k, k ∉ map label_of (postorder_node_iter species_tree) ->
     fst (Priors._get_priors species_tree) !! k = None /\
     snd (Priors._get_priors species_tree) !! k = None).
Proof.
  intros Hnd. split.
  - intros node Hnode. by apply prior_of_node.
  - intros k Hk. unfold Priors._get_priors.
    destruct (priors_loop k (postorder_node_iter species_tree) (∅, ∅))
      as [H1 H2].
    cbv zeta in H1, H2. by rewrite H1, H2, (filter_label_none _ _ Hk).
Qed.

(** *** The priors and the models of the builder *)

Lemma internal_in_postorder (t n : tree) :
  n ∈ postorder_internal_node_iter t -> n ∈ postorder_node_iter t.
Proof.
  induction t as [|label ne div c1 IH1 c2 IH2]; simpl.
  - by intros ?%elem_of_nil.
  - rewrite !elem_of_app. intros [?|[?|?]]; auto.
Qed.

Lemma node_is_internal (t : tree) (label : string) (ne div : Z * Z)
    (c1 c2 : tree) :
  Node label ne div c1 c2 ∈ postorder_node_iter t ->
  Node label ne div c1 c2 ∈ postorder_internal_node_iter t.
Proof.
  induction t as [|l n d t1 IH1 t2 IH2]; simpl.
  - by intros ?%list_elem_of_singleton.
  - rewrite !elem_of_app. intros [?|[?|?]]; auto.
Qed.

Lemma root_in_postorder (t : tree) : t ∈ postorder_node_iter t.
Proof.
  destruct t; simpl; [by left|]. rewrite !elem_of_app. right. right. by left.
Qed.

Lemma children_in_postorder (t : tree) (label : string) (ne div : Z * Z)
    (c1 c2 : tree) :
  Node label ne div c1 c2 ∈ postorder_node_iter t ->
  c1 ∈ postorder_node_iter t /\ c2 ∈ postorder_node_iter t.
Proof.
  induction t as [|l n d t1 IH1 t2 IH2]; simpl.
  - by intros ?%list_elem_of_singleton.
  - rewrite !elem_of_app, list_elem_of_singleton.
    intros [H|[H|H]].
    + destruct (IH1 H). auto.
    + destruct (IH2 H). auto.
    + inversion H; subst. split; [left|right; left]; apply root_in_postorder.
Qed.

(** A name of the tree has a size prior: the range of the last node of
    that name. *)
Lemma size_prior_of_name (species_tree : tree) (k : string) :
  k ∈ map label_of (postorder_node_iter species_tree) ->
  exists node,
    node ∈ postorder_node_iter species_tree /\ label_of node = k /\
    fst (Priors._get_priors species_tree) !! k = Some (ne_of node).
Proof.
  intros (n & -> & Hn)%list_elem_of_fmap. unfold Priors._get_priors.
  destruct (priors_loop (label_of n) (postorder_node_iter species_tree) (∅, ∅))
    as [H1 _].
  cbv zeta in H1. rewrite H1.
  destruct (last (filter _ _)) as [m|] eqn:Hlast.
  - apply last_Some_elem_of, list_elem_of_filter in Hlast as [Heq Hm].
    by exists m.
  - apply last_None in Hlast.
    assert (Hin : n ∈ filter (fun m => label_of m = label_of n)
                    (postorder_node_iter species_tree))
      by (by apply list_elem_of_filter).
    rewrite Hlast in Hin. by apply elem_of_nil in Hin.
Qed.

(** The label of an internal node has a divergence prior: the range of
    the last internal node of that label. *)
Lemma divergence_prior_of_label (species_tree n : tree) :
  n ∈ postorder_internal_node_iter species_tree ->
  exists node div,
    node ∈ postorder_internal_node_iter species_tree /\
    label_of node = label_of n /\ div_of node = Some div /\
    snd (Priors._get_priors species_tree) !! label_of n = Some div.
Proof.
  intros Hn. unfold Priors._get_priors.
  destruct (priors_loop (label_of n) (postorder_node_iter species_tree) (∅, ∅))
    as [_ H2].
  cbv zeta in H2. rewrite H2.
  destruct (last (omap _ _)) as [div|] eqn:Hlast.
  - apply last_Some_elem_of, list_elem_of_omap in Hlast as (m & Hm & Hdiv).
    apply list_elem_of_filter in Hm as [Heq Hm].
    exists m, div. split_and!; [|done..].
    destruct m; [done|]. by apply node_is_internal.
  - apply last_None in Hlast.
    destruct (TopologyFacts.internal_is_node _ _ Hn)
      as (label & ne & div & c1 & c2 & ->).
    assert (Hin : div ∈ omap div_of
                    (filter (fun m => label_of m = label)
                       (postorder_node_iter species_tree))).
    { apply list_elem_of_omap. exists (Node label ne div c1 c2).
      split; [|done]. apply list_elem_of_filter. split; [done|].
      by apply internal_in_postorder. }
    simpl in Hlast. rewrite Hlast in Hin. by apply elem_of_nil in Hin.
Qed.

(** X9.  The priors read from the species tree cover every model that
    [build_models] stores, whatever its category: each population of the
    model is named after a node of the tree and has that node's [ne]
    range as its size prior, and the ancestral population of each split
    is the label of an internal node and has that node's [div] range as
    its divergence prior.  (With several nodes of one name the range is
    that of the last of them in postorder.) *)
Theorem X9_priors_cover_models (config : Config) (models : Models) :
  build_models config = inr models ->
  forall d,
    d ∈ divergence_demographies models ++ sc_demographies models
        ++ dwg_demographies models ->
    (forall p, p ∈ populations d ->
       exists node,
         node ∈ postorder_node_iter (species_tree config) /\
         label_of node = name p /\
         fst (Priors._get_priors (species_tree config)) !! name p
         = Some (ne_of node)) /\
    (forall t dv a, PopulationSplit t dv a ∈ events d ->
       exists node div,
         node ∈ postorder_internal_node_iter (species_tree config) /\
         label_of node = a /\ div_of node = Some div /\
         snd (Priors._get_priors (species_tree config)) !! a = Some div).
Proof.
  intros Hrun d Hd.
  destruct (MigrationModels.built_models_origin config models Hrun d Hd)
    as (combo & migs & Hev & Hmigs & Hpop).
  split.
  - intros p Hp. apply size_prior_of_name.
    rewrite Hpop in Hp. apply list_elem_of_fmap in Hp as (nm & -> & Hnm).
    simpl. apply elem_of_app in Hnm as [Hnm|Hnm].
    + apply list_elem_of_In, in_concat in Hnm as (names & Hnames & Hnm).
      apply in_map_iff in Hnames as (n & <- & Hn).
      apply list_elem_of_In in Hn. unfold uncollapsed in Hn.
      apply list_elem_of_filter in Hn as [_ Hn].
      destruct (TopologyFacts.internal_is_node _ _ Hn)
        as (label & ne & div & c1 & c2 & ->).
      apply internal_in_postorder, children_in_postorder in Hn as [H1 H2].
      simpl in Hnm. destruct Hnm as [<-|[<-|[]]]; by apply list_elem_of_fmap_2.
    + apply list_elem_of_singleton in Hnm as ->.
      apply list_elem_of_fmap_2, root_in_postorder.
  - intros t dv a Hin. rewrite Hev in Hin.
    apply elem_of_app in Hin as [Hin|Hin].
    { by apply Hmigs in Hin. }
    apply list_elem_of_fmap in Hin as (n & Hn & Hin).
    unfold uncollapsed in Hin. apply list_elem_of_filter in Hin as [_ Hin].
    destruct (divergence_prior_of_label _ _ Hin) as (node & div & H1 & H2 & H3 & H4).
    destruct (TopologyFacts.internal_is_node _ _ Hin)
      as (label & ne & div' & c1 & c2 & ->).
    simpl in *. inversion Hn; subst. by exists node, div.
Qed.

End PriorFacts.

(** ** The population sizes *)

Module SizeFacts.

Import Enumerate Sampler Spec Behaviour RoundFacts.

Section WithGenerator.

Variable rng : Type.
Variable random_uniform : Q -> Q -> rng -> Q * rng.

Hypothesis uniform_range :
  forall lo hi g,
    (lo <= hi)%Q ->
    (lo <= fst (random_uniform lo hi g))%Q /\
    (fst (random_uniform lo hi g) <= hi)%Q.

(** A vector draw from a well-formed range succeeds and stays in it. *)
Lemma uniform_size_total (lo hi : Q) (size : nat) (g : rng) :
  (lo <= hi)%Q ->
  exists l g',
    uniform_size rng random_uniform lo hi size g = inr (l, g') /\
    length l = size /\
    Forall (fun u => (lo <= u)%Q /\ (u <= hi)%Q) l.
Proof.
  intros Hle. unfold uniform_size.
  rewrite (proj2 (Qle_bool_iff lo hi) Hle).
  enough (Hgen : forall (idx : list nat) g,
             exists l g',
               mmap (fun _ => uniform rng random_uniform lo hi) idx g
               = inr (l, g') /\
               length l = length idx /\
               Forall (fun u => (lo <= u)%Q /\ (u <= hi)%Q) l).
  { destruct (Hgen (seq 0 size) g) as (l & g' & Hrun & Hlen & Hall).
    exists l, g'. by rewrite length_seq in Hlen. }
  induction idx as [|i idx IH]; intros g0; simpl.
  - exists [], g0. by split_and!.
  - unfold mbind at 1, uniform at 1.
    rewrite (proj2 (Qle_bool_iff lo hi) Hle).
    destruct (random_uniform lo hi g0) as [u g1] eqn:Hu.
    destruct (IH g1) as (l & g' & Hrun & Hlen & Hall).
    unfold mbind at 1. rewrite Hrun. unfold mret.
    exists (u :: l), g'. split_and!; [done|by simpl; f_equal|].
    constructor; [|done].
    pose proof (uniform_range lo hi g0 Hle) as Hr. by rewrite Hu in Hr.
Qed.

(** The loop of [_draw_population_sizes] from any state. *)
Lemma draw_sizes_loop (config : Config) (population_sizes : gmap string (Z * Z)) :
  forall (l : list (nat * Population))
         (st : gmap string (list Q) * gmap string nat) (g : rng),
    (forall ip, ip ∈ l ->
       exists range, population_sizes !! name (snd ip) = Some range /\
                     (fst range <= snd range)%Z) ->
    (forall k li, fst st !! k = Some li ->
       exists range, population_sizes !! k = Some range /\
                     drawn_within config range li) ->
    exists st' g',
      mfor l
        (fun st ip =>
           let population := snd ip in
           prior <~ lift (Py.getitem population_sizes (name population)) ;;
           draws <~ uniform_size rng random_uniform (inject_Z (fst prior))
                      (inject_Z (snd prior)) (replicates config) ;;
           mret (<[name population := map (Numpy.round 0) draws]> (fst st),
                 <[name population := fst ip]> (snd st)))
        st g = inr (st', g') /\
      (forall k li, fst st' !! k = Some li ->
         exists range, population_sizes !! k = Some range /\
                       drawn_within config range li) /\
      (forall k, is_Some (fst st' !! k) <->
                 is_Some (fst st !! k) \/ k ∈ map (fun ip => name (snd ip)) l).
Proof.
  induction l as [|[i p] l IH]; intros st g Hvalid Hgood; simpl.
  - exists st, g. split_and!; [done|done|].
    intros k. split; [by left|]. by intros [?|?%elem_of_nil].
  - destruct (Hvalid (i, p)) as ([lo hi] & Hprior & Hle); [by left|].
    simpl in Hprior, Hle.
    unfold mbind at 1. unfold mbind at 1, lift, Py.getitem. rewrite Hprior.
    simpl.
    destruct (uniform_size_total (inject_Z lo) (inject_Z hi)
                (replicates config) g) as (ds & g1 & Hds & Hlen & Hall).
    { by rewrite <- Zle_Qle. }
    unfold mbind at 1. rewrite Hds. unfold mret at 1.
    destruct (IH (<[name p := map (Numpy.round 0) ds]> (fst st),
                  <[name p := i]> (snd st)) g1)
      as (st' & g' & Hrun & Hgood' & Hdom).
    { intros ip Hip. apply Hvalid. by right. }
    { simpl. intros k li. destruct (decide (name p = k)) as [<-|Hne].
      - rewrite lookup_insert_eq. intros [= <-]. exists (lo, hi).
        split; [done|]. split; [by rewrite length_map|].
        apply Forall_forall. intros v (u & -> & Hu)%list_elem_of_fmap.
        destruct (proj1 (Forall_forall _ _) Hall u Hu) as [H1 H2].
        split; [apply round_integral|].
        apply round_between; [by exists lo|by exists hi|done..].
      - rewrite lookup_insert_ne by done. apply Hgood. }
    exists st', g'. split_and!; [done|done|].
    intros k. rewrite Hdom. simpl. rewrite elem_of_cons.
    destruct (decide (name p = k)) as [<-|Hne].
    + rewrite lookup_insert_eq. split; [intros _|intros _; left; by eexists].
      right. by left.
    + rewrite lookup_insert_ne by done. split.
      * intros [?|?]; [by left|right; by right].
      * intros [?|[?|?]]; [by left|congruence|by right].
Qed.

(** The names of the enumerated populations. *)
Lemma indexed_names (ps : list Population) :
  map (fun ip : nat * Population => name (snd ip))
    (imap (fun index population => (index, population)) ps)
  = map name ps.
Proof.
  change (fun ip : nat * Population => name (snd ip))
    with (name ∘ (snd : nat * Population -> Population)).
  rewrite list_fmap_compose. f_equal.
  apply list_eq. intros i. rewrite list_lookup_fmap, list_lookup_imap.
  by destruct (ps !! i).
Qed.


End WithGenerator.

End SizeFacts.

(** ** The divergence times *)

Module DivergenceFacts.

Import Enumerate Sampler Spec Behaviour RoundFacts.

Section WithGenerator.

Variable rng : Type.
Variable random_uniform : Q -> Q -> rng -> Q * rng.

Hypothesis uniform_range :
  forall lo hi g,
    (lo <= hi)%Q ->
    (lo <= fst (random_uniform lo hi g))%Q /\
    (fst (random_uniform lo hi g) <= hi)%Q.

(** An invariant of a loop that draws. *)
Lemma mfor_invariant {A S} (P : S -> Prop) (body : S -> A -> M rng S) :
  forall (l : list A) (s : S) (g : rng) (s' : S) (g' : rng),
    P s ->
    (forall s x g s' g', x ∈ l -> P s -> body s x g = inr (s', g') -> P s') ->
    mfor l body s g = inr (s', g') ->
    P s'.
Proof.
  induction l as [|x l IH]; intros s g s' g' Hs Hbody; simpl.
  - unfold mret. by intros [= <- _].
  - unfold mbind. destruct (body s x g) as [?|[s1 g1]] eqn:Hx; [discriminate|].
    apply IH.
    + eapply Hbody; [|exact Hs|exact Hx]. by left.
    + intros s2 y g2 s3 g3 Hy. apply Hbody. by right.
Qed.

Lemma zeros_entry (config : Config) (dts : gmap string (Z * Z)) (k : string) :
  divergence_entry config dts k (zeros config).
Proof.
  split_and!; [apply repeat_length| |by left].
  apply Forall_forall. intros v ->%list_elem_of_In%repeat_spec.
  split; [by exists 0|done].
Qed.

Lemma draw_event_entries (config : Config) (dts : gmap string (Z * Z))
    (draws draws' : gmap string (list Q)) (e : Event) (g g' : rng) :
  (forall k l, draws !! k = Some l -> divergence_entry config dts k l) ->
  draw_divergence_event rng random_uniform config dts draws e g
  = inr (draws', g') ->
  (forall k l, draws' !! k = Some l -> divergence_entry config dts k l) /\
  (forall k, is_Some (draws' !! k) <->
             is_Some (draws !! k) \/ k ∈ ancestral_names [e]) /\
  (forall k, k ∉ ancestral_names [e] -> draws' !! k = draws !! k).
Proof.
  intros Hinv.
  destruct e as [t derived ancestral|t src dst r|t pops r]; simpl;
    try (unfold mret; intros [= <- _]; split_and!; [done| |done];
         intros k; split; [by left|by intros [?|?%elem_of_nil]]).
  assert (Hins : forall la,
             divergence_entry config dts ancestral la ->
             (forall k l, <[ancestral := la]> draws !! k = Some l ->
                          divergence_entry config dts k l) /\
             (forall k, is_Some (<[ancestral := la]> draws !! k) <->
                        is_Some (draws !! k) \/ k ∈ [ancestral]) /\
             (forall k, k ∉ [ancestral] ->
                        <[ancestral := la]> draws !! k = draws !! k)).
  { intros la Hla. split_and!.
    - intros k l. destruct (decide (ancestral = k)) as [<-|Hne].
      + rewrite lookup_insert_eq. by intros [= <-].
      + rewrite lookup_insert_ne by done. apply Hinv.
    - intros k. rewrite list_elem_of_singleton.
      destruct (decide (ancestral = k)) as [<-|Hne].
      + rewrite lookup_insert_eq. split; [by right|by eexists].
      + rewrite lookup_insert_ne by done.
        split; [by left|by intros [?|?]].
    - intros k Hk. rewrite lookup_insert_ne; [done|].
      intros <-. apply Hk. by left. }
  destruct (Float.nonzero t).
  - unfold mbind at 1, lift, Py.getitem.
    destruct (draws !! fst derived) as [l1|] eqn:H1; [|discriminate].
    unfold mbind at 1.
    destruct (draws !! snd derived) as [l2|] eqn:H2; [|discriminate].
    unfold mbind at 1.
    destruct (dts !! ancestral) as [[lo hi]|] eqn:Hp; [|discriminate].
    unfold mbind at 1. simpl fst. simpl snd.
    match goal with
    | |- context [mmap ?f ?l ?g] =>
        destruct (mmap f l g) as [err|[la g1]] eqn:Hm; [discriminate|]
    end.
    unfold mret. intros [= <- <-]. apply Hins.
    apply (SamplerFacts.mmap_inr rng) in Hm.
    destruct (Hinv _ _ H1) as (Hlen1 & Hall1 & _).
    destruct (Hinv _ _ H2) as (Hlen2 & Hall2 & _).
    assert (Hdrawn : forall i va, la !! i = Some va ->
               integral va /\ (0 <= va)%Q /\
               (inject_Z lo <= va)%Q /\ (va <= inject_Z hi)%Q).
    { intros i va Hva.
      destruct (Forall2_lookup_r _ _ _ _ _ Hm Hva) as (x & Hx & g2 & g3 & Hdraw).
      apply SamplerFacts.min_values_lookup in Hx as (v1 & v2 & Hv1 & Hv2 & ->).
      destruct (Forall_lookup_1 _ _ _ _ Hall1 Hv1) as [Hi1 Hn1].
      destruct (Forall_lookup_1 _ _ _ _ Hall2 Hv2) as [Hi2 Hn2].
      apply (SamplerFacts.drawn_value rng random_uniform uniform_range) in Hdraw
        as (Hlo & Hhi & Hi); [| |by eexists].
      2:{ apply integral_max; [|by eexists]. by apply integral_max. }
      split_and!; [done| | |done].
      - apply (Qle_trans _ v1); [done|].
        apply (Qle_trans _ (Qmax (Qmax v1 v2) (inject_Z lo))); [|done].
        apply (Qle_trans _ (Qmax v1 v2)); apply Q.le_max_l.
      - apply (Qle_trans _ (Qmax (Qmax v1 v2) (inject_Z lo))); [|done].
        apply Q.le_max_r. }
    split_and!.
    + rewrite <- (Forall2_length _ _ _ Hm).
      by apply SamplerFacts.min_values_length.
    + apply Forall_lookup. intros i va Hva.
      destruct (Hdrawn i va Hva) as (? & ? & _). done.
    + right. exists (lo, hi). split; [done|].
      apply Forall_lookup. intros i va Hva.
      destruct (Hdrawn i va Hva) as (_ & _ & ? & ?). done.
  - unfold mret. intros [= <- <-]. apply Hins, zeros_entry.
Qed.

Lemma draw_events_entries (config : Config) (dts : gmap string (Z * Z)) :
  forall (evs : list Event) (draws draws' : gmap string (list Q)) (g g' : rng),
    (forall k l, draws !! k = Some l -> divergence_entry config dts k l) ->
    mfor evs (draw_divergence_event rng random_uniform config dts) draws g
    = inr (draws', g') ->
    (forall k l, draws' !! k = Some l -> divergence_entry config dts k l) /\
    (forall k, is_Some (draws' !! k) <->
               is_Some (draws !! k) \/ k ∈ ancestral_names evs) /\
    (forall k, k ∉ ancestral_names evs -> draws' !! k = draws !! k).
Proof.
  induction evs as [|e evs IH]; intros draws draws' g g' Hinv; simpl.
  - unfold mret. intros [= <- _]. split_and!; [done| |done].
    intros k. split; [by left|by intros [?|?%elem_of_nil]].
  - unfold mbind.
    destruct (draw_divergence_event _ _ _ _ _ _ _) as [?|[d1 g1]] eqn:He;
      [discriminate|].
    intros Hrun.
    apply draw_event_entries in He as (Hinv1 & Hdom1 & Hkeep1); [|done].
    apply IH in Hrun as (Hinv' & Hdom' & Hkeep'); [|done].
    split_and!; [done| |].
    + intros k. rewrite Hdom', Hdom1.
      rewrite (SamplerFacts.ancestral_names_cons e evs k). tauto.
    + intros k Hk. rewrite Hkeep', Hkeep1; [done| |].
      * intros Hin. apply Hk.
        apply (SamplerFacts.ancestral_names_cons e evs k). by left.
      * intros Hin. apply Hk.
        apply (SamplerFacts.ancestral_names_cons e evs k). by right.
Qed.


End WithGenerator.

End DivergenceFacts.

(** ** The times at which migration stops *)

Module StopTimes.

Import Enumerate Sampler Spec Behaviour RoundFacts.

(** A comprehension that cannot raise. *)
Lemma map_total {A B} (f : A -> Py.result B) (P : A -> B -> Prop) :
  forall l : list A,
    (forall x, x ∈ l -> exists y, f x = inr y /\ P x y) ->
    exists ys, Py.map_ f l = inr ys /\ Forall2 P l ys.
Proof.
  induction l as [|x l IH]; intros Hf; simpl.
  - exists []. by split.
  - destruct (Hf x) as (y & -> & Hy); [by left|]. simpl.
    destruct IH as (ys & -> & Hys); [intros z Hz; apply Hf; by right|].
    exists (y :: ys). split; [done|]. by constructor.
Qed.

(** Half of a positive integer, rounded up, is at least one and at most
    the integer. *)
Lemma half_ceil_bounds (w : Q) :
  integral w -> (0 < w)%Q ->
  (1 <= Numpy.ceil (w / 2))%Q /\ (Numpy.ceil (w / 2) <= w)%Q.
Proof.
  intros [z Hz] Hpos. unfold Numpy.ceil.
  pose proof (Qle_ceiling (w / 2)) as Hle.
  pose proof (Qceiling_lt (w / 2)) as Hlt.
  set (c := Qceiling (w / 2)) in *. clearbody c.
  rewrite Hz in Hpos, Hle, Hlt. rewrite Hz.
  unfold Qdiv in Hle, Hlt. change (/ 2)%Q with (1 # 2)%Q in Hle, Hlt.
  unfold Z.sub in Hlt. rewrite inject_Z_plus in Hlt.
  change (inject_Z (- (1))) with (- (1))%Q in Hlt.
  assert (Hz1 : (1 <= z)%Z).
  { assert (0 < z)%Z; [|lia]. rewrite Zlt_Qlt. exact Hpos. }
  assert (H1 : (z <= 2 * c)%Z).
  { rewrite Zle_Qle, inject_Z_mult.
    change (inject_Z 2) with 2%Q. lra. }
  assert (H2 : (2 * c < z + 2)%Z).
  { rewrite Zlt_Qlt, inject_Z_mult, inject_Z_plus.
    change (inject_Z 2) with 2%Q. lra. }
  split.
  - change 1%Q with (inject_Z 1). rewrite <- Zle_Qle. lia.
  - rewrite <- Zle_Qle. lia.
Qed.

(** The loop over the dict for one replicate does not raise when every
    entry has a value for that replicate. *)
Lemma minimum_divergence_total (draws : gmap string (list Q)) (rep : nat) :
  (forall k l, draws !! k = Some l -> is_Some (l !! rep)) ->
  exists mn, minimum_divergence draws rep = inr mn.
Proof.
  intros Hrep. unfold minimum_divergence.
  apply for_total. intros mn [k l] Hin.
  apply elem_of_map_to_list in Hin.
  destruct (Hrep k l Hin) as (v & Hv). unfold Py.index. simpl.
  rewrite Hv. by eexists.
Qed.

(** X11.  For a dict of divergence times as [_draw_divergence_times]
    makes them (one non-negative integer per replicate in every entry),
    [_get_migration_stops] does not raise and returns one stop time per
    replicate.  The stop time of a replicate is [np.inf] when no
    population has a positive divergence time in that replicate;
    otherwise it is an integer, at least 1 and not later than any
    positive divergence time of the replicate. *)
Theorem X11_migration_stops (config : Config) (draws : gmap string (list Q)) :
  (forall k l, draws !! k = Some l -> time_entry config l) ->
  exists stops,
    _get_migration_stops config draws = inr stops /\
    length stops = replicates config /\
    forall rep stop, stops !! rep = Some stop ->
      (stop = Float.Inf /\
       forall k l v, draws !! k = Some l -> l !! rep = Some v -> (v == 0)%Q) \/
      (exists s,
         stop = Float.Fin s /\ integral s /\ (1 <= s)%Q /\
         forall k l v, draws !! k = Some l -> l !! rep = Some v ->
                       (0 < v)%Q -> (s <= v)%Q).
Proof.
  intros Hinv. unfold _get_migration_stops.
  destruct (map_total (minimum_divergence draws)
              (fun rep mn => minimum_divergence draws rep = inr mn)
              (seq 0 (replicates config))) as (mins & -> & HF).
  { intros rep Hrep. apply list_elem_of_In, in_seq in Hrep.
    destruct (minimum_divergence_total draws rep) as (mn & Hmn);
      [|by exists mn].
    intros k l Hl. destruct (Hinv k l Hl) as [Hlen _].
    apply lookup_lt_is_Some. lia. }
  simpl. eexists. split; [done|]. split.
  { rewrite length_map, <- (Forall2_length _ _ _ HF). apply length_seq. }
  intros rep stop Hstop.
  rewrite list_lookup_fmap in Hstop.
  destruct (mins !! rep) as [mn|] eqn:Hmn; [|done].
  simpl in Hstop. inversion Hstop; subst stop. clear Hstop.
  destruct (Forall2_lookup_r _ _ _ _ _ HF Hmn) as (i & Hi & Hrun).
  apply ReplicateFacts.lookup_seq_0 in Hi as ->.
  apply StopFacts.minimum_divergence_spec in Hrun as [Hall Hcase].
  destruct Hcase as [->|(k0 & l0 & w & Hl0 & Hw & Hpos & ->)].
  - left. split; [done|]. intros k l v Hl Hv.
    destruct (Hall k l Hl) as (v' & Hv' & Hle).
    rewrite Hv in Hv'. inversion Hv'; subst v'.
    destruct (Hinv k l Hl) as [_ Hnn].
    destruct (Forall_lookup_1 _ _ _ _ Hnn Hv) as [_ H0].
    destruct (Qlt_le_dec 0 v) as [Hlt|Hge]; [|lra].
    by specialize (Hle Hlt).
  - right. exists (Numpy.ceil (w / 2)).
    destruct (Hinv k0 l0 Hl0) as [_ Hnn].
    destruct (Forall_lookup_1 _ _ _ _ Hnn Hw) as [Hint _].
    destruct (half_ceil_bounds w Hint Hpos) as [H1 H2].
    split_and!; [done|by eexists|done|].
    intros k l v Hl Hv Hv0.
    destruct (Hall k l Hl) as (v' & Hv' & Hle).
    rewrite Hv in Hv'. inversion Hv'; subst v'.
    specialize (Hle Hv0). apply FloatFacts.leb_Fin in Hle. lra.
Qed.

End StopTimes.

(** ** The replicates of [draw_parameters] *)

Module ReplicateShape.

Import Enumerate Sampler Spec Behaviour RoundFacts.

Section WithGenerator.

Variable rng : Type.
Variable random_uniform : Q -> Q -> rng -> Q * rng.

Hypothesis uniform_range :
  forall lo hi g,
    (lo <= hi)%Q ->
    (lo <= fst (random_uniform lo hi g))%Q /\
    (fst (random_uniform lo hi g) <= hi)%Q.

(** The values of a vector draw that returned. *)
Lemma uniform_size_inr (lo hi : Q) (size : nat) (g g' : rng) (l : list Q) :
  uniform_size rng random_uniform lo hi size g = inr (l, g') ->
  length l = size /\ Forall (fun u => (lo <= u)%Q /\ (u <= hi)%Q) l.
Proof.
  unfold uniform_size. destruct (Qle_bool lo hi); [|discriminate].
  intros Hrun. apply (SamplerFacts.mmap_inr rng) in Hrun. split.
  - rewrite <- (Forall2_length _ _ _ Hrun). apply length_seq.
  - apply Forall_lookup. intros i u Hu.
    destruct (Forall2_lookup_r _ _ _ _ _ Hrun Hu) as (x & _ & g1 & g2 & Hdraw).
    by apply (SamplerFacts.uniform_inr rng random_uniform uniform_range)
      in Hdraw.
Qed.

(** The size draws that [_draw_population_sizes] returned. *)
Lemma drawn_sizes (config : Config) (model : Demography)
    (population_sizes : gmap string (Z * Z)) (g g' : rng)
    (sk : gmap string (list Q) * gmap string nat) :
  _draw_population_sizes rng random_uniform config model population_sizes g
  = inr (sk, g') ->
  forall k li, fst sk !! k = Some li ->
    exists range, population_sizes !! k = Some range /\
                  drawn_within config range li.
Proof.
  unfold _draw_population_sizes.
  apply (DivergenceFacts.mfor_invariant rng
           (fun st : gmap string (list Q) * gmap string nat =>
              forall k li, fst st !! k = Some li ->
                exists range, population_sizes !! k = Some range /\
                              drawn_within config range li)).
  { intros k li. simpl. by rewrite lookup_empty. }
  intros st [i p] g0 st' g1 _ Hst. cbv beta zeta. simpl fst. simpl snd.
  unfold mbind, lift, Py.getitem.
  destruct (population_sizes !! name p) as [[lo hi]|] eqn:Hprior; [|discriminate].
  simpl.
  destruct (uniform_size _ _ _ _ _ _) as [?|[ds g2]] eqn:Hds; [discriminate|].
  unfold mret. intros [= <- _]. simpl.
  apply uniform_size_inr in Hds as [Hlen Hall].
  intros k li. destruct (decide (name p = k)) as [<-|Hne].
  - rewrite lookup_insert_eq. intros [= <-]. exists (lo, hi).
    split; [done|]. split; [by rewrite length_map|].
    apply Forall_forall. intros v (u & -> & Hu)%list_elem_of_fmap.
    destruct (proj1 (Forall_forall _ _) Hall u Hu) as [H1 H2].
    split; [apply round_integral|].
    apply round_between; [by exists lo|by exists hi|done..].
  - rewrite lookup_insert_ne by done. apply Hst.
Qed.

(** What [assign_sizes] changes. *)
Lemma assign_sizes_spec (draws : gmap string (list Q)) (rep : nat)
    (model model' : Demography) :
  assign_sizes draws rep model = inr model' ->
  events model' = events model /\
  migration_matrix model' = migration_matrix model /\
  map name (populations model') = map name (populations model) /\
  forall p, p ∈ populations model' ->
    exists l, draws !! name p = Some l /\ l !! rep = Some (initial_size p).
Proof.
  unfold assign_sizes.
  destruct (Py.map_ _ _) as [?|pops] eqn:Hpops; simpl; [discriminate|].
  intros [= <-]. simpl. split_and!; [done|done| |].
  - apply map_inr in Hpops. induction Hpops as [|p p' ps ps' Hp _ IH]; [done|].
    simpl. rewrite IH. f_equal. unfold draw_at, Py.getitem in Hp.
    destruct (draws !! name p); simpl in Hp; [|done].
    destruct (Py.index _ _); simpl in Hp; [done|]. by inversion Hp.
  - apply map_inr in Hpops. intros p' Hp'.
    apply list_elem_of_lookup in Hp' as (i & Hi).
    destruct (Forall2_lookup_r _ _ _ _ _ Hpops Hi) as (p & _ & Hp).
    unfold draw_at, Py.getitem in Hp.
    destruct (draws !! name p) as [l|] eqn:Hl; simpl in Hp; [|done].
    unfold Py.index in Hp. destruct (l !! rep) as [v|] eqn:Hv; simpl in Hp;
      [|done].
    inversion Hp; subst p'. simpl. by exists l.
Qed.

Lemma assign_matrix_populations (config : Config)
    (rates : gmap (nat * nat) (list Q)) (rep : nat) (model model' : Demography) :
  assign_matrix config rates rep model = inr model' ->
  populations model' = populations model.
Proof.
  unfold assign_matrix.
  apply (for_invariant (fun m => populations m = populations model)); [done|].
  intros m kv m' _ Hm. destruct (Py.index (snd kv) rep) as [e|rate]; simpl;
    [discriminate|].
  intros [= <-]. by destruct (symmetric config).
Qed.

(** Each of the three loops over the events gives an event its own time
    and rate and nothing else. *)
Lemma assigned_divergence (draws : gmap string (list Q)) (rep : nat)
    (e e' : Event) :
  assign_event_divergence draws rep e = inr e' -> reparameterized e e'.
Proof.
  destruct e as [t d a|t s d r|t p r]; simpl.
  - destruct (draw_at draws a rep) as [?|v]; simpl; [discriminate|].
    intros [= <-]. by exists (Float.Fin v), 0%Q.
  - intros [= <-]. by exists t, r.
  - intros [= <-]. by exists t, r.
Qed.

Lemma assigned_sc (draws : gmap string (list Q)) (stops : list Float.t)
    (rep : nat) (e e' : Event) :
  assign_event_sc draws stops rep e = inr e' -> reparameterized e e'.
Proof.
  destruct e as [t d a|t s d r|t p r]; simpl.
  - destruct (draw_at draws a rep) as [?|v]; simpl; [discriminate|].
    intros [= <-]. by exists (Float.Fin v), 0%Q.
  - destruct (Py.index stops rep) as [?|stop]; simpl; [discriminate|].
    intros [= <-]. by exists stop, r.
  - destruct (Py.index stops rep) as [?|stop]; simpl; [discriminate|].
    intros [= <-]. by exists stop, r.
Qed.

Lemma assigned_dwg (config : Config) (draws : gmap string (list Q))
    (keys : gmap string nat) (starts rates : gmap (nat * nat) (list Q))
    (rep : nat) (e e' : Event) :
  assign_event_dwg config draws keys starts rates rep e = inr e' ->
  reparameterized e e'.
Proof.
  destruct e as [t d a|t s d r|t p r]; simpl.
  - destruct (draw_at draws a rep) as [?|v]; simpl; [discriminate|].
    intros [= <-]. by exists (Float.Fin v), 0%Q.
  - destruct (migration_pair _ _) as [?|pq]; simpl; [discriminate|].
    destruct (migration_key _ _) as [?|key]; simpl; [discriminate|].
    destruct (Py.getitem2 starts key) as [?|ss]; simpl; [discriminate|].
    destruct (Py.index ss rep) as [?|start]; simpl; [discriminate|].
    destruct (Py.getitem2 rates key) as [?|rs]; simpl; [discriminate|].
    destruct (Py.index rs rep) as [?|rate]; simpl; [discriminate|].
    intros [= <-]. by exists (Float.Fin start), rate.
  - destruct (migration_pair _ _) as [?|pq]; simpl; [discriminate|].
    destruct (migration_key _ _) as [?|key]; simpl; [discriminate|].
    destruct (Py.getitem2 starts key) as [?|ss]; simpl; [discriminate|].
    destruct (Py.index ss rep) as [?|start]; simpl; [discriminate|].
    destruct (Py.getitem2 rates key) as [?|rs]; simpl; [discriminate|].
    destruct (Py.index rs rep) as [?|rate]; simpl; [discriminate|].
    intros [= <-]. by exists (Float.Fin start), rate.
Qed.

Lemma assigned_events (assign : Event -> Py.result Event)
    (evs evs' : list Event) :
  (forall e e', assign e = inr e' -> reparameterized e e') ->
  Py.map_ assign evs = inr evs' ->
  Forall2 reparameterized evs evs'.
Proof.
  intros Hassign Hmap. apply map_inr in Hmap.
  eapply Forall2_impl; [exact Hmap|]. intros e e'. apply Hassign.
Qed.

(** The sizes of a replicate are the draws of its index. *)
Lemma replicate_sizes (config : Config) (population_sizes : gmap string (Z * Z))
    (draws : gmap string (list Q)) (rep : nat) (model sized : Demography) :
  (forall k li, draws !! k = Some li ->
     exists range, population_sizes !! k = Some range /\
                   drawn_within config range li) ->
  assign_sizes draws rep model = inr sized ->
  forall p, p ∈ populations sized ->
    exists range,
      population_sizes !! name p = Some range /\
      integral (initial_size p) /\
      (inject_Z (fst range) <= initial_size p)%Q /\
      (initial_size p <= inject_Z (snd range))%Q.
Proof.
  intros Hdraws (_ & _ & _ & Hsizes)%assign_sizes_spec p Hp.
  destruct (Hsizes p Hp) as (l & Hl & Hv).
  destruct (Hdraws _ _ Hl) as (range & Hrange & _ & Hall).
  exists range. split; [done|].
  by apply (Forall_lookup_1 _ _ _ _ Hall Hv).
Qed.

(** The replicates of one model, for each of the three categories. *)
Lemma divergence_replicates (config : Config)
    (population_sizes divergence_times : gmap string (Z * Z))
    (model : Demography) (g g' : rng) (reps : list Demography) :
  parameterize_divergence rng random_uniform config population_sizes
    divergence_times model g = inr (reps, g') ->
  length reps = replicates config /\
  Forall (replicate_of_model population_sizes model) reps.
Proof.
  unfold parameterize_divergence. unfold mbind at 1.
  destruct (_draw_population_sizes _ _ _ _ _ _) as [?|[sk g1]] eqn:Hsk;
    [discriminate|].
  unfold mbind at 1.
  destruct (_draw_divergence_times _ _ _ _ _ _ _) as [?|[draws g2]];
    [discriminate|].
  unfold lift.
  destruct (Py.map_ _ (seq 0 (replicates config))) as [?|rs] eqn:Hreps;
    [discriminate|].
  intros [= <- _]. apply map_inr in Hreps. split.
  { rewrite <- (Forall2_length _ _ _ Hreps). apply length_seq. }
  apply Forall_lookup. intros i r Hr.
  destruct (Forall2_lookup_r _ _ _ _ _ Hreps Hr) as (rep & _ & Hbody).
  destruct (assign_sizes (fst sk) rep model) as [?|sized] eqn:Hsized;
    simpl in Hbody; [discriminate|].
  destruct (Py.map_ _ (events sized)) as [?|evs] eqn:Hevs; simpl in Hbody;
    [discriminate|].
  inversion Hbody; subst r. clear Hbody.
  pose proof (replicate_sizes config population_sizes _ _ _ _
                (drawn_sizes _ _ _ _ _ _ Hsk) Hsized) as Hsizes.
  apply assign_sizes_spec in Hsized as (Hev & _ & Hnames & _).
  split_and!; [done|done|].
  exists evs. split; [|done]. rewrite <- Hev.
  eapply assigned_events; [|exact Hevs]. apply assigned_divergence.
Qed.

Lemma sc_replicates (config : Config)
    (population_sizes divergence_times : gmap string (Z * Z))
    (model : Demography) (g g' : rng) (reps : list Demography) :
  parameterize_sc rng random_uniform config population_sizes
    divergence_times model g = inr (reps, g') ->
  length reps = replicates config /\
  Forall (replicate_of_model population_sizes model) reps.
Proof.
  unfold parameterize_sc. unfold mbind at 1.
  destruct (_draw_population_sizes _ _ _ _ _ _) as [?|[sk g1]] eqn:Hsk;
    [discriminate|].
  unfold mbind at 1.
  destruct (_draw_divergence_times _ _ _ _ _ _ _) as [?|[draws g2]];
    [discriminate|].
  unfold mbind at 1.
  destruct (_draw_migration_rates _ _ _ _ _ _) as [?|[rates g3]]; [discriminate|].
  unfold mbind at 1, lift at 1.
  destruct (_get_migration_stops config draws) as [?|stops]; [discriminate|].
  unfold lift.
  destruct (Py.map_ _ (seq 0 (replicates config))) as [?|rs] eqn:Hreps;
    [discriminate|].
  intros [= <- _]. apply map_inr in Hreps. split.
  { rewrite <- (Forall2_length _ _ _ Hreps). apply length_seq. }
  apply Forall_lookup. intros i r Hr.
  destruct (Forall2_lookup_r _ _ _ _ _ Hreps Hr) as (rep & _ & Hbody).
  destruct (assign_sizes (fst sk) rep model) as [?|sized] eqn:Hsized;
    simpl in Hbody; [discriminate|].
  destruct (Py.map_ _ (events sized)) as [?|evs] eqn:Hevs; simpl in Hbody;
    [discriminate|].
  pose proof (replicate_sizes config population_sizes _ _ _ _
                (drawn_sizes _ _ _ _ _ _ Hsk) Hsized) as Hsizes.
  apply assign_sizes_spec in Hsized as (Hev & _ & Hnames & _).
  pose proof (assign_matrix_populations _ _ _ _ _ Hbody) as Hpops.
  pose proof (ReplicateFacts.assign_matrix_events _ _ _ _ _ Hbody) as Hevents.
  simpl in Hpops, Hevents. unfold replicate_of_model.
  rewrite Hpops, Hevents. split_and!; [done|done|].
  exists evs. split; [|done]. rewrite <- Hev.
  eapply assigned_events; [|exact Hevs]. apply assigned_sc.
Qed.

Lemma dwg_replicates (config : Config)
    (population_sizes divergence_times : gmap string (Z * Z))
    (model : Demography) (g g' : rng) (reps : list Demography) :
  parameterize_dwg rng random_uniform config population_sizes
    divergence_times model g = inr (reps, g') ->
  length reps = replicates config /\
  Forall (replicate_of_model population_sizes model) reps.
Proof.
  unfold parameterize_dwg. unfold mbind at 1.
  destruct (_draw_population_sizes _ _ _ _ _ _) as [?|[sk g1]] eqn:Hsk;
    [discriminate|].
  unfold mbind at 1.
  destruct (_draw_divergence_times _ _ _ _ _ _ _) as [?|[draws g2]];
    [discriminate|].
  unfold mbind at 1.
  destruct (_draw_migration_rates _ _ _ _ _ _) as [?|[rates g3]]; [discriminate|].
  unfold mbind at 1, lift at 1.
  destruct (_get_migration_starts config model draws (snd sk)) as [?|starts];
    [discriminate|].
  unfold lift.
  destruct (Py.map_ _ (seq 0 (replicates config))) as [?|rs] eqn:Hreps;
    [discriminate|].
  intros [= <- _]. apply map_inr in Hreps. split.
  { rewrite <- (Forall2_length _ _ _ Hreps). apply length_seq. }
  apply Forall_lookup. intros i r Hr.
  destruct (Forall2_lookup_r _ _ _ _ _ Hreps Hr) as (rep & _ & Hbody).
  destruct (assign_sizes (fst sk) rep model) as [?|sized] eqn:Hsized;
    simpl in Hbody; [discriminate|].
  destruct (Py.map_ _ (events sized)) as [?|evs] eqn:Hevs; simpl in Hbody;
    [discriminate|].
  inversion Hbody; subst r. clear Hbody.
  pose proof (replicate_sizes config population_sizes _ _ _ _
                (drawn_sizes _ _ _ _ _ _ Hsk) Hsized) as Hsizes.
  apply assign_sizes_spec in Hsized as (Hev & _ & Hnames & _).
  split_and!; [done|done|].
  exists evs. split.
  - rewrite <- Hev. eapply assigned_events; [|exact Hevs]. apply assigned_dwg.
  - apply (BuilderFacts.sort_events_permutation (with_events evs sized)).
Qed.

Lemma replicates_of_models
    (parameterize : Demography -> M rng (list Demography))
    (population_sizes : gmap string (Z * Z)) (n : nat)
    (models : list Demography) (g g' : rng) (out : list (list Demography)) :
  (forall model g g' reps,
     parameterize model g = inr (reps, g') ->
     length reps = n /\
     Forall (replicate_of_model population_sizes model) reps) ->
  mmap parameterize models g = inr (out, g') ->
  Forall2 (fun model reps =>
             length reps = n /\
             Forall (replicate_of_model population_sizes model) reps)
    models out.
Proof.
  intros Hone Hrun. apply (SamplerFacts.mmap_inr rng) in Hrun.
  eapply Forall2_impl; [exact Hrun|].
  intros model reps (g1 & g2 & Hp). by eapply Hone.
Qed.


End WithGenerator.

End ReplicateShape.

(** ** The schemas of the writer *)

Module WriterSchema.

Import Enumerate Sampler Spec Behaviour.

Local Infix "+++" := String.append (at level 60, right associativity).

Lemma append_inj (s a b : string) : s +++ a = s +++ b -> a = b.
Proof. induction s as [|c s IH]; simpl; [done|]. intros [= ?]. auto. Qed.

(** The loop of [_get_popinfo]. *)
Lemma popinfo_loop (population_sizes : gmap string (Z * Z)) :
  forall (l : list Population)
         (acc acc' : list Yaml.population * gmap string (Q * Q)),
    Py.for_ l
      (fun acc population =>
         prior <- Py.getitem population_sizes (Msprime.name population) ;;
         Py.ret
           (fst acc
              ++ [{| Yaml.name := Msprime.name population;
                     Yaml.size := "Ne_" +++ Msprime.name population |}],
            <["Ne_" +++ Msprime.name population := Writer.range_of prior]>
              (snd acc)))
      acc = inr acc' ->
    fst acc' = fst acc ++ map population_item l /\
    (forall k, (forall p, p ∈ l -> k ≠ "Ne_" +++ name p) ->
               snd acc' !! k = snd acc !! k) /\
    (forall p, p ∈ l ->
       exists prior,
         population_sizes !! name p = Some prior /\
         snd acc' !! ("Ne_" +++ name p) = Some (Writer.range_of prior)).
Proof.
  induction l as [|p l IH]; intros acc acc'; simpl.
  - intros [= <-]. rewrite app_nil_r. split_and!; [done|done|].
    by intros p ?%elem_of_nil.
  - unfold Py.getitem at 1.
    destruct (population_sizes !! name p) as [prior|] eqn:Hprior; simpl;
      [|discriminate].
    intros Hrun. apply IH in Hrun as (Hfst & Hkeep & Hin). simpl in *.
    split_and!.
    + by rewrite Hfst, <- app_assoc.
    + intros k Hk. rewrite Hkeep by (intros q Hq; apply Hk; by right).
      rewrite lookup_insert_ne; [done|]. intros Heq. by apply (Hk p); [left|].
    + intros q [->|Hq]%elem_of_cons; [|by apply Hin].
      exists prior. split; [done|].
      destruct (decide (Exists (fun q => name q = name p) l)) as [Hex|Hno].
      * apply Exists_exists in Hex as (q & Hq & Heq).
        destruct (Hin q Hq) as (prior' & Hp' & Hl').
        rewrite Heq in Hp', Hl'. congruence.
      * rewrite Hkeep; [by rewrite lookup_insert_eq|].
        intros q Hq Heq. apply Hno, Exists_exists. exists q. split; [done|].
        by apply append_inj in Heq.
Qed.

(** The loop of [_get_divinfo]. *)
Lemma divinfo_loop (divergence_times : gmap string (Z * Z)) :
  forall (l : list Event)
         (acc acc' : list Yaml.divergence * gmap string (Q * Q)),
    Py.for_ l
      (fun acc event =>
         match event with
         | PopulationSplit _ derived ancestral =>
             prior <- Py.getitem divergence_times ancestral ;;
             Py.ret
               (fst acc
                  ++ [{| Yaml.derived := derived;
                         Yaml.ancestral := ancestral;
                         Yaml.time := "Tdiv_" +++ ancestral |}],
                <["Tdiv_" +++ ancestral := Writer.range_of prior]> (snd acc))
         | _ => Py.ret acc
         end)
      acc = inr acc' ->
    fst acc' = fst acc ++ omap divergence_item l /\
    (forall k, (forall t d a, PopulationSplit t d a ∈ l -> k ≠ "Tdiv_" +++ a) ->
               snd acc' !! k = snd acc !! k) /\
    (forall t d a, PopulationSplit t d a ∈ l ->
       exists prior,
         divergence_times !! a = Some prior /\
         snd acc' !! ("Tdiv_" +++ a) = Some (Writer.range_of prior)).
Proof.
  induction l as [|e l IH]; intros acc acc'; simpl.
  - intros [= <-]. rewrite app_nil_r. split_and!; [done|done|].
    by intros t d a ?%elem_of_nil.
  - destruct e as [t d a|t s dst r|t p r]; simpl.
    + unfold Py.getitem at 1.
      destruct (divergence_times !! a) as [prior|] eqn:Hprior; simpl;
        [|discriminate].
      intros Hrun. apply IH in Hrun as (Hfst & Hkeep & Hin). simpl in *.
      split_and!.
      * by rewrite Hfst, <- app_assoc.
      * intros k Hk.
        rewrite Hkeep by (intros t' d' a' Hq; apply (Hk t' d' a'); by right).
        rewrite lookup_insert_ne; [done|].
        intros Heq. by apply (Hk t d a); [left|].
      * intros t' d' a' [[= -> -> ->]|Hq]%elem_of_cons; [|by eapply Hin].
        exists prior. split; [done|].
        destruct (decide (a ∈ ancestral_names l)) as [Hex|Hno].
        -- apply ReplicateFacts.elem_of_ancestral_names in Hex as (t2 & d2 & Hq).
           destruct (Hin t2 d2 a Hq) as (prior' & Hp' & Hl'). congruence.
        -- rewrite Hkeep; [by rewrite lookup_insert_eq|].
           intros t2 d2 a2 Hq Heq. apply Hno. apply append_inj in Heq as ->.
           exact (GeneFlowFacts.ancestral_names_elem _ _ _ _ Hq).
    + intros Hrun. apply IH in Hrun as (Hfst & Hkeep & Hin).
      split_and!; [done| |].
      * intros k Hk. apply Hkeep. intros t' d' a' Hq. apply (Hk t' d' a').
        by right.
      * intros t' d' a' [?|Hq]%elem_of_cons; [done|by eapply Hin].
    + intros Hrun. apply IH in Hrun as (Hfst & Hkeep & Hin).
      split_and!; [done| |].
      * intros k Hk. apply Hkeep. intros t' d' a' Hq. apply (Hk t' d' a').
        by right.
      * intros t' d' a' [?|Hq]%elem_of_cons; [done|by eapply Hin].
Qed.

Lemma migration_written_step (config : Config) (old : gmap string (Q * Q))
    (acc : Writer.mig_acc) (mg : Yaml.migration) (x key rel : string)
    (anc : option string) :
  migration_written config old acc ->
  Yaml.rate mg = "Mig_" +++ x ->
  Yaml.end_time mg = Some key \/ Yaml.start_time mg = Yaml.Str key ->
  migration_written config old
    {| Writer.migration := Writer.migration acc ++ [mg];
       Writer.relations := <[key := rel]> (Writer.relations acc);
       Writer.priors := <["Mig_" +++ x := migration_rate config]>
                          (Writer.priors acc);
       Writer.ancestraldiv := anc |}.
Proof.
  intros [Hold Hmig] Hrate Hkey. split; simpl.
  - intros k Hk. rewrite lookup_insert_ne; [by apply Hold|].
    intros Heq. by apply (Hk x).
  - intros mg' [Hin|Hin%list_elem_of_singleton]%elem_of_app; [|subst mg'].
    + destruct (Hmig mg' Hin) as (Hp & key' & Hrel & Hk). split.
      * destruct (decide ("Mig_" +++ x = Yaml.rate mg')) as [<-|Hne].
        -- by rewrite lookup_insert_eq.
        -- by rewrite lookup_insert_ne.
      * exists key'. split; [|done].
        destruct (decide (key = key')) as [<-|Hne].
        -- rewrite lookup_insert_eq. by eexists.
        -- by rewrite lookup_insert_ne.
    + split; [by rewrite Hrate, lookup_insert_eq|].
      exists key. split; [|done]. rewrite lookup_insert_eq. by eexists.
Qed.

Lemma scinfo_written (config : Config) (yaml_dict : Yaml.dict) :
  forall (evs : list Event) (acc : Writer.mig_acc),
    migration_written config (Yaml.priors yaml_dict) acc ->
    migration_written config (Yaml.priors yaml_dict)
      (fold_left (Writer.scinfo_step config yaml_dict) evs acc).
Proof.
  induction evs as [|e evs IH]; intros acc Hacc; [done|].
  simpl. apply IH. unfold Writer.scinfo_step.
  destruct (has_rate e); [|done].
  eapply migration_written_step; [done|done|by left].
Qed.

Lemma dwginfo_written (config : Config) (yaml_dict : Yaml.dict) (m : Demography) :
  forall (evs : list Event) (acc acc' : Writer.mig_acc),
    migration_written config (Yaml.priors yaml_dict) acc ->
    Py.for_ evs
      (fun acc event =>
         if has_rate event then
           let pop0 := fst (snd (Writer.typed_pair event)) in
           let pop1 := snd (snd (Writer.typed_pair event)) in
           let divs := Writer.dwg_divs m pop0 pop1 (Writer.ancestraldiv acc) in
           match fst divs with
           | None => Py.raise (Py.UnboundLocalError "ancestraldiv")
           | Some anc =>
               Py.ret
                 {| Writer.migration :=
                      Writer.migration acc
                      ++ [{| Yaml.type := fst (Writer.typed_pair event);
                             Yaml.source := pop0;
                             Yaml.dest := pop1;
                             Yaml.rate := "Mig_" +++ pop0 +++ "_" +++ pop1;
                             Yaml.start_time :=
                               Yaml.Str ("Tmigstart_" +++ pop0 +++ "_" +++ pop1);
                             Yaml.end_time := None |}];
                    Writer.relations :=
                      <["Tmigstart_" +++ pop0 +++ "_" +++ pop1
                        := Writer.dwg_relation anc (fst (snd divs))
                             (snd (snd divs))]>
                        (Writer.relations acc);
                    Writer.priors :=
                      <["Mig_" +++ pop0 +++ "_" +++ pop1 := migration_rate config]>
                        (Writer.priors acc);
                    Writer.ancestraldiv := Some anc |}
           end
         else Py.ret acc)
      acc = inr acc' ->
    migration_written config (Yaml.priors yaml_dict) acc'.
Proof.
  intros evs acc acc' Hacc.
  apply (for_invariant (migration_written config (Yaml.priors yaml_dict)));
    [done|].
  intros a e a' _ Ha. destruct (has_rate e); [|by intros [= <-]].
  cbv zeta.
  destruct (fst (Writer.dwg_divs m _ _ _)) as [anc|]; [|discriminate].
  intros [= <-].
  eapply migration_written_step; [done|done|by right].
Qed.

(** The three dicts of the writer. *)
Lemma schema_base (config : Config) (model : nat * list Demography)
    (type : string) (start : nat) (y : Yaml.dict) :
  (y1 <- Writer._get_description model Yaml.empty type start ;;
   y2 <- Writer._get_popinfo model y1
           (fst (Priors._get_priors (species_tree config))) ;;
   Writer._get_divinfo model y2
     (snd (Priors._get_priors (species_tree config)))) = inr y ->
  exists m,
    snd model !! 0%nat = Some m /\
    Yaml.migrations y = None /\
    Yaml.populations y = map population_item (populations m) /\
    Yaml.divergences y = omap divergence_item (events m) /\
    (forall p, p ∈ populations m ->
       exists prior,
         fst (Priors._get_priors (species_tree config)) !! name p = Some prior /\
         Yaml.priors y !! ("Ne_" +++ name p) = Some (Writer.range_of prior)) /\
    (forall t d a, PopulationSplit t d a ∈ events m ->
       exists prior,
         snd (Priors._get_priors (species_tree config)) !! a = Some prior /\
         Yaml.priors y !! ("Tdiv_" +++ a) = Some (Writer.range_of prior)).
Proof.
  unfold Writer._get_description, Writer._get_popinfo, Writer._get_divinfo,
    Writer.first_replicate, Py.index.
  destruct (snd model !! 0%nat) as [m|] eqn:Hm; simpl; [|discriminate].
  destruct (Py.for_ (populations m) _ _) as [?|acc1] eqn:Hpop; simpl;
    [discriminate|].
  destruct (Py.for_ (events m) _ _) as [?|acc2] eqn:Hdiv; simpl;
    [discriminate|].
  intros [= <-]. simpl. exists m.
  apply popinfo_loop in Hpop as (Hp1 & Hp2 & Hp3).
  apply divinfo_loop in Hdiv as (Hd1 & Hd2 & Hd3). simpl in *.
  split_and!; [done|done|done|done| |done].
  intros p Hp. destruct (Hp3 p Hp) as (prior & Hprior & Hl).
  exists prior. split; [done|]. rewrite Hd2; [done|].
  intros t d a _ Heq. simpl in Heq. discriminate.
Qed.

Lemma schema_with_migration (config : Config) (m : Demography)
    (y : Yaml.dict) (acc : Writer.mig_acc) :
  Yaml.populations y = map population_item (populations m) ->
  Yaml.divergences y = omap divergence_item (events m) ->
  (forall p, p ∈ populations m ->
     exists prior,
       fst (Priors._get_priors (species_tree config)) !! name p = Some prior /\
       Yaml.priors y !! ("Ne_" +++ name p) = Some (Writer.range_of prior)) ->
  (forall t d a, PopulationSplit t d a ∈ events m ->
     exists prior,
       snd (Priors._get_priors (species_tree config)) !! a = Some prior /\
       Yaml.priors y !! ("Tdiv_" +++ a) = Some (Writer.range_of prior)) ->
  migration_written config (Yaml.priors y) acc ->
  schema_of config m (Writer.with_migration y acc).
Proof.
  intros Hpops Hdivs Hne Htdiv [Hold Hmig].
  unfold schema_of, Writer.with_migration. simpl.
  split_and!; [done|done| | |].
  - intros p Hp. destruct (Hne p Hp) as (prior & Hprior & Hl).
    exists prior. split; [done|]. rewrite Hold; [done|].
    intros x Heq. simpl in Heq. discriminate.
  - intros t d a Hin. destruct (Htdiv t d a Hin) as (prior & Hprior & Hl).
    exists prior. split; [done|]. rewrite Hold; [done|].
    intros x Heq. simpl in Heq. discriminate.
  - intros mg Hmg. destruct (Hmig mg Hmg) as (Hp & key & Hrel & Hkey).
    split; [done|]. by exists (Writer.relations acc), key.
Qed.

Lemma empty_written (config : Config) (old : gmap string (Q * Q)) :
  migration_written config old
    {| Writer.migration := []; Writer.relations := ∅;
       Writer.priors := old; Writer.ancestraldiv := None |}.
Proof. split; simpl; [done|]. by intros mg ?%elem_of_nil. Qed.

Lemma divergence_schema (config : Config) (model : nat * list Demography)
    (y : Yaml.dict) :
  Writer.divergence_yaml config model = inr y ->
  exists m, snd model !! 0%nat = Some m /\ schema_of config m y.
Proof.
  unfold Writer.divergence_yaml. cbv zeta.
  intros (m & Hm & Hnone & H1 & H2 & H3 & H4)%schema_base.
  exists m. split; [done|]. unfold schema_of.
  split_and!; [done..|]. rewrite Hnone. by intros mg ?%elem_of_nil.
Qed.

Lemma sc_schema_of (config : Config) (start : nat)
    (model : nat * list Demography) (y : Yaml.dict) :
  Writer.sc_yaml config start model = inr y ->
  exists m, snd model !! 0%nat = Some m /\ schema_of config m y.
Proof.
  unfold Writer.sc_yaml. cbv zeta.
  destruct (Writer._get_description model Yaml.empty _ start) as [?|y1] eqn:H1;
    simpl; [discriminate|].
  destruct (Writer._get_popinfo model y1 _) as [?|y2] eqn:H2; simpl;
    [discriminate|].
  destruct (Writer._get_divinfo model y2 _) as [?|y3] eqn:H3; simpl;
    [discriminate|].
  assert (Hbase : (y1 <- Writer._get_description model Yaml.empty
                            "Secondary Contact" start ;;
                   y2 <- Writer._get_popinfo model y1
                           (fst (Priors._get_priors (species_tree config))) ;;
                   Writer._get_divinfo model y2
                     (snd (Priors._get_priors (species_tree config))))
                  = inr y3).
  { rewrite H1. simpl. rewrite H2. simpl. done. }
  apply schema_base in Hbase as (m & Hm & _ & Hp & Hd & Hne & Htdiv).
  unfold Writer._get_scinfo, Writer.first_replicate, Py.index. rewrite Hm.
  simpl. intros [= <-]. exists m. split; [done|].
  apply schema_with_migration; [done..|].
  apply scinfo_written, empty_written.
Qed.

Lemma dwg_schema_of (config : Config) (start : nat)
    (model : nat * list Demography) (y : Yaml.dict) :
  Writer.dwg_yaml config start model = inr y ->
  exists m, snd model !! 0%nat = Some m /\ schema_of config m y.
Proof.
  unfold Writer.dwg_yaml. cbv zeta.
  destruct (Writer._get_description model Yaml.empty _ start) as [?|y1] eqn:H1;
    simpl; [discriminate|].
  destruct (Writer._get_popinfo model y1 _) as [?|y2] eqn:H2; simpl;
    [discriminate|].
  destruct (Writer._get_divinfo model y2 _) as [?|y3] eqn:H3; simpl;
    [discriminate|].
  assert (Hbase : (y1 <- Writer._get_description model Yaml.empty
                            "Divergence with gene flow" start ;;
                   y2 <- Writer._get_popinfo model y1
                           (fst (Priors._get_priors (species_tree config))) ;;
                   Writer._get_divinfo model y2
                     (snd (Priors._get_priors (species_tree config))))
                  = inr y3).
  { rewrite H1. simpl. rewrite H2. simpl. done. }
  apply schema_base in Hbase as (m & Hm & _ & Hp & Hd & Hne & Htdiv).
  unfold Writer._get_dwginfo, Writer.first_replicate, Py.index. rewrite Hm.
  simpl.
  destruct (Py.for_ (events m) _ _) as [?|acc] eqn:Hacc; simpl; [discriminate|].
  intros [= <-]. exists m. split; [done|].
  apply schema_with_migration; [done..|].
  eapply dwginfo_written; [|exact Hacc]. apply empty_written.
Qed.

(** The files of one category: numbered from [start], one per model. *)
Lemma category_written (config : Config) (start : nat)
    (yaml : nat * list Demography -> Py.result Yaml.dict)
    (models : list (list Demography)) (out : list (nat * Yaml.dict)) :
  (forall model y, yaml model = inr y ->
     exists m, snd model !! 0%nat = Some m /\ schema_of config m y) ->
  Py.map_ (fun model => y <- yaml model ;; Py.ret ((fst model + start)%nat, y))
    (Writer.enumerate models) = inr out ->
  map fst out = seq start (length models) /\
  Forall2 (fun reps iy =>
             exists m, reps !! 0%nat = Some m /\ schema_of config m (snd iy))
    models out.
Proof.
  intros Hyaml Hmap. apply map_inr in Hmap.
  assert (Hlen : length out = length models).
  { rewrite <- (Forall2_length _ _ _ Hmap). unfold Writer.enumerate.
    by rewrite length_imap. }
  split.
  - apply list_eq. intros i. rewrite list_lookup_fmap.
    destruct (out !! i) as [[j y]|] eqn:Hi; simpl.
    + destruct (Forall2_lookup_r _ _ _ _ _ Hmap Hi) as ([i' reps] & Hr & Hy).
      unfold Writer.enumerate in Hr. rewrite list_lookup_imap in Hr.
      destruct (models !! i) as [reps'|] eqn:Hreps; [|done].
      simpl in Hr. inversion Hr; subst i' reps'. simpl in Hy.
      destruct (yaml (i, reps)); simpl in Hy; [done|].
      inversion Hy; subst. symmetry. rewrite Nat.add_comm.
      apply lookup_seq. split; [done|]. by eapply lookup_lt_Some.
    + symmetry. apply lookup_seq_ge. apply lookup_ge_None in Hi. lia.
  - apply Forall2_same_length_lookup. split; [done|].
    intros i reps [j y] Hreps Hi.
    destruct (Forall2_lookup_r _ _ _ _ _ Hmap Hi) as ([i' reps'] & Hr & Hy).
    unfold Writer.enumerate in Hr. rewrite list_lookup_imap, Hreps in Hr.
    simpl in Hr. inversion Hr; subst i' reps'. simpl in Hy.
    destruct (yaml (i, reps)) as [?|y'] eqn:Hy'; simpl in Hy; [done|].
    inversion Hy; subst. simpl. by apply (Hyaml (i, reps)).
Qed.

(** X13.  When [write_to_yaml] runs to its end it has written one dict
    per model, numbered consecutively from 0: the divergence models
    first, then the secondary contact models, then the models of
    divergence with gene flow, so no two files share a number.  The
    dict of a model is the schema of its first replicate: its
    populations and its splits in their order, with the [ne] range of
    the tree bound to every [Ne_] key and the [div] range to every
    [Tdiv_] key, and, for every migration entry, the migration rate
    range bound to its rate key and a relation bound to its time key. *)
Theorem X13_written_schemas (config : Config)
    (divergence_demographies sc_demographies dwg_demographies
       : list (list Demography))
    (out : list (nat * Yaml.dict)) :
  Writer.write_to_yaml config divergence_demographies sc_demographies
    dwg_demographies = inr out ->
  map fst out
  = seq 0 (length divergence_demographies + length sc_demographies
           + length dwg_demographies) /\
  Forall2 (fun reps iy =>
             exists m, reps !! 0%nat = Some m /\ schema_of config m (snd iy))
    (divergence_demographies ++ sc_demographies ++ dwg_demographies) out.
Proof.
  unfold Writer.write_to_yaml.
  destruct (Py.map_ _ (Writer.enumerate divergence_demographies))
    as [?|d] eqn:Hd; simpl; [discriminate|].
  destruct (Py.map_ _ (Writer.enumerate sc_demographies))
    as [?|s] eqn:Hs; simpl; [discriminate|].
  destruct (Py.map_ _ (Writer.enumerate dwg_demographies))
    as [?|w] eqn:Hw; simpl; [discriminate|].
  intros [= <-].
  assert (Hd' : Py.map_ (fun model => y <- Writer.divergence_yaml config model ;;
                                      Py.ret ((fst model + 0)%nat, y))
                  (Writer.enumerate divergence_demographies) = inr d).
  { rewrite <- Hd. generalize (Writer.enumerate divergence_demographies).
    induction l as [|x l IHl]; [done|]. simpl. rewrite IHl.
    by rewrite Nat.add_0_r. }
  clear Hd.
  apply (category_written config) in Hd' as [Hd1 Hd2];
    [|apply divergence_schema].
  apply (category_written config) in Hs as [Hs1 Hs2]; [|apply sc_schema_of].
  apply (category_written config) in Hw as [Hw1 Hw2]; [|apply dwg_schema_of].
  split.
  - rewrite !map_app, Hd1, Hs1, Hw1, <- Nat.add_assoc, !seq_app. simpl.
    done.
  - repeat apply Forall2_app; done.
Qed.

End WriterSchema.

(** ** The ordering loop of the reader on repeated names *)

Module ReaderLoop.

Import Enumerate Sampler Spec Behaviour.

(** Every ancestral name of the list is a key of the dependencies. *)
Lemma dependencies_keys (all : list Yaml.divergence) :
  forall (l : list Yaml.divergence) (deps : gmap string (option string)) k,
    is_Some (deps !! k) \/ k ∈ map Yaml.ancestral l ->
    is_Some
      (fold_left
         (fun deps divergence =>
            fold_left
              (fun deps divergence2 =>
                 if Py.in_pair (Yaml.ancestral divergence2)
                      (Yaml.derived divergence)
                 then <[Yaml.ancestral divergence
                        := Some (Yaml.ancestral divergence2)]> deps
                 else deps)
              all (<[Yaml.ancestral divergence := None]> deps))
         l deps !! k).
Proof.
  assert (Hinner : forall d (l2 : list Yaml.divergence)
                          (deps : gmap string (option string)) k,
             is_Some (deps !! k) ->
             is_Some
               (fold_left
                  (fun deps divergence2 =>
                     if Py.in_pair (Yaml.ancestral divergence2) (Yaml.derived d)
                     then <[Yaml.ancestral d
                            := Some (Yaml.ancestral divergence2)]> deps
                     else deps)
                  l2 deps !! k)).
  { intros d. induction l2 as [|d2 l2 IH]; intros deps k Hk; [done|].
    simpl. apply IH. destruct (Py.in_pair _ _); [|done].
    destruct (decide (Yaml.ancestral d = k)) as [<-|Hne].
    - rewrite lookup_insert_eq. by eexists.
    - by rewrite lookup_insert_ne. }
  induction l as [|d l IH]; intros deps k Hk; simpl.
  - destruct Hk as [?|?%elem_of_nil]; done.
  - apply IH. simpl in Hk. rewrite elem_of_cons in Hk.
    destruct (decide (Yaml.ancestral d = k)) as [<-|Hne].
    + left. apply Hinner. rewrite lookup_insert_eq. by eexists.
    + destruct Hk as [Hk|[Hk|Hk]]; [|congruence|by right].
      left. apply Hinner. by rewrite lookup_insert_ne.
Qed.

Lemma order_pass_state (divergences : list Yaml.divergence)
    (st : list Yaml.divergence * list string) :
  pass_state divergences st ->
  exists st',
    Reader.order_pass (Reader.find_dependencies divergences) divergences st
    = inr st' /\
    pass_state divergences st'.
Proof.
  unfold Reader.order_pass.
  enough (Hgen : forall l st,
             (forall d, d ∈ l -> d ∈ divergences) ->
             pass_state divergences st ->
             exists st',
               Py.for_ l
                 (fun st divergence =>
                    let anc := Yaml.ancestral divergence in
                    dep <- Py.getitem (Reader.find_dependencies divergences) anc ;;
                    let ready :=
                      match dep with
                      | None => true
                      | Some d => bool_decide (d ∈ snd st)
                      end in
                    Py.ret (if ready && bool_decide (anc ∉ snd st)
                            then (fst st ++ [divergence], snd st ++ [anc])
                            else st))
                 st = inr st' /\
               pass_state divergences st').
  { apply Hgen. done. }
  induction l as [|d l IH]; intros st0 Hl Hst; simpl.
  - by exists st0.
  - destruct (dependencies_keys divergences divergences ∅ (Yaml.ancestral d))
      as (dep & Hdep).
    { right. apply list_elem_of_fmap_2, Hl. by left. }
    unfold Py.getitem at 1. unfold Reader.find_dependencies at 1.
    rewrite Hdep. simpl.
    apply IH; [intros x Hx; apply Hl; by right|].
    destruct (_ && bool_decide (Yaml.ancestral d ∉ snd st0)) eqn:Htest; [|done].
    apply andb_true_iff in Htest as [_ Hfresh%bool_decide_eq_true_1].
    destruct Hst as (Hnd & Hsub & Hlen). split_and!; simpl.
    + apply NoDup_app. split_and!; [done| |apply NoDup_singleton].
      intros x Hx ->%list_elem_of_singleton. done.
    + intros x [Hx| ->%list_elem_of_singleton]%elem_of_app; [by apply Hsub|].
      apply list_elem_of_fmap_2, Hl. by left.
    + rewrite !length_app. simpl. lia.
Qed.

(** X14.  When two divergences of the schema name the same ancestral
    population, the loop of [read_yaml] that puts the divergences in
    order never ends: a name is added once, so the ordered list stays
    shorter than the list of the schema, and no pass raises. *)
Theorem X14_reader_loops_on_repeated_names
    (divergences : list Yaml.divergence) :
  ~ NoDup (map Yaml.ancestral divergences) ->
  forall fuel, Reader.order_divergences fuel divergences = None.
Proof.
  intros Hdup fuel. unfold Reader.order_divergences.
  enough (Hloop : forall st,
             pass_state divergences st ->
             Reader.order_loop fuel (Reader.find_dependencies divergences)
               divergences st = None).
  { rewrite Hloop; [done|]. split_and!; [constructor| |done].
    by intros x ?%elem_of_nil. }
  assert (Hshort : forall st, pass_state divergences st ->
                     (length (fst st) <? length divergences)%nat = true).
  { intros st (Hnd & Hsub & Hlen). apply Nat.ltb_lt. rewrite Hlen.
    pose proof (NoDup_submseteq _ _ Hnd Hsub) as Hsm.
    pose proof (submseteq_length _ _ Hsm) as Hle.
    rewrite length_map in Hle.
    destruct (decide (length (snd st) = length divergences)) as [Heq|]; [|lia].
    exfalso. apply Hdup.
    rewrite <- (submseteq_length_Permutation _ _ Hsm); [done|].
    rewrite length_map. lia. }
  induction fuel as [|fuel IH]; intros st Hst; simpl; rewrite (Hshort st Hst);
    [done|].
  destruct (order_pass_state divergences st Hst) as (st' & -> & Hst').
  by apply IH.
Qed.

End ReaderLoop.

(** ** Relations, written and read back *)

Module RelationParsing.

Import Enumerate Sampler Spec Behaviour.

Local Infix "+++" := String.append (at level 60, right associativity).

Lemma free_of_append (sep : ascii) (a b : string) :
  free_of sep (a +++ b) = free_of sep a && free_of sep b.
Proof.
  induction a as [|c a IH]; simpl; [done|]. by rewrite IH, andb_assoc.
Qed.

Lemma split_free (sep : ascii) (a : string) :
  free_of sep a = true -> Py.split sep a = [a].
Proof.
  induction a as [|c a IH]; simpl; [done|].
  intros [Hc Ha]%andb_true_iff. apply negb_true_iff in Hc. rewrite Hc.
  by rewrite IH.
Qed.

Lemma split_at (sep : ascii) (a b : string) :
  free_of sep a = true ->
  Py.split sep (a +++ String sep b) = a :: Py.split sep b.
Proof.
  induction a as [|c a IH]; simpl.
  - intros _. by rewrite Ascii.eqb_refl.
  - intros [Hc Ha]%andb_true_iff. apply negb_true_iff in Hc. rewrite Hc.
    by rewrite IH.
Qed.

Lemma free_of_concat (sep : ascii) (l : list string) :
  free_of sep "," = true ->
  Forall (fun s => free_of sep s = true) l ->
  free_of sep (String.concat "," l) = true.
Proof.
  intros Hsep. induction 1 as [|x l Hx Hl IH]; [done|].
  destruct l as [|y l]; [done|].
  change (String.concat "," (x :: y :: l))
    with (x +++ "," +++ String.concat "," (y :: l)).
  by rewrite !free_of_append, Hx, Hsep, IH.
Qed.

Lemma split_concat (l : list string) :
  l ≠ [] ->
  Forall (fun s => free_of "," s = true) l ->
  Py.split "," (String.concat "," l) = l.
Proof.
  intros Hne Hl. induction Hl as [|x l Hx Hl IH]; [done|]. simpl.
  destruct l as [|y l]; [by apply split_free|].
  change ("," +++ String.concat "," (y :: l))
    with (String ","%char (String.concat "," (y :: l))).
  rewrite split_at by done. f_equal. by apply IH.
Qed.

(** What the reader's three splits make of the relation the secondary
    contact writer renders. *)
Lemma parse_sc_relation (times : list string) :
  times ≠ [] -> Forall plain times ->
  Py.index (Py.split "(" ("min(" +++ String.concat "," times +++ ")/2")) 1
  = inr (String.concat "," times +++ ")/2") /\
  Py.index (Py.split ")" (String.concat "," times +++ ")/2")) 0
  = inr (String.concat "," times) /\
  Py.split "," (String.concat "," times) = times.
Proof.
  intros Hne Hplain.
  assert (H1 : Forall (fun s => free_of "(" s = true) times)
    by (eapply Forall_impl; [exact Hplain|]; by intros s (? & ? & ?)).
  assert (H2 : Forall (fun s => free_of ")" s = true) times)
    by (eapply Forall_impl; [exact Hplain|]; by intros s (? & ? & ?)).
  assert (H3 : Forall (fun s => free_of "," s = true) times)
    by (eapply Forall_impl; [exact Hplain|]; by intros s (? & ? & ?)).
  split_and!.
  - change ("min(" +++ String.concat "," times +++ ")/2")
      with ("min" +++ String "("%char (String.concat "," times +++ ")/2")).
    rewrite split_at by done.
    rewrite split_free; [done|].
    rewrite free_of_append, free_of_concat by done. done.
  - change (String.concat "," times +++ ")/2")
      with (String.concat "," times +++ String ")"%char "/2").
    by rewrite split_at by (by apply free_of_concat).
  - by apply split_concat.
Qed.

(** Every migration entry written by [_get_scinfo] has its relation
    under the key the reader builds from its source and destination. *)
Lemma scinfo_keys (config : Config) (yaml_dict : Yaml.dict) :
  forall (evs : list Event) (acc : Writer.mig_acc),
    (forall mg, mg ∈ Writer.migration acc ->
       is_Some (Yaml.end_time mg) /\
       Writer.relations acc
         !! ("Tmigend_" +++ Yaml.source mg +++ "_" +++ Yaml.dest mg)
       = Some (Writer.sc_relation yaml_dict)) ->
    forall mg,
      mg ∈ Writer.migration
             (fold_left (Writer.scinfo_step config yaml_dict) evs acc) ->
      is_Some (Yaml.end_time mg) /\
      Writer.relations
        (fold_left (Writer.scinfo_step config yaml_dict) evs acc)
        !! ("Tmigend_" +++ Yaml.source mg +++ "_" +++ Yaml.dest mg)
      = Some (Writer.sc_relation yaml_dict).
Proof.
  induction evs as [|e evs IH]; intros acc Hacc; [done|].
  simpl. apply IH. unfold Writer.scinfo_step.
  destruct (has_rate e); [|done]. simpl.
  intros mg [Hin|Hin%list_elem_of_singleton]%elem_of_app.
  - destruct (Hacc mg Hin) as [Hend Hrel]. split; [done|].
    match goal with |- <[?k := _]> _ !! ?k' = _ =>
      destruct (decide (k = k')) as [Heq|Hne] end.
    + by rewrite Heq, lookup_insert_eq.
    + by rewrite lookup_insert_ne.
  - subst mg. simpl. split; [by eexists|]. by rewrite lookup_insert_eq.
Qed.

Section WithGenerator.

Variable rng : Type.
Variable random_uniform : Q -> Q -> rng -> Q * rng.
Variable replicates : nat.

(** X15.  Reading a migration entry of a schema that [_get_scinfo]
    wrote recovers the time keys of its divergences: when the schema
    lists at least one divergence and no time key contains a
    parenthesis or a comma, the three splits the reader applies to the
    relation of the entry give back the list of the [time] keys, in the
    order of the divergences. *)
Theorem X15_relation_round_trip (config : Config)
    (model : nat * list Demography) (yaml_dict y : Yaml.dict)
    (mg : Yaml.migration)
    (st st' : gmap string (list Q) * option (list string)) (g g' : rng) :
  Writer._get_scinfo config model yaml_dict = inr y ->
  Yaml.divergences y ≠ [] ->
  Forall (fun d => plain (Yaml.time d)) (Yaml.divergences y) ->
  mg ∈ default [] (Yaml.migrations y) ->
  Reader.read_migration rng random_uniform replicates y st mg g
  = inr (st', g') ->
  snd st' = Some (map Yaml.time (Yaml.divergences y)).
Proof.
  unfold Writer._get_scinfo.
  destruct (Writer.first_replicate model) as [?|m]; simpl; [discriminate|].
  intros [= <-]. simpl. intros Hne Hplain Hmg.
  destruct (scinfo_keys config yaml_dict (events m)
              {| Writer.migration := []; Writer.relations := ∅;
                 Writer.priors := Yaml.priors yaml_dict;
                 Writer.ancestraldiv := None |}) with (mg := mg)
    as [(key & Hend) Hrel]; [by intros ? ?%elem_of_nil|done|].
  destruct (parse_sc_relation (map Yaml.time (Yaml.divergences yaml_dict)))
    as (P1 & P2 & P3).
  { intros Heq. apply Hne. by destruct (Yaml.divergences yaml_dict). }
  { by apply Forall_fmap. }
  change ("min(" +++ String.concat "," (map Yaml.time (Yaml.divergences yaml_dict))
          +++ ")/2") with (Writer.sc_relation yaml_dict) in P1.
  revert Hrel P1. generalize (Writer.sc_relation yaml_dict). intros rel Hrel P1.
  revert P1 P2 P3.
  generalize (String.concat "," (map Yaml.time (Yaml.divergences yaml_dict))
              +++ ")/2").
  generalize (String.concat "," (map Yaml.time (Yaml.divergences yaml_dict))).
  intros joined piece P1 P2 P3.
  unfold Reader.read_migration. simpl.
  unfold mbind at 1.
  destruct (lift _ g) as [?|[migprior g1]]; [discriminate|].
  unfold mbind at 1.
  destruct (uniform_size _ _ _ _ _ _) as [?|[draws g2]]; [discriminate|].
  rewrite Hend. unfold lift. simpl.
  unfold Py.getitem at 1. rewrite Hrel. simpl.
  rewrite P1. simpl. rewrite P2. simpl. rewrite P3.
  by intros [= <- _].
Qed.

End WithGenerator.

End RelationParsing.

(** ** The order of the divergences, written and read back *)

Module OrderRoundTrip.

Import Enumerate Sampler Spec Behaviour.

Local Infix "+++" := String.append (at level 60, right associativity).

Lemma postorder_last (label : string) (ne div : Z * Z) (c1 c2 : tree) :
  exists init,
    postorder_internal_node_iter (Node label ne div c1 c2)
    = init ++ [Node label ne div c1 c2].
Proof.
  simpl. exists (postorder_internal_node_iter c1 ++ postorder_internal_node_iter c2).
  by rewrite <- app_assoc.
Qed.

(** In the postorder of the internal nodes a child stands before its
    parent. *)
Lemma child_first (t n c : tree) :
  n ∈ postorder_internal_node_iter t -> internal_child c n ->
  exists l1 l2 l3, postorder_internal_node_iter t = l1 ++ c :: l2 ++ n :: l3.
Proof.
  intros Hn Hc. induction t as [|label ne div t1 IH1 t2 IH2]; simpl in *.
  - by apply elem_of_nil in Hn.
  - rewrite !elem_of_app, list_elem_of_singleton in Hn.
    destruct Hn as [Hn|[Hn| ->]].
    + destruct (IH1 Hn) as (l1 & l2 & l3 & ->).
      exists l1, l2, (l3 ++ postorder_internal_node_iter t2
                         ++ [Node label ne div t1 t2]).
      by simplify_list_eq.
    + destruct (IH2 Hn) as (l1 & l2 & l3 & ->).
      exists (postorder_internal_node_iter t1 ++ l1), l2,
        (l3 ++ [Node label ne div t1 t2]).
      by simplify_list_eq.
    + destruct Hc as [(? & ? & ? & c1 & c2 & [= <- <- <- <- <-] & Hc)
                        (lc & nc & dc & k1 & k2 & ->)].
      destruct (postorder_last lc nc dc k1 k2) as (init & Hinit).
      destruct Hc as [<- | <-]; rewrite Hinit.
      * exists init, (postorder_internal_node_iter t2), [].
        by simplify_list_eq.
      * exists (postorder_internal_node_iter t1 ++ init), [], [].
        by simplify_list_eq.
Qed.

Lemma position_unique {A} (x : A) (l1 l2 k1 k2 : list A) :
  x ∉ l1 -> x ∉ k1 -> l1 ++ x :: l2 = k1 ++ x :: k2 -> l1 = k1.
Proof.
  revert k1. induction l1 as [|y l1 IH]; intros [|z k1] H1 H2; simpl.
  - done.
  - intros [= <- _]. exfalso. apply H2. by left.
  - intros [= -> _]. exfalso. apply H1. by left.
  - intros [= <- Heq]. f_equal. apply IH; [| |done].
    + intros ?. apply H1. by right.
    + intros ?. apply H2. by right.
Qed.

(** Among nodes of pairwise distinct names a name determines its node. *)
Lemma label_unique (nodes : list tree) (n m : tree) :
  NoDup (map label_of nodes) -> n ∈ nodes -> m ∈ nodes ->
  label_of m = label_of n -> m = n.
Proof.
  intros Hnd Hn Hm Heq.
  apply list_elem_of_lookup in Hn as (i & Hi).
  apply list_elem_of_lookup in Hm as (j & Hj).
  assert (i = j) as ->; [|congruence].
  apply (NoDup_lookup _ _ _ (label_of n) Hnd).
  - by rewrite list_lookup_fmap, Hi.
  - by rewrite list_lookup_fmap, Hj, <- Heq.
Qed.

(** The postorder of the internal nodes is a sub-list of the postorder
    of all the nodes. *)
Lemma internal_sublist (t : tree) :
  postorder_internal_node_iter t `sublist_of` postorder_node_iter t.
Proof.
  induction t as [|label ne div t1 IH1 t2 IH2]; simpl.
  - apply sublist_nil_l.
  - by repeat apply sublist_app.
Qed.

Lemma items_of_splits (l : list tree) :
  omap divergence_item (map split_of l) = map node_item l.
Proof.
  induction l as [|n l IH]; [done|]. destruct n; simpl; f_equal; exact IH.
Qed.

Lemma node_item_ancestral (n : tree) : Yaml.ancestral (node_item n) = label_of n.
Proof. by destruct n. Qed.

(** Among the internal nodes a combo leaves in place, an internal child
    stands before its parent. *)
Lemma child_in_prefix (species_tree : tree) (combo : list tree)
    (Ub Ua : list tree) (n m : tree) :
  NoDup (map label_of (postorder_node_iter species_tree)) ->
  uncollapsed species_tree combo = Ub ++ n :: Ua ->
  internal_child m n ->
  m ∈ uncollapsed species_tree combo ->
  m ∈ Ub.
Proof.
  intros Hnd HeqU Hic Hm.
  assert (Hint : NoDup (map label_of (postorder_internal_node_iter species_tree))).
  { apply (sublist_NoDup _ _ Hnd).
    apply (fmap_sublist label_of _ _ (internal_sublist species_tree)). }
  assert (Hsub : uncollapsed species_tree combo
                 `sublist_of` postorder_internal_node_iter species_tree)
    by apply sublist_filter.
  assert (HndU : NoDup (uncollapsed species_tree combo)).
  { apply (NoDup_fmap_1 label_of). apply (sublist_NoDup _ _ Hint).
    apply (fmap_sublist label_of _ _ Hsub). }
  assert (Hn : n ∈ uncollapsed species_tree combo).
  { rewrite HeqU. apply elem_of_app. right. by left. }
  unfold uncollapsed in Hn, Hm.
  apply list_elem_of_filter in Hn as [Hn1 Hn2].
  apply list_elem_of_filter in Hm as [Hm1 Hm2].
  destruct (child_first species_tree _ m Hn2 Hic) as (l1 & l2 & l3 & HL).
  assert (HU' : uncollapsed species_tree combo
                = (filter (fun n => n ∉ combo) l1 ++ m
                     :: filter (fun n => n ∉ combo) l2)
                  ++ n :: filter (fun n => n ∉ combo) l3).
  { unfold uncollapsed. rewrite HL.
    rewrite filter_app, filter_cons_True by done.
    rewrite filter_app, filter_cons_True by done.
    by rewrite <- app_assoc. }
  assert (Ub = filter (fun n => n ∉ combo) l1 ++ m
                 :: filter (fun n => n ∉ combo) l2) as ->.
  { apply (position_unique n _ Ua _ (filter (fun n => n ∉ combo) l3)).
    - rewrite HeqU in HndU. by apply NoDup_app in HndU as (_ & Hdis & _);
        intros Hin; apply (Hdis _ Hin); left.
    - rewrite HU' in HndU. by apply NoDup_app in HndU as (_ & Hdis & _);
        intros Hin; apply (Hdis _ Hin); left.
    - by rewrite <- HeqU, <- HU'. }
  apply elem_of_app. right. by left.
Qed.

(** A derived population of a node that is the label of an internal
    node left in place is that child of the node. *)
Lemma derived_is_child (species_tree : tree) (combo : list tree)
    (label : string) (ne div : Z * Z) (c1 c2 : tree) (x : string) :
  NoDup (map label_of (postorder_node_iter species_tree)) ->
  Node label ne div c1 c2 ∈ postorder_internal_node_iter species_tree ->
  x = label_of c1 \/ x = label_of c2 ->
  x ∈ map label_of (uncollapsed species_tree combo) ->
  exists m,
    label_of m = x /\ m ∈ uncollapsed species_tree combo /\
    internal_child m (Node label ne div c1 c2).
Proof.
  intros Hnd Hn Hx (m & -> & Hm)%list_elem_of_fmap.
  exists m. split; [done|]. split; [done|].
  pose proof Hm as Hm'. unfold uncollapsed in Hm'.
  apply list_elem_of_filter in Hm' as [_ Hm2].
  destruct (PriorFacts.children_in_postorder species_tree label ne div c1 c2)
    as [Hc1 Hc2]; [by apply PriorFacts.internal_in_postorder|].
  assert (Hchild : m = c1 \/ m = c2).
  { destruct Hx as [Hx|Hx]; [left|right];
      apply (label_unique _ _ _ Hnd);
      auto using PriorFacts.internal_in_postorder. }
  split; [by repeat eexists|]. by eapply TopologyFacts.internal_is_node.
Qed.

(** The divergences of a topology of the builder are listed in
    dependency order when the names of the tree are pairwise
    distinct. *)
Lemma topology_dependency_ordered (species_tree : tree) (combo : list tree) :
  NoDup (map label_of (postorder_node_iter species_tree)) ->
  dependency_ordered (map node_item (uncollapsed species_tree combo)).
Proof.
  intros Hnd.
  assert (Hint : NoDup (map label_of (postorder_internal_node_iter species_tree))).
  { apply (sublist_NoDup _ _ Hnd).
    apply (fmap_sublist label_of _ _ (internal_sublist species_tree)). }
  assert (HU : NoDup (map label_of (uncollapsed species_tree combo))).
  { apply (sublist_NoDup _ _ Hint).
    apply (fmap_sublist label_of). apply sublist_filter. }
  assert (Hanc : forall l, map Yaml.ancestral (map node_item l) = map label_of l).
  { intros l. rewrite <- list_fmap_compose. apply list_fmap_ext.
    intros i n _. apply node_item_ancestral. }
  split; [by rewrite Hanc|].
  intros before d after Heq x Hx Hin.
  apply fmap_app_inv in Heq as (Ub & rest & -> & Hrest & HeqU).
  symmetry in Hrest. apply fmap_cons_inv in Hrest as (n & Ua & -> & -> & ->).
  rewrite Hanc. rewrite Hanc in Hin.
  assert (Hn : n ∈ uncollapsed species_tree combo).
  { rewrite HeqU. apply elem_of_app. right. by left. }
  unfold uncollapsed in Hn. apply list_elem_of_filter in Hn as [_ Hn].
  destruct (TopologyFacts.internal_is_node _ _ Hn)
    as (label & ne & div & c1 & c2 & ->).
  simpl in Hx. apply MigrationModels.in_pair_inv in Hx. simpl in Hx.
  destruct (derived_is_child species_tree combo label ne div c1 c2 x Hnd Hn Hx Hin)
    as (m & <- & Hm & Hic).
  apply list_elem_of_fmap_2.
  by apply (child_in_prefix species_tree combo Ub Ua _ m Hnd HeqU).
Qed.

(** Giving an event its time and rate does not change the entry
    written for it. *)
Lemma reparameterized_items (l l' : list Event) :
  Forall2 reparameterized l l' ->
  omap divergence_item l' = omap divergence_item l.
Proof.
  induction 1 as [|e e' l l' (t & r & ->) _ IH]; [done|].
  destruct e; simpl; [f_equal; exact IH|exact IH..].
Qed.

Section WithGenerator.

Variable rng : Type.
Variable random_uniform : Q -> Q -> rng -> Q * rng.

(** The replicates of a divergence model keep its events in place. *)
Lemma divergence_replicate_events (config : Config)
    (population_sizes divergence_times : gmap string (Z * Z))
    (model : Demography) (g g' : rng) (reps : list Demography) :
  parameterize_divergence rng random_uniform config population_sizes
    divergence_times model g = inr (reps, g') ->
  Forall (fun r => Forall2 reparameterized (events model) (events r)) reps.
Proof.
  unfold parameterize_divergence. unfold mbind at 1.
  destruct (_draw_population_sizes _ _ _ _ _ _) as [?|[sk g1]]; [discriminate|].
  unfold mbind at 1.
  destruct (_draw_divergence_times _ _ _ _ _ _ _) as [?|[draws g2]];
    [discriminate|].
  unfold lift.
  destruct (Py.map_ _ (seq 0 (replicates config))) as [?|rs] eqn:Hreps;
    [discriminate|].
  intros [= <- _]. apply map_inr in Hreps.
  apply Forall_lookup. intros i r Hr.
  destruct (Forall2_lookup_r _ _ _ _ _ Hreps Hr) as (rep & _ & Hbody).
  destruct (assign_sizes (fst sk) rep model) as [?|sized] eqn:Hsized;
    simpl in Hbody; [discriminate|].
  destruct (Py.map_ _ (events sized)) as [?|evs] eqn:Hevs; simpl in Hbody;
    [discriminate|].
  inversion Hbody; subst r. clear Hbody. simpl.
  apply ReplicateFacts.assign_sizes_events in Hsized. rewrite <- Hsized.
  eapply (ReplicateShape.assigned_events); [|exact Hevs].
  apply ReplicateShape.assigned_divergence.
Qed.

(** X16.  For a species tree whose nodes carry pairwise distinct names
    the order of the divergences survives the round trip of a divergence
    model: the schema written for the replicates of a topology of the
    builder lists the divergences in the order in which the sampler
    draws their times (children before parents), and the reader, given
    that list, goes through its ordering loop once and samples in the
    order of the list. *)
Theorem X16_divergence_order_round_trip (config : Config) (combo : list tree)
    (topology : Demography)
    (population_sizes divergence_times : gmap string (Z * Z))
    (g g' : rng) (reps : list Demography) (i fuel : nat) (y : Yaml.dict) :
  NoDup (map label_of (postorder_node_iter (species_tree config))) ->
  divergence_demography (species_tree config) combo = inr topology ->
  parameterize_divergence rng random_uniform config population_sizes
    divergence_times topology g = inr (reps, g') ->
  Writer.divergence_yaml config (i, reps) = inr y ->
  map Yaml.ancestral (Yaml.divergences y)
  = ancestral_names (events topology) /\
  Reader.order_divergences (S fuel) (Yaml.divergences y)
  = Some (inr (Yaml.divergences y)).
Proof.
  intros Hnd Htop Hreps Hy.
  apply divergence_replicate_events in Hreps.
  apply WriterSchema.divergence_schema in Hy as (m & Hm & _ & Hdivs & _).
  simpl in Hm.
  pose proof (Forall_lookup_1 _ _ _ _ Hreps Hm) as Hevents.
  apply reparameterized_items in Hevents.
  destruct (TopologyFacts.divergence_demography_shape (species_tree config) combo)
    as (d' & Hd' & Hev & _).
  rewrite Htop in Hd'. inversion Hd'; subst d'. clear Hd'.
  rewrite Hdivs, Hevents, Hev, items_of_splits. split.
  - rewrite BuilderFacts.ancestral_names_splits, <- list_fmap_compose.
    apply list_fmap_ext. intros j n _. apply node_item_ancestral.
  - apply ReaderOrderFacts.reader_keeps_dependency_order.
    by apply topology_dependency_ordered.
Qed.

End WithGenerator.

End OrderRoundTrip.

(** ** When the sampler succeeds on a divergence model *)

Module SamplerSucceeds.

Import Enumerate Sampler Spec Behaviour.

Section WithGenerator.

Variable rng : Type.
Variable random_uniform : Q -> Q -> rng -> Q * rng.

Hypothesis uniform_range :
  forall lo hi g,
    (lo <= hi)%Q ->
    (lo <= fst (random_uniform lo hi g))%Q /\
    (fst (random_uniform lo hi g) <= hi)%Q.

(** Rounded draws above lower bounds that do not exceed the upper
    bound. *)
Lemma rounded_draws_total (hi : Q) :
  forall (xs : list Q) (g : rng),
    Forall (fun x => (x <= hi)%Q) xs ->
    exists la g',
      mmap (fun x => u <~ uniform rng random_uniform x hi ;;
                     mret (Numpy.round 0 u)) xs g = inr (la, g').
Proof.
  induction xs as [|x xs IH]; intros g Hall; simpl.
  - by exists [], g.
  - inversion Hall as [|? ? Hx Hxs]; subst.
    unfold mbind at 1. unfold mbind at 1, uniform at 1.
    rewrite (proj2 (Qle_bool_iff x hi) Hx).
    destruct (random_uniform x hi g) as [u g1]. unfold mret at 1.
    destruct (IH g1 Hxs) as (la & g' & Hrun).
    unfold mbind at 1. rewrite Hrun. unfold mret. by eexists _, _.
Qed.

(** The populations of a topology of the builder are named after nodes
    of the tree. *)
Lemma topology_names (species_tree : tree) (combo : list tree) (nm : string) :
  nm ∈ concat (map derived_names (uncollapsed species_tree combo))
       ++ [label_of species_tree] ->
  nm ∈ map label_of (postorder_node_iter species_tree).
Proof.
  intros [Hnm|Hnm]%elem_of_app.
  - apply list_elem_of_In, in_concat in Hnm as (names & Hnames & Hnm).
    apply in_map_iff in Hnames as (n & <- & Hn).
    apply list_elem_of_In in Hn. unfold uncollapsed in Hn.
    apply list_elem_of_filter in Hn as [_ Hn].
    destruct (TopologyFacts.internal_is_node _ _ Hn)
      as (label & ne & div & c1 & c2 & ->).
    apply PriorFacts.internal_in_postorder,
      PriorFacts.children_in_postorder in Hn as [H1 H2].
    simpl in Hnm. destruct Hnm as [<-|[<-|[]]]; by apply list_elem_of_fmap_2.
  - apply list_elem_of_singleton in Hnm as ->.
    apply list_elem_of_fmap_2, PriorFacts.root_in_postorder.
Qed.

(** The loop of [_draw_divergence_times] over the splits of a topology
    of the builder, from the split it has reached. *)
Lemma draw_topology_loop (config : Config) (combo : list tree) :
  let species_tree := species_tree config in
  let dts := snd (Priors._get_priors species_tree) in
  NoDup (map label_of (postorder_node_iter species_tree)) ->
  ordered_priors species_tree ->
  forall (Ua Ub : list tree) (draws : gmap string (list Q)) (g : rng),
    uncollapsed species_tree combo = Ub ++ Ua ->
    (forall k l, draws !! k = Some l -> divergence_entry config dts k l) ->
    (forall n, n ∈ Ub -> is_Some (draws !! label_of n)) ->
    (forall nm,
       nm ∈ concat (map derived_names (uncollapsed species_tree combo)) ->
       nm ∉ map label_of (uncollapsed species_tree combo) ->
       is_Some (draws !! nm)) ->
    exists draws' g',
      mfor (map split_of Ua)
        (draw_divergence_event rng random_uniform config dts) draws g
      = inr (draws', g').
Proof.
  intros species_tree dts Hnd [_ Hord].
  induction Ua as [|n Ua IH]; intros Ub draws g HU Hinv Hdone Hleaf; simpl.
  - by exists draws, g.
  - assert (Hn : n ∈ uncollapsed species_tree combo).
    { rewrite HU. apply elem_of_app. right. by left. }
    pose proof Hn as Hn'. unfold uncollapsed in Hn'.
    apply list_elem_of_filter in Hn' as [_ Hint].
    destruct (TopologyFacts.internal_is_node _ _ Hint)
      as (label & ne & [lo hi] & c1 & c2 & ->).
    destruct (Hord _ _ _ _ _ Hint) as (Hlohi & Hhi & Hchild). simpl in Hlohi, Hhi.
    pose proof (PriorFacts.internal_in_postorder _ _ Hint) as Hpost.
    destruct (PriorFacts.children_in_postorder _ _ _ _ _ _ Hpost) as [Hc1 Hc2].
    assert (Hderived : forall c, c = c1 \/ c = c2 ->
               exists l, draws !! label_of c = Some l /\
                         length l = replicates config /\
                         Forall (fun v => (v <= inject_Z hi)%Q) l).
    { intros c Hc.
      assert (Hcpost : c ∈ postorder_node_iter species_tree)
        by (destruct Hc as [->| ->]; done).
      assert (Hsome : is_Some (draws !! label_of c)).
      { destruct (decide (label_of c
                          ∈ map label_of (uncollapsed species_tree combo)))
          as [Hin|Hnot].
        - destruct (OrderRoundTrip.derived_is_child species_tree combo
                      label ne (lo, hi) c1 c2 (label_of c) Hnd Hint)
            as (m & Hlab & Hm & Hic); [by destruct Hc as [->| ->]; auto|done|].
          rewrite <- Hlab. apply Hdone.
          by apply (OrderRoundTrip.child_in_prefix species_tree combo Ub Ua
                      _ m Hnd HU).
        - apply Hleaf; [|done].
          apply list_elem_of_In, in_concat.
          exists (derived_names (Node label ne (lo, hi) c1 c2)). split.
          + apply in_map. by apply list_elem_of_In.
          + simpl. destruct Hc as [->| ->]; auto. }
      destruct Hsome as (l & Hl). exists l. split; [done|].
      destruct (Hinv _ _ Hl) as (Hlen & Hall & Hrange). split; [done|].
      destruct Hrange as [->|(range & Hprior & Hin)].
      - apply Forall_forall. intros v ->%list_elem_of_In%repeat_spec.
        change (inject_Z 0 <= inject_Z hi)%Q. by rewrite <- Zle_Qle.
      - unfold dts in Hprior.
        rewrite (proj2 (PriorFacts.prior_of_node _ _ Hnd Hcpost)) in Hprior.
        pose proof (Hchild c range Hc Hprior) as Hle. simpl in Hle.
        eapply Forall_impl; [exact Hin|]. intros v [_ Hv]. simpl.
        apply (Qle_trans _ _ _ Hv). by rewrite <- Zle_Qle. }
    destruct (Hderived c1 (or_introl eq_refl)) as (l1 & Hl1 & Hlen1 & Hall1).
    destruct (Hderived c2 (or_intror eq_refl)) as (l2 & Hl2 & Hlen2 & Hall2).
    assert (Hprior : dts !! label = Some (lo, hi)).
    { exact (proj2 (PriorFacts.prior_of_node _ _ Hnd Hpost)). }
    destruct (rounded_draws_total (inject_Z hi)
                (min_values config l1 l2 (inject_Z lo)) g) as (la & g1 & Hla).
    { apply Forall_lookup. intros i x Hx.
      apply SamplerFacts.min_values_lookup in Hx as (v1 & v2 & Hv1 & Hv2 & ->).
      pose proof (Forall_lookup_1 _ _ _ _ Hall1 Hv1) as H1.
      pose proof (Forall_lookup_1 _ _ _ _ Hall2 Hv2) as H2.
      simpl in H1, H2.
      apply Q.max_lub; [by apply Q.max_lub|]. by rewrite <- Zle_Qle. }
    assert (Hstep : draw_divergence_event rng random_uniform config dts draws
                      (split_of (Node label ne (lo, hi) c1 c2)) g
                    = inr (<[label := la]> draws, g1)).
    { simpl. unfold mbind at 1, lift, Py.getitem. rewrite Hl1.
      unfold mbind at 1. rewrite Hl2.
      unfold mbind at 1. rewrite Hprior.
      unfold mbind at 1. simpl fst. simpl snd. by rewrite Hla. }
    unfold mbind at 1. rewrite Hstep.
    destruct (DivergenceFacts.draw_event_entries rng random_uniform
                uniform_range config dts draws _ _ g g1 Hinv Hstep)
      as (Hinv1 & Hdom1 & Hkeep1).
    apply (IH (Ub ++ [Node label ne (lo, hi) c1 c2])).
    + by rewrite <- app_assoc.
    + done.
    + intros m Hm. apply Hdom1. apply elem_of_app in Hm as [Hm|Hm].
      * left. by apply Hdone.
      * apply list_elem_of_singleton in Hm as ->. right. simpl. by left.
    + intros nm H1 H2. apply Hdom1. left. by apply Hleaf.
Qed.


End WithGenerator.

End SamplerSucceeds.

(** ** The description of a model and the writer without replicates *)

Module DescriptionFacts.

Import Enumerate Sampler Spec Behaviour.

Local Infix "+++" := String.append (at level 60, right associativity).

(** A topology that leaves [k] internal nodes in place has [2 k + 1]
    populations. *)
Lemma derived_names_length (nodes : list tree) :
  (forall n, n ∈ nodes -> exists label ne div c1 c2, n = Node label ne div c1 c2) ->
  length (concat (map derived_names nodes)) = (2 * length nodes)%nat.
Proof.
  induction nodes as [|n nodes IH]; intros Hnodes; [done|].
  destruct (Hnodes n) as (label & ne & div & c1 & c2 & ->); [by left|].
  simpl. rewrite IH; [lia|]. intros m Hm. apply Hnodes. by right.
Qed.

(** Events with a rate are no splits. *)
Lemma rate_events_no_split (migs : list Event) :
  (forall e, e ∈ migs -> has_rate e = true) -> ancestral_names migs = [].
Proof.
  induction migs as [|e migs IH]; intros Hmigs; [done|].
  assert (He : has_rate e = true) by (apply Hmigs; by left).
  destruct e; [discriminate|..]; simpl; apply IH;
    intros e' He'; apply Hmigs; by right.
Qed.

(** X18.  For a model that [build_models] stores, in any category, the
    description written from a first replicate with the populations of
    the model reports the number of splits of the model plus one; the
    number of the model is its index plus [start]. *)
Theorem X18_description_counts_splits (config : Config) (models : Models)
    (d m : Demography) (model : nat * list Demography) (yaml_dict y : Yaml.dict)
    (type : string) (start : nat) :
  build_models config = inr models ->
  d ∈ divergence_demographies models ++ sc_demographies models
      ++ dwg_demographies models ->
  snd model !! 0%nat = Some m ->
  map name (populations m) = map name (populations d) ->
  Writer._get_description model yaml_dict type start = inr y ->
  Yaml.description y
  = "Model " +++ pretty (fst model + start)%nat +++ ": " +++ type
    +++ " with " +++ pretty (length (ancestral_names (events d)) + 1)%nat
    +++ " populations.".
Proof.
  intros Hrun Hd Hm Hnames.
  destruct (MigrationModels.built_models_origin config models Hrun d Hd)
    as (combo & migs & Hev & Hmigs & Hpop).
  assert (Hcount : ((length (populations m) + 1) / 2
                    = length (ancestral_names (events d)) + 1)%nat).
  { rewrite <- (length_map name (populations m)), Hnames, length_map, Hpop.
    rewrite length_map, length_app, derived_names_length.
    2:{ intros n Hn. unfold uncollapsed in Hn.
        apply list_elem_of_filter in Hn as [_ Hn].
        by eapply TopologyFacts.internal_is_node. }
    rewrite Hev. unfold ancestral_names at 1. rewrite omap_app.
    fold (ancestral_names migs).
    fold (ancestral_names (map split_of (uncollapsed (species_tree config) combo))).
    rewrite (rate_events_no_split _ Hmigs), BuilderFacts.ancestral_names_splits.
    rewrite app_nil_l, length_map.
    change (length [label_of (species_tree config)]) with 1%nat.
    replace (2 * length (uncollapsed (species_tree config) combo) + 1 + 1)%nat
      with ((length (uncollapsed (species_tree config) combo) + 1) * 2)%nat by lia.
    by rewrite Nat.div_mul. }
  unfold Writer._get_description, Writer.first_replicate, Py.index.
  rewrite Hm. intros Hy.
  cbv beta iota delta [Py.bind Py.ret] in Hy. injection Hy as <-.
  cbn [Yaml.description].
  change (fst (Nat.divmod (length (populations m) + 1) 1 0 1))
    with ((length (populations m) + 1) / 2)%nat.
  by rewrite Hcount.
Qed.

(** The first model without a replicate stops the comprehension of a
    category. *)
Lemma category_without_replicates {B}
    (write : nat * list Demography -> Py.result B)
    (models : list (nat * list Demography)) :
  (forall model, snd model = [] ->
     write model = inl (Py.IndexError "index out of range")) ->
  models <> [] ->
  Forall (fun model => snd model = []) models ->
  Py.map_ write models = inl (Py.IndexError "index out of range").
Proof.
  intros Hwrite Hne Hall. destruct models as [|model models]; [done|].
  inversion Hall as [|? ? Hmodel _]; subst. simpl.
  by rewrite (Hwrite model Hmodel).
Qed.

Lemma enumerate_without_replicates (category : list (list Demography)) :
  Forall (fun reps => reps = []) category ->
  Forall (fun model : nat * list Demography => snd model = [])
    (Writer.enumerate category).
Proof.
  intros Hall. apply Forall_forall. intros [i reps] Hin.
  unfold Writer.enumerate in Hin.
  apply elem_of_lookup_imap in Hin as (i' & reps' & Heq & Hreps).
  injection Heq as -> ->. simpl.
  apply list_elem_of_lookup_2 in Hreps.
  by apply (proj1 (Forall_forall _ _) Hall).
Qed.

(** X19.  When there is a model to write and no model has a replicate,
    as after drawing with [replicates = 0], [write_to_yaml] raises the
    [IndexError] of [model[1][0]]. *)
Theorem X19_nothing_written_without_replicates (config : Config)
    (divergence_demographies sc_demographies dwg_demographies
       : list (list Demography)) :
  divergence_demographies ++ sc_demographies ++ dwg_demographies <> [] ->
  Forall (fun reps => reps = [])
    (divergence_demographies ++ sc_demographies ++ dwg_demographies) ->
  Writer.write_to_yaml config divergence_demographies sc_demographies
    dwg_demographies
  = inl (Py.IndexError "index out of range").
Proof.
  intros Hne Hall.
  apply Forall_app in Hall as [Hdiv Hall].
  apply Forall_app in Hall as [Hsc Hdwg].
  assert (Hnil : forall A (l : list A), Writer.enumerate l = [] -> l = []).
  { intros A l Hl. apply (f_equal length) in Hl.
    unfold Writer.enumerate in Hl. rewrite length_imap in Hl.
    by destruct l. }
  assert (Hdesc : forall (model : nat * list Demography) type start,
            snd model = [] ->
            Writer._get_description model Yaml.empty type start
            = inl (Py.IndexError "index out of range")).
  { intros [i reps] type start. simpl. by intros ->. }
  unfold Writer.write_to_yaml.
  destruct (decide (divergence_demographies = [])) as [->|Hd].
  - simpl.
    destruct (decide (sc_demographies = [])) as [->|Hs].
    + simpl. rewrite category_without_replicates; [done| | |].
      * intros model Hmodel. unfold Writer.dwg_yaml.
        by rewrite (Hdesc model _ _ Hmodel).
      * intros Hnil'%Hnil. by subst.
      * by apply enumerate_without_replicates.
    + rewrite category_without_replicates; [done| | |].
      * intros model Hmodel. unfold Writer.sc_yaml.
        by rewrite (Hdesc model _ _ Hmodel).
      * by intros Hnil'%Hnil.
      * by apply enumerate_without_replicates.
  - rewrite category_without_replicates; [done| | |].
    + intros model Hmodel. unfold Writer.divergence_yaml.
      by rewrite (Hdesc model _ _ Hmodel).
    + by intros Hnil'%Hnil.
    + by apply enumerate_without_replicates.
Qed.

End DescriptionFacts.

(** ** Further statements on the example scenarios *)

Module FurtherWitnesses.

Import Enumerate Sampler Spec Behaviour.

Lemma X3_witness :
  exists found,
    _find_sc_to_include (Trees.scenario true) Examples.resolved_sR = inr found /\
    forall p q,
      (p, q) ∈ found <->
      marked (Trees.scenario true) p q /\
      extant (events Examples.resolved_sR) p /\
      extant (events Examples.resolved_sR) q.
Proof.
  apply (CandidateSearch.X3_secondary_contact_candidates (Trees.scenario true)
           Examples.resolved_sR).
  refine (proj1 (Forall_forall (fun e => has_rate e = false)
                   (events Examples.resolved_sR)) _).
  apply (bool_decide_unpack _). by vm_compute.
Defined.

Lemma X4_witness :
  exists found,
    _find_dwg_to_include Examples.balanced Examples.resolved_bR = inr found /\
    forall p q,
      (p, q) ∈ found <->
      marked Examples.balanced p q /\
      derived_together (events Examples.resolved_bR) p q.
Proof.
  apply (CandidateSearch.X4_gene_flow_candidates Examples.balanced
           Examples.resolved_bR).
  refine (proj1 (Forall_forall (fun e => has_rate e = false)
                   (events Examples.resolved_bR)) _).
  apply (bool_decide_unpack _). by vm_compute.
Defined.

Lemma X5_witness :
  Forall (migration_model (Trees.scenario true) _find_sc_to_include 0
            (divergence_demographies Runs.built_sR))
    (sc_demographies Runs.built_sR) /\
  Forall (migration_model (Trees.scenario true) _find_dwg_to_include
            migrateholder (divergence_demographies Runs.built_sR))
    (dwg_demographies Runs.built_sR) /\
  ((max_migration_events (Trees.scenario true) <= 0)%Z ->
   sc_demographies Runs.built_sR = [] /\ dwg_demographies Runs.built_sR = []).
Proof.
  apply (MigrationModels.X5_migration_models (Trees.scenario true)
           Runs.built_sR).
  - reflexivity.
  - by vm_compute.
Defined.

Lemma X7_witness :
  (forall node, node ∈ postorder_node_iter Trees.sR ->
     fst (Priors._get_priors Trees.sR) !! label_of node = Some (ne_of node) /\
     snd (Priors._get_priors Trees.sR) !! label_of node = div_of node) /\
  (forall k, k ∉ map label_of (postorder_node_iter Trees.sR) ->
     fst (Priors._get_priors Trees.sR) !! k = None /\
     snd (Priors._get_priors Trees.sR) !! k = None).
Proof.
  apply (PriorFacts.X7_priors_of_the_tree Trees.sR).
  apply (bool_decide_unpack _). by vm_compute.
Defined.


Lemma X9_witness :
  (forall p, p ∈ populations Examples.sc_sR ->
     exists node,
       node ∈ postorder_node_iter Trees.sR /\
       label_of node = name p /\
       fst (Priors._get_priors Trees.sR) !! name p = Some (ne_of node)) /\
  (forall t dv a, PopulationSplit t dv a ∈ events Examples.sc_sR ->
     exists node div,
       node ∈ postorder_internal_node_iter Trees.sR /\
       label_of node = a /\ div_of node = Some div /\
       snd (Priors._get_priors Trees.sR) !! a = Some div).
Proof.
  apply (PriorFacts.X9_priors_cover_models (Trees.scenario true) Runs.built_sR).
  - by vm_compute.
  - vm_compute. do 3 apply list_elem_of_further. apply list_elem_of_here.
Defined.


Lemma X11_witness :
  exists stops,
    _get_migration_stops (Trees.scenario true)
      {["X" := [300; 400]%Q; "R" := [800; 900]%Q; "C" := [0; 0]%Q]}
    = inr stops /\
    length stops = replicates (Trees.scenario true) /\
    forall rep stop, stops !! rep = Some stop ->
      (stop = Float.Inf /\
       forall k l v,
         ({["X" := [300; 400]%Q; "R" := [800; 900]%Q; "C" := [0; 0]%Q]}
            : gmap string (list Q)) !! k = Some l ->
         l !! rep = Some v -> (v == 0)%Q) \/
      (exists s,
         stop = Float.Fin s /\ integral s /\ (1 <= s)%Q /\
         forall k l v,
           ({["X" := [300; 400]%Q; "R" := [800; 900]%Q; "C" := [0; 0]%Q]}
              : gmap string (list Q)) !! k = Some l ->
           l !! rep = Some v -> (0 < v)%Q -> (s <= v)%Q).
Proof.
  apply (StopTimes.X11_migration_stops (Trees.scenario true)
           {["X" := [300; 400]%Q; "R" := [800; 900]%Q; "C" := [0; 0]%Q]}).
  apply map_Forall_lookup. apply map_Forall_to_list.
  match goal with |- Forall _ ?l => set (entries := l) end.
  vm_compute in entries. subst entries.
  repeat (constructor;
          [split; [reflexivity|];
           repeat (constructor;
                   [split; [match goal with
                            | |- integral ?v => by exists (Qnum v)
                            end|by vm_compute]|]);
           constructor|]).
  constructor.
Defined.


Lemma X13_witness :
  map fst (Runs.schemas_of Runs.written_sR) = seq 0 (1 + 1 + 0) /\
  Forall2 (fun reps iy =>
             exists m, reps !! 0%nat = Some m /\
                       schema_of (Trees.scenario true) m (snd iy))
    ([replicates_of Runs.div_sR_run] ++ [replicates_of Examples.sc_run] ++ [])
    (Runs.schemas_of Runs.written_sR).
Proof.
  apply (WriterSchema.X13_written_schemas (Trees.scenario true)
           [replicates_of Runs.div_sR_run] [replicates_of Examples.sc_run] []).
  by vm_compute.
Defined.

Lemma X14_witness : Reader.order_divergences 7 Runs.repeated = None.
Proof.
  apply (ReaderLoop.X14_reader_loops_on_repeated_names Runs.repeated).
  apply (bool_decide_unpack _). by vm_compute.
Defined.

Lemma X15_witness :
  Runs.mintimes_of Runs.read_AB
  = Some (map Yaml.time (Yaml.divergences Examples.sc_schema)).
Proof.
  refine (RelationParsing.X15_relation_round_trip (list Q) scripted 2
            (Trees.scenario true) (0%nat, replicates_of Examples.sc_run)
            Runs.sc_base Examples.sc_schema Runs.migration_AB (∅, None)
            (default (∅, None) (match Runs.read_AB with
                                | inr (st, _) => Some st
                                | inl _ => None
                                end))
            [] [] _ _ _ _ _).
  - by vm_compute.
  - by vm_compute.
  - vm_compute. repeat constructor.
  - vm_compute. apply list_elem_of_here.
  - by vm_compute.
Defined.

Lemma X16_witness :
  map Yaml.ancestral (Yaml.divergences Runs.div_sR_schema)
  = ancestral_names (events Examples.resolved_sR) /\
  Reader.order_divergences 3 (Yaml.divergences Runs.div_sR_schema)
  = Some (inr (Yaml.divergences Runs.div_sR_schema)).
Proof.
  refine (OrderRoundTrip.X16_divergence_order_round_trip (list Q) scripted
            (Trees.scenario true) [] Examples.resolved_sR
            (fst Examples.priors_sR) (snd Examples.priors_sR)
            Examples.script_sR
            (match Runs.div_sR_run with inr (_, g) => g | inl _ => [] end)
            (replicates_of Runs.div_sR_run) 0 2 Runs.div_sR_schema _ _ _ _).
  - apply (bool_decide_unpack _). by vm_compute.
  - by vm_compute.
  - by vm_compute.
  - by vm_compute.
Defined.


Lemma X18_witness :
  Yaml.description Runs.sc_described
  = String.append "Model "
      (String.append (pretty (0 + 3)%nat)
         (String.append ": "
            (String.append "Secondary Contact"
               (String.append " with "
                  (String.append
                     (pretty (length (ancestral_names (events Examples.sc_sR))
                              + 1)%nat)
                     " populations."))))).
Proof.
  refine (DescriptionFacts.X18_description_counts_splits (Trees.scenario true)
            Runs.built_sR Examples.sc_sR
            (default Msprime.new (replicates_of Examples.sc_run !! 0%nat))
            (0%nat, replicates_of Examples.sc_run) Yaml.empty
            Runs.sc_described "Secondary Contact" 3 _ _ _ _ _).
  - by vm_compute.
  - vm_compute. do 3 apply list_elem_of_further. apply list_elem_of_here.
  - by vm_compute.
  - by vm_compute.
  - by vm_compute.
Defined.

Lemma X19_witness :
  Writer.write_to_yaml (Trees.scenario true) [[]] [] []
  = inl (Py.IndexError "index out of range").
Proof.
  apply (DescriptionFacts.X19_nothing_written_without_replicates
           (Trees.scenario true) [[]] [] []).
  - discriminate.
  - by repeat constructor.
Defined.

End FurtherWitnesses.
